(** * Order orchestration of the microservices project, embedded in Rocq

    The development follows the Go sources:
    - [internal/orderservice/service/order_service.go]: [CreateOrder],
      [GetOrderByID], [ListUserOrders];
    - [internal/orderservice/repository/order_repository.go]: [CreateOrder],
      [GetOrderByID], [ListOrdersByUserID], [UpdateOrderStatus];
    - [internal/orderservice/handler/http_handler.go]: [Bind], [createOrder],
      [getOrder], and the gRPC handlers [CreateOrder] and [ListUserOrders];
    - [internal/productservice/...]: repository and service of
      [CreateProduct], [GetProductByID], [UpdateProduct], [DeleteProduct] and
      [UpdateStock], gRPC handler of [GetProduct] and [UpdateStock];
    - [internal/userservice/...]: repository, service and gRPC handler of
      [GetUser]; [CreateUser] and [LoginUser] with the repository functions
      they use, and the HTTP handler [createUser].

    Go's [int32] and [int] are integers of [Z] with their wrap-around written
    out, [float64] is Rocq's binary64 [float], Go maps are [gmap]s, slices
    are lists.  The three databases and the log of the calls the order
    service issues form an explicit world that every operation passes on.
    Goroutines are run by an explicit schedule: a list of task numbers, each
    naming the goroutine that takes its next lock-delimited step; the order
    in which [range] visits a map is part of the schedule too.  Failures of
    the transport and of the databases are decided, call by call, by the
    environment.  Logging, contexts and timestamps are left out; a table
    holds the values as they are written to it, and bcrypt is a pair of
    functions the account functions are given.

    The file has five parts: the embedding of the code; the vocabulary of
    the properties; lemmas on the parts of the code; the claims of the
    specification, each with the lemmas it needs; further properties of the
    services, X1 to X30. *)

From Stdlib Require Import ZArith Uint63 PrimFloat.
From stdpp Require Import gmap strings list fin_maps pretty.

Open Scope Z_scope.

(** ** Machine integers *)

(** The value a [w]-bit two's complement register holds after computing [x]. *)
Definition wrap (w : Z) (x : Z) : Z :=
  (x + 2 ^ (w - 1)) `mod` 2 ^ w - 2 ^ (w - 1).

(** Go's [int32]. *)
Definition int32 (x : Z) : Z := wrap 32 x.

(** Go's [int] on the 64-bit platforms the services are built for. *)
Definition int (x : Z) : Z := wrap 64 x.

Definition in_int32 (x : Z) : Prop := - 2 ^ 31 <= x < 2 ^ 31.
Definition in_int (x : Z) : Prop := - 2 ^ 63 <= x < 2 ^ 63.

(** [float64(q)] for an [int32] [q]: every such integer is a binary64 value. *)
Definition float64_of_int32 (q : Z) : float :=
  if q <? 0 then PrimFloat.opp (PrimFloat.of_uint63 (Uint63.of_Z (- q)))
  else PrimFloat.of_uint63 (Uint63.of_Z q).

(** ** Results and errors *)

Inductive result (A E : Type) : Type :=
  | Ok (a : A)
  | Err (e : E).
Arguments Ok {A E} a.
Arguments Err {A E} e.

Definition is_ok {A E} (r : result A E) : bool :=
  match r with Ok _ => true | Err _ => false end.

(** gRPC status codes used by the handlers, and [Unavailable] for a call that
    never reached its server. *)
Inductive Code := NotFound | InvalidArgument | FailedPrecondition | Internal | Unavailable.

Record Status := { code : Code; message : string }.

(** What a client stub returns besides a response: a status error, or an
    error that carries no status ([status.FromError] answers [ok = false]). *)
Inductive RpcError :=
  | StatusError (st : Status)
  | OtherError (msg : string).

Definition status_FromError (err : RpcError) : option Status :=
  match err with StatusError st => Some st | OtherError _ => None end.

(** [ok && st.Code() == codes.NotFound] *)
Definition is_NotFound (err : RpcError) : bool :=
  match status_FromError err with
  | Some st => match code st with NotFound => true | _ => false end
  | None => false
  end.

(** ** The environment of one run *)

(** What can go wrong with a call besides its own logic.  [Unreachable] is a
    transport failure: the request never reaches the server.  The others
    are failures of the database under the server, at the statement named;
    where a call executes several statements, [DbExecFails] is the failure
    of the first and [DbItemInsertFails i] that of the insert of the item
    row number [i] of an order. *)
Inductive Fault :=
  | NoFault | Unreachable | DbBeginFails | DbQueryFails | DbExecFails | DbCommitFails
  | DbItemInsertFails (i : nat).

#[global] Instance Fault_eq_dec : EqDecision Fault.
Proof. solve_decision. Defined.

(** The fault met by the n-th call of a run, and the identifiers
    [uuid.New()] hands out. *)
Record Env := { fault : nat → Fault; uuid : nat → string }.

(** ** Data model *)

(** [internal/productservice/model/product.go] (timestamps left out). *)
Record Product := {
  ID : string;
  Name : string;
  Description : string;
  Price : float;
  StockQuantity : Z;
}.

(** A row of the [products] table; the table is keyed by the [id] column. *)
Record ProductRow := {
  row_name : string;
  row_description : string;
  row_price : float;
  row_stock : Z;
}.

(** [rows.Scan] of the row selected by [id]. *)
Definition scan_product (id : string) (r : ProductRow) : Product :=
  {| ID := id; Name := row_name r; Description := row_description r;
     Price := row_price r; StockQuantity := row_stock r |}.

(** [internal/orderservice/model/order.go] (timestamps left out). *)
Inductive OrderStatus :=
  | StatusUnset | StatusPending | StatusProcessing | StatusCompleted | StatusCancelled.

Record OrderItem := {
  ItemID : string;
  OrderID : string;
  ProductID : string;
  Quantity : Z;
  PriceAtPurchase : float;
}.

Record Order := {
  OrderId : string;
  UserID : string;
  Items : list OrderItem;
  TotalAmount : float;
  OStatus : OrderStatus;
}.

(** A request item as the handlers build it: product and quantity only. *)
Definition request_item (productID : string) (quantity : Z) : OrderItem :=
  {| ItemID := ""; OrderID := ""; ProductID := productID; Quantity := quantity;
     PriceAtPurchase := 0%float |}.

(** ** Calls and the world they act on *)

Inductive Call :=
  | CallGetUser (userID : string)
  | CallGetProduct (productID : string)
  | CallUpdateStock (productID : string) (quantityChange : Z)
  | CallCreateOrder (userID : string)
  | CallListOrders (userID : string) (limit offset : Z).

#[global] Instance Call_eq_dec : EqDecision Call.
Proof. solve_decision. Defined.

(** The three databases, and the log of the calls the order service has
    issued, oldest first, each with whether it succeeded. *)
Record World := {
  users : gset string;
  products : gmap string ProductRow;
  orders : list Order;
  uuids : nat;
  calls : list (Call * bool);
}.

Definition log_call (c : Call) (ok : bool) (w : World) : World :=
  {| users := users w; products := products w; orders := orders w;
     uuids := uuids w; calls := calls w ++ [(c, ok)] |}.

Definition set_products (tbl : gmap string ProductRow) (w : World) : World :=
  {| users := users w; products := tbl; orders := orders w;
     uuids := uuids w; calls := calls w |}.

(** The fault the next call of the run meets. *)
Definition next_fault (env : Env) (w : World) : Fault :=
  fault env (length (calls w)).

Definition is_commit (e : Call * bool) : bool :=
  match e.1 with CallUpdateStock _ _ => true | _ => false end.
Definition is_fetch (e : Call * bool) : bool :=
  match e.1 with CallGetProduct _ => true | _ => false end.
Definition is_store (e : Call * bool) : bool :=
  match e.1 with CallCreateOrder _ | CallListOrders _ _ _ => true | _ => false end.

(** The stock-commit calls of a log: product, delta, success. *)
Definition commit_calls (l : list (Call * bool)) : list (string * Z * bool) :=
  omap (λ e, match e.1 with
             | CallUpdateStock p d => Some (p, d, e.2)
             | _ => None
             end) l.

(** The product-fetch calls of a log. *)
Definition fetch_calls (l : list (Call * bool)) : list string :=
  omap (λ e, match e.1 with CallGetProduct p => Some p | _ => None end) l.

(** ** User service *)

Module UserService.

Inductive Error := ErrUserNotFound | ErrDb.

(** [repository.GetUserByID]: one query on the [users] table. *)
Definition repo_GetUserByID (f : Fault) (id : string) (tbl : gset string)
  : result string Error :=
  if decide (f = DbQueryFails) then Err ErrDb
  else if decide (id ∈ tbl) then Ok id
  else Err ErrUserNotFound.

(** [service.GetUserByID] passes the repository's answer on. *)
Definition GetUserByID (f : Fault) (id : string) (tbl : gset string)
  : result string Error :=
  match repo_GetUserByID f id tbl with
  | Err ErrUserNotFound => Err ErrUserNotFound
  | Err e => Err e
  | Ok u => Ok u
  end.

(** [handler.GetUser] of the gRPC server. *)
Definition GetUser (f : Fault) (userID : string) (tbl : gset string)
  : result string RpcError :=
  if decide (userID = "") then
    Err (StatusError {| code := InvalidArgument; message := "user_id is required" |})
  else
    match GetUserByID f userID tbl with
    | Err ErrUserNotFound =>
        Err (StatusError {| code := NotFound; message := "user not found" |})
    | Err ErrDb =>
        Err (StatusError {| code := Internal; message := "failed to get user" |})
    | Ok u => Ok u
    end.

End UserService.

(** ** User accounts *)

(** Registration and login of the user service, over the [users] table with
    its rows. *)
Module UserAccounts.

(** [model.User], without its timestamps. *)
Record User := {
  UID : string;
  Username : string;
  Email : string;
  PasswordHash : string;
}.

Inductive Error :=
  | ErrUserNotFound
  | ErrUserAlreadyExists
  | ErrInvalidCredentials
  | ErrPassword
  | ErrDb (what : string).

(** [repository.GetUserByEmail] *)
Definition repo_GetUserByEmail (f : Fault) (email : string) (tbl : list User)
  : result User Error :=
  if decide (f = DbQueryFails) then Err (ErrDb "query failed")
  else match list_find (λ u, Email u = email) tbl with
       | None => Err ErrUserNotFound
       | Some (_, u) => Ok u
       end.

(** [repository.CreateUser]: a user without an id gets [id], the one
    [uuid.New()] hands out.  The function checks nothing itself: an insert
    that the database refuses is a statement that fails. *)
Definition repo_CreateUser (f : Fault) (id : string) (user : User) (tbl : list User)
  : result User Error * list User :=
  let user :=
    if decide (UID user = "") then
      {| UID := id; Username := Username user; Email := Email user;
         PasswordHash := PasswordHash user |}
    else user in
  if decide (f = DbQueryFails) then (Err (ErrDb "insert failed"), tbl)
  else (Ok user, tbl ++ [user]).

Section Passwords.

(** [HashPassword] and [CheckPasswordHash], that is bcrypt: hashing draws a
    salt and can fail. *)
Variable HashPassword : string → string → option string.
Variable CheckPasswordHash : string → string → bool.

(** [service.CreateUser]; [f1] and [f2] are the faults its two statements
    meet, [salt] and [id] what bcrypt and [uuid.New()] draw. *)
Definition CreateUser (f1 f2 : Fault) (salt id : string)
    (username email password : string) (tbl : list User)
  : result User Error * list User :=
  match repo_GetUserByEmail f1 email tbl with
  | Ok _ => (Err ErrUserAlreadyExists, tbl)
  | Err ErrUserNotFound =>
      match HashPassword salt password with
      | None => (Err ErrPassword, tbl)
      | Some hashedPassword =>
          repo_CreateUser f2 id
            {| UID := ""; Username := username; Email := email;
               PasswordHash := hashedPassword |} tbl
      end
  | Err e => (Err e, tbl)
  end.

(** [service.LoginUser]: the user and the token. *)
Definition LoginUser (f : Fault) (email password : string) (tbl : list User)
  : result (User * string) Error :=
  match repo_GetUserByEmail f email tbl with
  | Err ErrUserNotFound => Err ErrInvalidCredentials
  | Err e => Err e
  | Ok user =>
      if CheckPasswordHash password (PasswordHash user) then
        Ok (user, String.append "mock-jwt-token-for-" (UID user))
      else Err ErrInvalidCredentials
  end.

(** [handler.createUser] of the HTTP handler: the status of its answer. *)
Definition http_createUser_status (f1 f2 : Fault) (salt id : string)
    (username email password : string) (tbl : list User) : Z * list User :=
  if bool_decide (username = "") || bool_decide (email = "") || bool_decide (password = "")
  then (400, tbl)
  else match CreateUser f1 f2 salt id username email password tbl with
       | (Ok _, tbl') => (201, tbl')
       | (Err ErrUserAlreadyExists, tbl') => (409, tbl')
       | (Err _, tbl') => (500, tbl')
       end.

End Passwords.

End UserAccounts.

(** ** Product service *)

Module ProductService.

Inductive Error :=
  | ErrProductNotFound
  | ErrInsufficientStock
  | ErrInvalidProductData
  | ErrDb (what : string).

(** [repository.GetProductByID] *)
Definition repo_GetProductByID (f : Fault) (id : string)
    (tbl : gmap string ProductRow) : result Product Error :=
  if decide (f = DbQueryFails) then Err (ErrDb "query failed")
  else match tbl !! id with
       | None => Err ErrProductNotFound
       | Some r => Ok (scan_product id r)
       end.

(** [repository.UpdateStock]: one transaction that selects the row for
    update, checks the new stock, writes it and commits.  Whatever is not
    committed is rolled back, so the table changes on success only. *)
Definition repo_UpdateStock (f : Fault) (productID : string) (quantityChange : Z)
    (tbl : gmap string ProductRow) : result Product Error * gmap string ProductRow :=
  if decide (f = DbBeginFails) then (Err (ErrDb "failed to begin transaction"), tbl)
  else if decide (f = DbQueryFails) then
    (Err (ErrDb "failed to get product for stock update"), tbl)
  else match tbl !! productID with
       | None => (Err ErrProductNotFound, tbl)
       | Some r =>
           let newStock := int32 (row_stock r + quantityChange) in
           if newStock <? 0 then (Err ErrInsufficientStock, tbl)
           else
             let r' := {| row_name := row_name r; row_description := row_description r;
                          row_price := row_price r; row_stock := newStock |} in
             if decide (f = DbExecFails) then (Err (ErrDb "failed to update stock"), tbl)
             else if decide (f = DbCommitFails) then
               (Err (ErrDb "failed to commit transaction"), tbl)
             else (Ok (scan_product productID r'), <[productID := r']> tbl)
       end.

(** [service.GetProductByID] *)
Definition GetProductByID (f : Fault) (id : string)
    (tbl : gmap string ProductRow) : result Product Error :=
  if decide (id = "") then Err ErrInvalidProductData
  else repo_GetProductByID f id tbl.

(** [service.UpdateStock] *)
Definition UpdateStock (f : Fault) (productID : string) (quantityChange : Z)
    (tbl : gmap string ProductRow) : result Product Error * gmap string ProductRow :=
  if decide (productID = "") then (Err ErrInvalidProductData, tbl)
  else repo_UpdateStock f productID quantityChange tbl.

(** [handler.GetProduct] of the gRPC server. *)
Definition handler_GetProduct (f : Fault) (productID : string)
    (tbl : gmap string ProductRow) : result Product RpcError :=
  match GetProductByID f productID tbl with
  | Ok p => Ok p
  | Err ErrProductNotFound =>
      Err (StatusError {| code := NotFound; message := "product not found" |})
  | Err ErrInvalidProductData =>
      Err (StatusError {| code := InvalidArgument; message := "invalid product data" |})
  | Err _ =>
      Err (StatusError {| code := Internal; message := "failed to get product" |})
  end.

(** [handler.UpdateStock] of the gRPC server. *)
Definition handler_UpdateStock (f : Fault) (productID : string) (quantityChange : Z)
    (tbl : gmap string ProductRow) : result Product RpcError * gmap string ProductRow :=
  match UpdateStock f productID quantityChange tbl with
  | (Ok p, tbl') => (Ok p, tbl')
  | (Err ErrProductNotFound, tbl') =>
      (Err (StatusError {| code := NotFound;
                           message := "product not found for stock update" |}), tbl')
  | (Err ErrInsufficientStock, tbl') =>
      (Err (StatusError {| code := FailedPrecondition;
                           message := "insufficient stock" |}), tbl')
  | (Err ErrInvalidProductData, tbl') =>
      (Err (StatusError {| code := InvalidArgument;
                           message := "invalid product ID for stock update" |}), tbl')
  | (Err (ErrDb _), tbl') =>
      (Err (StatusError {| code := Internal; message := "failed to update stock" |}), tbl')
  end.

(** A row with the fields of a product. *)
Definition row_of (p : Product) : ProductRow :=
  {| row_name := Name p; row_description := Description p; row_price := Price p;
     row_stock := StockQuantity p |}.

(** [repository.CreateProduct]: [id] is the identifier [uuid.New()] hands
    out.  The row holds the values as they are given. *)
Definition repo_CreateProduct (f : Fault) (id : string) (product : Product)
    (tbl : gmap string ProductRow) : result Product Error * gmap string ProductRow :=
  if decide (f = DbQueryFails) then (Err (ErrDb "insert failed"), tbl)
  else (Ok (scan_product id (row_of product)), <[id := row_of product]> tbl).

(** [repository.UpdateProduct]: the row with the product's id is rewritten;
    without such a row nothing comes back from RETURNING. *)
Definition repo_UpdateProduct (f : Fault) (product : Product)
    (tbl : gmap string ProductRow) : result Product Error * gmap string ProductRow :=
  if decide (f = DbQueryFails) then (Err (ErrDb "update failed"), tbl)
  else match tbl !! ID product with
       | None => (Err ErrProductNotFound, tbl)
       | Some _ => (Ok product, <[ID product := row_of product]> tbl)
       end.

(** [repository.DeleteProduct]: no row affected means no such product.  (The
    driver's [RowsAffected] does not fail.) *)
Definition repo_DeleteProduct (f : Fault) (id : string)
    (tbl : gmap string ProductRow) : option Error * gmap string ProductRow :=
  if decide (f = DbExecFails) then (Some (ErrDb "delete failed"), tbl)
  else match tbl !! id with
       | None => (Some ErrProductNotFound, tbl)
       | Some _ => (None, delete id tbl)
       end.

(** [name == "" || price < 0 || stockQuantity < 0] *)
Definition invalid_product (name : string) (price : float) (stockQuantity : Z) : bool :=
  bool_decide (name = "") || PrimFloat.ltb price 0%float || (stockQuantity <? 0).

(** [service.CreateProduct] *)
Definition CreateProduct (f : Fault) (id : string) (name description : string)
    (price : float) (stockQuantity : Z) (tbl : gmap string ProductRow)
  : result Product Error * gmap string ProductRow :=
  if invalid_product name price stockQuantity then (Err ErrInvalidProductData, tbl)
  else repo_CreateProduct f id
         {| ID := ""; Name := name; Description := description; Price := price;
            StockQuantity := stockQuantity |} tbl.

(** [service.UpdateProduct]: the product is read, its fields are replaced
    and it is written back; [f1] and [f2] are the faults the two statements
    meet. *)
Definition UpdateProduct (f1 f2 : Fault) (id name description : string)
    (price : float) (stockQuantity : Z) (tbl : gmap string ProductRow)
  : result Product Error * gmap string ProductRow :=
  if bool_decide (id = "") || invalid_product name price stockQuantity then
    (Err ErrInvalidProductData, tbl)
  else match repo_GetProductByID f1 id tbl with
       | Err e => (Err e, tbl)
       | Ok existingProduct =>
           repo_UpdateProduct f2
             {| ID := ID existingProduct; Name := name; Description := description;
                Price := price; StockQuantity := stockQuantity |} tbl
       end.

(** [service.DeleteProduct] *)
Definition DeleteProduct (f : Fault) (id : string) (tbl : gmap string ProductRow)
  : option Error * gmap string ProductRow :=
  if decide (id = "") then (Some ErrInvalidProductData, tbl)
  else repo_DeleteProduct f id tbl.

End ProductService.

(** ** The client stubs of the order service *)

Definition unavailable : RpcError :=
  StatusError {| code := Unavailable; message := "connection error" |}.

(** [userServiceClient.GetUser] *)
Definition rpc_GetUser (env : Env) (userID : string) (w : World)
  : result string RpcError * World :=
  let f := next_fault env w in
  let r := if decide (f = Unreachable) then Err unavailable
           else UserService.GetUser f userID (users w) in
  (r, log_call (CallGetUser userID) (is_ok r) w).

(** [productServiceClient.GetProduct] *)
Definition rpc_GetProduct (env : Env) (productID : string) (w : World)
  : result Product RpcError * World :=
  let f := next_fault env w in
  let r := if decide (f = Unreachable) then Err unavailable
           else ProductService.handler_GetProduct f productID (products w) in
  (r, log_call (CallGetProduct productID) (is_ok r) w).

(** [productServiceClient.UpdateStock] *)
Definition rpc_UpdateStock (env : Env) (productID : string) (quantityChange : Z)
    (w : World) : result Product RpcError * World :=
  let f := next_fault env w in
  let '(r, tbl) :=
    if decide (f = Unreachable) then (Err unavailable, products w)
    else ProductService.handler_UpdateStock f productID quantityChange (products w) in
  (r, log_call (CallUpdateStock productID quantityChange) (is_ok r) (set_products tbl w)).

(** ** Order repository *)

Module OrderRepository.

Inductive Error := ErrOrderNotFound | ErrDb (what : string).

(** The items of [order] with the identifiers the insert loop gives them. *)
Definition stamp_items (env : Env) (orderID : string) (first : nat)
    (items : list OrderItem) : list OrderItem :=
  imap (λ i it, {| ItemID := uuid env (first + i); OrderID := orderID;
                   ProductID := ProductID it; Quantity := Quantity it;
                   PriceAtPurchase := PriceAtPurchase it |}) items.

(** The item of [items] whose insert the fault makes fail, if any. *)
Definition failing_item (f : Fault) (items : list OrderItem) : option nat :=
  match f with
  | DbItemInsertFails i => if decide (i < length items)%nat then Some i else None
  | _ => None
  end.

(** The identifiers a call has drawn when it returns: [uuid.New()] is called
    once the transaction has begun, for the order, and then before the
    insert of each item; a call that fails has drawn those of the inserts it
    got to. *)
Definition drawn (f : Fault) (items : list OrderItem) : nat :=
  if decide (f = DbBeginFails ∨ f = Unreachable) then 0%nat
  else if decide (f = DbExecFails) then 1%nat
  else match failing_item f items with
       | Some i => (2 + i)%nat
       | None => (1 + length items)%nat
       end.

(** [repository.CreateOrder]: the order row and its item rows are inserted in
    one transaction; the order comes back with its identifiers set.  What
    is not committed is rolled back, but the identifiers drawn are spent. *)
Definition CreateOrder (env : Env) (order : Order) (w : World)
  : result Order Error * World :=
  let f := next_fault env w in
  let n := uuids w in
  let order' :=
    {| OrderId := uuid env n; UserID := UserID order;
       Items := stamp_items env (uuid env n) (S n) (Items order);
       TotalAmount := TotalAmount order;
       OStatus := match OStatus order with StatusUnset => StatusPending | s => s end |} in
  let r :=
    if decide (f = DbBeginFails ∨ f = Unreachable) then Err (ErrDb "failed to begin transaction")
    else if decide (f = DbExecFails) then Err (ErrDb "insert failed")
    else if decide (is_Some (failing_item f (Items order))) then Err (ErrDb "insert failed")
    else if decide (f = DbCommitFails) then Err (ErrDb "commit failed")
    else Ok order' in
  (r, log_call (CallCreateOrder (UserID order)) (is_ok r)
        {| users := users w; products := products w;
           orders := if is_ok r then order' :: orders w else orders w;
           uuids := n + drawn f (Items order);
           calls := calls w |}).

(** An order as the list query scans it: without its items. *)
Definition list_view (o : Order) : Order :=
  {| OrderId := OrderId o; UserID := UserID o; Items := [];
     TotalAmount := TotalAmount o; OStatus := OStatus o |}.

(** [repository.ListOrdersByUserID]: [orders] holds the newest order first;
    the database refuses a negative LIMIT or OFFSET. *)
Definition ListOrdersByUserID (env : Env) (userID : string) (limit offset : Z)
    (w : World) : result (list Order) Error * World :=
  let f := next_fault env w in
  let r :=
    if decide (f = DbQueryFails ∨ f = Unreachable) then Err (ErrDb "query failed")
    else if (limit <? 0) || (offset <? 0) then Err (ErrDb "must not be negative")
    else Ok (list_view <$>
               take (Z.to_nat limit)
                 (drop (Z.to_nat offset)
                    (filter (λ o, UserID o = userID) (orders w)))) in
  (r, log_call (CallListOrders userID limit offset) (is_ok r) w).

(** [repository.GetOrderByID]: the order row, then its item rows, each put
    under the order's id; [f1] and [f2] are the faults the two queries meet.
    The items are kept with their order, as they were inserted; the query
    sorts them by [created_at], which follows the insertion up to equal
    timestamps. *)
Definition GetOrderByID (f1 f2 : Fault) (id : string) (tbl : list Order)
  : result Order Error :=
  if decide (f1 = DbQueryFails ∨ f1 = Unreachable) then Err (ErrDb "query failed")
  else match list_find (λ o, OrderId o = id) tbl with
       | None => Err ErrOrderNotFound
       | Some (_, o) =>
           if decide (f2 = DbQueryFails ∨ f2 = Unreachable) then
             Err (ErrDb "query failed")
           else
             Ok {| OrderId := OrderId o; UserID := UserID o;
                   Items := (λ it, {| ItemID := ItemID it; OrderID := OrderId o;
                                      ProductID := ProductID it;
                                      Quantity := Quantity it;
                                      PriceAtPurchase := PriceAtPurchase it |})
                              <$> Items o;
                   TotalAmount := TotalAmount o; OStatus := OStatus o |}
       end.

(** The order [o] with another status. *)
Definition with_status (status : OrderStatus) (o : Order) : Order :=
  {| OrderId := OrderId o; UserID := UserID o; Items := Items o;
     TotalAmount := TotalAmount o; OStatus := status |}.

(** [repository.UpdateOrderStatus]: the status of the rows with this id is
    set; the order comes back without its items. *)
Definition UpdateOrderStatus (f : Fault) (orderID : string) (status : OrderStatus)
    (tbl : list Order) : result Order Error * list Order :=
  if decide (f = DbQueryFails ∨ f = Unreachable) then (Err (ErrDb "query failed"), tbl)
  else match list_find (λ o, OrderId o = orderID) tbl with
       | None => (Err ErrOrderNotFound, tbl)
       | Some (_, o) =>
           (Ok {| OrderId := orderID; UserID := UserID o; Items := [];
                  TotalAmount := TotalAmount o; OStatus := status |},
            (λ o', if decide (OrderId o' = orderID) then with_status status o' else o')
              <$> tbl)
       end.

End OrderRepository.

(** ** Order service *)

(** The errors [CreateOrder] returns, by how they are built.  The first
    eight wrap one of the package's sentinel errors. *)
Inductive OrderError :=
  | InvalidOrderData
  | InvalidQuantity (productID : string)
  | UserNotFound (userID : string)
  | UserValidation (cause : RpcError)
  | ProductNotFound (productID : string)
  | ProductFetch (cause : RpcError)
  | InsufficientStockFor (productID : string) (requested available : Z)
  | StockUpdate (productID : string) (cause : RpcError)
  | ProcessAll
  | Repository (e : OrderRepository.Error).

Inductive Sentinel :=
  | ErrInvalidOrderData
  | ErrUserValidationFailed
  | ErrProductFetchFailed
  | ErrProductStockUpdateFailed
  | ErrInsufficientStockForOrder.

(** The sentinel [errors.Is] finds in an error, if any. *)
Definition sentinel (e : OrderError) : option Sentinel :=
  match e with
  | InvalidOrderData | InvalidQuantity _ => Some ErrInvalidOrderData
  | UserNotFound _ | UserValidation _ => Some ErrUserValidationFailed
  | ProductNotFound _ | ProductFetch _ => Some ErrProductFetchFailed
  | InsufficientStockFor _ _ _ => Some ErrInsufficientStockForOrder
  | StockUpdate _ _ => Some ErrProductStockUpdateFailed
  | ProcessAll | Repository _ => None
  end.

(** *** The fan-out *)

(** How a goroutine ended: it returned at once because an error was already
    recorded, it failed with the error it had to report, or it recorded its
    item. *)
Inductive Outcome := Skipped | Failed (e : OrderError) | Succeeded.

(** Where a goroutine stands.  Its steps are the pre-check of [firstError]
    under the lock, the [GetProduct] call, and the recording of what came
    back under the lock. *)
Inductive TaskPC :=
  | AtStart
  | AtFetch
  | AtRecord (r : result Product RpcError)
  | Finished (o : Outcome).

(** The variables the goroutines share under [mu]. *)
Record Shared := {
  totalAmount : float;
  processedItems : list OrderItem;
  firstError : option OrderError;
  productStockUpdates : gmap string Z;
}.

Record FanState := {
  tasks : list (OrderItem * TaskPC);
  shared : Shared;
  world : World;
}.

Definition set_task (i : nat) (t : OrderItem * TaskPC) (fs : FanState) : FanState :=
  {| tasks := <[i := t]> (tasks fs); shared := shared fs; world := world fs |}.

(** [if firstError == nil { firstError = e }] *)
Definition record_error (e : OrderError) (s : Shared) : Shared :=
  match firstError s with
  | Some _ => s
  | None => {| totalAmount := totalAmount s; processedItems := processedItems s;
               firstError := Some e; productStockUpdates := productStockUpdates s |}
  end.

(** The error a goroutine reports when [GetProduct] fails. *)
Definition fetch_error (currentItem : OrderItem) (err : RpcError) : OrderError :=
  if is_NotFound err then ProductNotFound (ProductID currentItem) else ProductFetch err.

(** The item appended to [processedItems]. *)
Definition processed_item (product : Product) (currentItem : OrderItem) : OrderItem :=
  {| ItemID := ""; OrderID := ""; ProductID := ID product;
     Quantity := Quantity currentItem; PriceAtPurchase := Price product |}.

(** [m[k] -= q] on a [map[string]int32]. *)
Definition deduct (k : string) (q : Z) (m : gmap string Z) : gmap string Z :=
  <[k := int32 (default 0 (m !! k) - q)]> m.

(** The last critical section of a goroutine. *)
Definition record_item (product : Product) (currentItem : OrderItem) (s : Shared) : Shared :=
  {| totalAmount :=
       PrimFloat.add (totalAmount s)
         (PrimFloat.mul (Price product) (float64_of_int32 (Quantity currentItem)));
     processedItems := processedItems s ++ [processed_item product currentItem];
     firstError := firstError s;
     productStockUpdates := deduct (ID product) (Quantity currentItem) (productStockUpdates s) |}.

(** One step of goroutine [i]. *)
Definition task_step (env : Env) (i : nat) (fs : FanState) : FanState :=
  match tasks fs !! i with
  | None => fs
  | Some (currentItem, pc) =>
      match pc with
      | AtStart =>
          match firstError (shared fs) with
          | Some _ => set_task i (currentItem, Finished Skipped) fs
          | None => set_task i (currentItem, AtFetch) fs
          end
      | AtFetch =>
          let '(r, w') := rpc_GetProduct env (ProductID currentItem) (world fs) in
          {| tasks := <[i := (currentItem, AtRecord r)]> (tasks fs);
             shared := shared fs; world := w' |}
      | AtRecord (Err err) =>
          let e := fetch_error currentItem err in
          {| tasks := <[i := (currentItem, Finished (Failed e))]> (tasks fs);
             shared := record_error e (shared fs); world := world fs |}
      | AtRecord (Ok product) =>
          if StockQuantity product <? Quantity currentItem then
            let e := InsufficientStockFor (ID product) (Quantity currentItem)
                       (StockQuantity product) in
            {| tasks := <[i := (currentItem, Finished (Failed e))]> (tasks fs);
               shared := record_error e (shared fs); world := world fs |}
          else
            {| tasks := <[i := (currentItem, Finished Succeeded)]> (tasks fs);
               shared := record_item product currentItem (shared fs);
               world := world fs |}
      | Finished _ => fs
      end
  end.

(** What the scheduler decides in one run: the order in which the goroutines
    take their steps, and the order in which [range] visits the keys of
    [productStockUpdates]. *)
Record Schedule := { interleaving : list nat; range_order : list string }.

(** The goroutines take the steps that [steps] names, one after the other.
    Every interleaving of lock-delimited steps is such a list. *)
Definition run (env : Env) (steps : list nat) (fs : FanState) : FanState :=
  foldl (λ fs i, task_step env i fs) fs steps.

(** [wg.Wait()]: every goroutine that has steps left takes them. *)
Definition join (env : Env) (fs : FanState) : FanState :=
  run env (i ← seq 0 (length (tasks fs)); [i; i; i]) fs.

(** The shared variables before the first goroutine runs. *)
Definition no_shared : Shared :=
  {| totalAmount := 0%float; processedItems := []; firstError := None;
     productStockUpdates := ∅ |}.

(** The launch loop: a goroutine per item, until an item with a quantity that
    is not positive makes [CreateOrder] return. *)
Fixpoint launch_loop (requestedItems : list OrderItem) : list OrderItem * option OrderError :=
  match requestedItems with
  | [] => ([], None)
  | item :: rest =>
      if Quantity item <=? 0 then ([], Some (InvalidQuantity (ProductID item)))
      else let '(l, e) := launch_loop rest in (item :: l, e)
  end.

(** The state right after the launch loop. *)
Definition launch (launched : list OrderItem) (w : World) : FanState :=
  {| tasks := (λ it, (it, AtStart)) <$> launched; shared := no_shared; world := w |}.

(** The goroutines launched for [requestedItems], run to their end: first
    as the schedule says, then the join.  When the launch loop returns early,
    the goroutines launched before it did run all the same; nobody waits for
    them, and what they do shows in the call log only. *)
Definition fan_out (env : Env) (sched : Schedule) (requestedItems : list OrderItem)
    (w : World) : FanState :=
  join env (run env (interleaving sched) (launch (launch_loop requestedItems).1 w)).

(** *** The commit phase *)

(** The entries of [m] in the order [range] yields them under [ord]: the keys
    [ord] names first, then the others. *)
Definition range (ord : list string) (m : gmap string Z) : list (string * Z) :=
  omap (λ k, (λ v, (k, v)) <$> m !! k) (remove_dups ord)
  ++ filter (λ kv, kv.1 ∉ ord) (map_to_list m).

(** The loop over [productStockUpdates]: it stops at the first failure. *)
Fixpoint commit_loop (env : Env) (entries : list (string * Z)) (w : World)
  : option OrderError * World :=
  match entries with
  | [] => (None, w)
  | (prodID, qtyChange) :: rest =>
      match rpc_UpdateStock env prodID qtyChange w with
      | (Err err, w') => (Some (StockUpdate prodID err), w')
      | (Ok _, w') => commit_loop env rest w'
      end
  end.

(** *** CreateOrder *)

(** The error returned when [GetUser] fails. *)
Definition user_validation_error (userID : string) (err : RpcError) : OrderError :=
  if is_NotFound err then UserNotFound userID else UserValidation err.

(** [service.CreateOrder].  The world that comes back holds the calls of the
    run in its log. *)
Definition CreateOrder (env : Env) (sched : Schedule) (userID : string)
    (requestedItems : list OrderItem) (w : World) : result Order OrderError * World :=
  if decide (userID = "" ∨ length requestedItems = 0%nat) then (Err InvalidOrderData, w)
  else
    match rpc_GetUser env userID w with
    | (Err err, w1) => (Err (user_validation_error userID err), w1)
    | (Ok _, w1) =>
        let fs := fan_out env sched requestedItems w1 in
        match (launch_loop requestedItems).2 with
        | Some e => (Err e, world fs)
        | None =>
            match firstError (shared fs) with
            | Some e => (Err e, world fs)
            | None =>
                if decide (length (processedItems (shared fs)) ≠ length requestedItems)
                then (Err ProcessAll, world fs)
                else
                  match commit_loop env
                          (range (range_order sched) (productStockUpdates (shared fs)))
                          (world fs) with
                  | (Some e, w2) => (Err e, w2)
                  | (None, w2) =>
                      let order :=
                        {| OrderId := ""; UserID := userID;
                           Items := processedItems (shared fs);
                           TotalAmount := totalAmount (shared fs);
                           OStatus := StatusPending |} in
                      match OrderRepository.CreateOrder env order w2 with
                      | (Err e, w3) => (Err (Repository e), w3)
                      | (Ok createdOrder, w3) => (Ok createdOrder, w3)
                      end
                  end
            end
        end
    end.

(** *** The HTTP handler of CreateOrder *)

(** [CreateOrderHTTPRequest.Bind]: what the handler requires of a decoded
    request before it calls the service. *)
Definition Bind (userID : string) (items : list OrderItem) : option string :=
  if decide (userID = "") then Some "user_id is required"
  else if decide (length items = 0%nat) then
    Some "at least one item is required in the order"
  else
    foldr (λ item rest,
             if decide (ProductID item = "") then
               Some "product_id is required for all items"
             else if Quantity item <=? 0 then
               Some "quantity must be positive for all items"
             else rest)
      None items.

(** [handler.createOrder]: a request that does not bind is answered with 400
    and the service is not called. *)
Definition http_createOrder (env : Env) (sched : Schedule) (userID : string)
    (items : list OrderItem) (w : World) : result Order (string + OrderError) * World :=
  match Bind userID items with
  | Some msg => (Err (inl msg), w)
  | None =>
      match CreateOrder env sched userID items w with
      | (Ok createdOrder, w') => (Ok createdOrder, w')
      | (Err e, w') => (Err (inr e), w')
      end
  end.

(** *** ListUserOrders *)

(** [service.ListUserOrders]; [page] and [pageSize] are Go [int]s. *)
Definition ListUserOrders (env : Env) (userID : string) (page pageSize : Z) (w : World)
  : result (list Order) OrderError * World :=
  if decide (userID = "") then (Err InvalidOrderData, w)
  else
    let page := if page <=? 0 then 1 else page in
    let pageSize := if (pageSize <=? 0) || (100 <? pageSize) then 10 else pageSize in
    let offset := int (int (page - 1) * pageSize) in
    match OrderRepository.ListOrdersByUserID env userID pageSize offset w with
    | (Err e, w') => (Err (Repository e), w')
    | (Ok l, w') => (Ok l, w')
    end.

(** *** GetOrderByID *)

(** [service.GetOrderByID] *)
Definition GetOrderByID (f1 f2 : Fault) (id : string) (tbl : list Order)
  : result Order OrderError :=
  if decide (id = "") then Err InvalidOrderData
  else match OrderRepository.GetOrderByID f1 f2 id tbl with
       | Ok o => Ok o
       | Err e => Err (Repository e)
       end.

(** *** What the handlers answer *)

(** The HTTP status [handler.createOrder] answers with for a request that
    did not bind or for an error of the service. *)
Definition http_error_status (e : string + OrderError) : Z :=
  match e with
  | inl _ => 400
  | inr e =>
      match sentinel e with
      | Some ErrInvalidOrderData | Some ErrUserValidationFailed => 400
      | Some ErrProductFetchFailed | Some ErrInsufficientStockForOrder => 409
      | Some ErrProductStockUpdateFailed => 500
      | None => 500
      end
  end.

(** The status of the answer of [handler.createOrder]. *)
Definition http_createOrder_status (env : Env) (sched : Schedule) (userID : string)
    (items : list OrderItem) (w : World) : Z * World :=
  match http_createOrder env sched userID items w with
  | (Ok _, w') => (201, w')
  | (Err e, w') => (http_error_status e, w')
  end.

(** [handler.getOrder] of the HTTP handler: the status of its answer. *)
Definition http_getOrder_status (f1 f2 : Fault) (orderID : string) (tbl : list Order)
  : Z :=
  if decide (orderID = "") then 400
  else match GetOrderByID f1 f2 orderID tbl with
       | Ok _ => 200
       | Err (Repository OrderRepository.ErrOrderNotFound) => 404
       | Err _ => 500
       end.

(** The status codes the gRPC handler of the order service answers with. *)
Inductive OrderCode :=
  | CodeInvalidArgument | CodeFailedPrecondition | CodeAborted | CodeNotFound
  | CodeInternal.

(** The order items a handler makes of the items of a request, each a
    product id and a quantity. *)
Definition domain_items (reqItems : list (string * Z)) : list OrderItem :=
  (λ item, request_item item.1 item.2) <$> reqItems.

(** [OrderGRPCServer.CreateOrder] *)
Definition grpc_CreateOrder (env : Env) (sched : Schedule) (userID : string)
    (reqItems : list (string * Z)) (w : World) : result Order OrderCode * World :=
  if decide (userID = "") then (Err CodeInvalidArgument, w)
  else if decide (length reqItems = 0%nat) then (Err CodeInvalidArgument, w)
  else if existsb (λ item, bool_decide (item.1 = "") || (item.2 <=? 0)) reqItems
  then (Err CodeInvalidArgument, w)
  else
    match CreateOrder env sched userID (domain_items reqItems) w with
    | (Ok createdOrder, w') => (Ok createdOrder, w')
    | (Err e, w') =>
        (Err match sentinel e with
             | Some ErrInvalidOrderData => CodeInvalidArgument
             | Some ErrUserValidationFailed | Some ErrProductFetchFailed
             | Some ErrInsufficientStockForOrder => CodeFailedPrecondition
             | Some ErrProductStockUpdateFailed => CodeAborted
             | None => CodeInternal
             end, w')
    end.

(** [OrderGRPCServer.ListUserOrders]: the page is always the first, and the
    page size of the request, an [int32], replaces 10 when it is positive. *)
Definition grpc_ListUserOrders (env : Env) (userID : string) (reqPageSize : Z)
    (w : World) : result (list Order) OrderCode * World :=
  if decide (userID = "") then (Err CodeInvalidArgument, w)
  else
    let page := 1 in
    let pageSize := if reqPageSize <=? 0 then 10 else reqPageSize in
    match ListUserOrders env userID page pageSize w with
    | (Ok l, w') => (Ok l, w')
    | (Err _, w') => (Err CodeInternal, w')
    end.

(** * The vocabulary of the properties *)

(** ** Worlds and call logs *)

(** Two worlds that differ in their call log only. *)
Definition same_data (w w' : World) : Prop :=
  users w' = users w ∧ products w' = products w ∧ orders w' = orders w
  ∧ uuids w' = uuids w.

(** The calls issued between two worlds of one run. *)
Definition issued (w w' : World) : list (Call * bool) :=
  drop (length (calls w)) (calls w').

Definition ok_commit (e : string * Z) : Call * bool := (CallUpdateStock e.1 e.2, true).

(** ** The steps of a goroutine *)

(** The cases of [task_step], as a relation between the states before and
    after. *)
Inductive step_spec (env : Env) (i : nat) (fs : FanState) : FanState → Prop :=
  | step_none :
      tasks fs !! i = None → step_spec env i fs fs
  | step_done it o :
      tasks fs !! i = Some (it, Finished o) → step_spec env i fs fs
  | step_skip it e :
      tasks fs !! i = Some (it, AtStart) → firstError (shared fs) = Some e →
      step_spec env i fs (set_task i (it, Finished Skipped) fs)
  | step_pass it :
      tasks fs !! i = Some (it, AtStart) → firstError (shared fs) = None →
      step_spec env i fs (set_task i (it, AtFetch) fs)
  | step_fetch it r w' :
      tasks fs !! i = Some (it, AtFetch) →
      rpc_GetProduct env (ProductID it) (world fs) = (r, w') →
      step_spec env i fs
        {| tasks := <[i := (it, AtRecord r)]> (tasks fs); shared := shared fs;
           world := w' |}
  | step_fetch_failed it err :
      tasks fs !! i = Some (it, AtRecord (Err err)) →
      step_spec env i fs
        {| tasks := <[i := (it, Finished (Failed (fetch_error it err)))]> (tasks fs);
           shared := record_error (fetch_error it err) (shared fs);
           world := world fs |}
  | step_insufficient it product :
      tasks fs !! i = Some (it, AtRecord (Ok product)) →
      StockQuantity product < Quantity it →
      step_spec env i fs
        {| tasks := <[i := (it, Finished (Failed
                      (InsufficientStockFor (ID product) (Quantity it)
                         (StockQuantity product))))]> (tasks fs);
           shared := record_error
                       (InsufficientStockFor (ID product) (Quantity it)
                          (StockQuantity product)) (shared fs);
           world := world fs |}
  | step_record it product :
      tasks fs !! i = Some (it, AtRecord (Ok product)) →
      Quantity it <= StockQuantity product →
      step_spec env i fs
        {| tasks := <[i := (it, Finished Succeeded)]> (tasks fs);
           shared := record_item product it (shared fs);
           world := world fs |}.

Definition finished (t : OrderItem * TaskPC) : Prop := ∃ o, t.2 = Finished o.

(** The steps a task has left. *)
Definition steps_left (pc : TaskPC) : nat :=
  match pc with AtStart => 3 | AtFetch => 2 | AtRecord _ => 1 | Finished _ => 0 end.

(** ** What the fan-out keeps true *)

(** The product a task has asked the catalog for, once it has. *)
Definition fetched (t : OrderItem * TaskPC) : option string :=
  match t.2 with
  | AtRecord _ | Finished (Failed _) | Finished Succeeded => Some (ProductID t.1)
  | AtStart | AtFetch | Finished Skipped => None
  end.

(** The data of [w0] is that of the state, and the calls since [w0] are the
    product fetches of the tasks that got that far. *)
Definition reads_only (w0 : World) (fs : FanState) : Prop :=
  same_data w0 (world fs)
  ∧ ∃ gets, calls (world fs) = calls w0 ++ gets
            ∧ Forall (λ e, is_fetch e = true) gets
            ∧ fetch_calls gets ≡ₚ omap fetched (tasks fs).

(** The sum of price times quantity over [items], added up from the left as
    the goroutines add it up. *)
Definition order_total (items : list OrderItem) : float :=
  foldl (λ acc it,
           PrimFloat.add acc
             (PrimFloat.mul (PriceAtPurchase it) (float64_of_int32 (Quantity it))))
    0%float items.

(** The delta map that deducting [items] one after the other builds. *)
Definition deltas (items : list OrderItem) : gmap string Z :=
  foldl (λ m it, deduct (ProductID it) (Quantity it) m) ∅ items.

Definition accumulated (fs : FanState) : Prop :=
  totalAmount (shared fs) = order_total (processedItems (shared fs))
  ∧ productStockUpdates (shared fs) = deltas (processedItems (shared fs)).

(** Product and quantity of an item. *)
Definition key (it : OrderItem) : string * Z := (ProductID it, Quantity it).

(** The item a task has recorded, once it has. *)
Definition recorded (t : OrderItem * TaskPC) : option (string * Z) :=
  match t.2 with Finished Succeeded => Some (key t.1) | _ => None end.

(** [it] carries the price of its product's row and fits in its stock. *)
Definition priced (tbl : gmap string ProductRow) (it : OrderItem) : Prop :=
  ∃ row, tbl !! ProductID it = Some row ∧ PriceAtPurchase it = row_price row
         ∧ Quantity it <= row_stock row.

(** [e] is what a task for [it] reports against the table [tbl]: a product
    the table lacks, a fetch that failed otherwise, or a stock below the
    quantity asked for. *)
Definition failure_of (tbl : gmap string ProductRow) (it : OrderItem) (e : OrderError)
  : Prop :=
  match e with
  | ProductNotFound p => p = ProductID it ∧ tbl !! p = None
  | ProductFetch err => is_NotFound err = false
  | InsufficientStockFor p q s =>
      p = ProductID it ∧ q = Quantity it ∧ s < q
      ∧ ∃ row, tbl !! p = Some row ∧ row_stock row = s
  | _ => False
  end.

Definition task_ok (tbl : gmap string ProductRow) (t : OrderItem * TaskPC) : Prop :=
  match t.2 with
  | AtRecord (Ok p) =>
      ∃ row, tbl !! ProductID t.1 = Some row ∧ p = scan_product (ProductID t.1) row
  | AtRecord (Err err) => is_NotFound err = true → tbl !! ProductID t.1 = None
  | Finished (Failed e) => failure_of tbl t.1 e
  | _ => True
  end.

Definition from_catalog (w0 : World) (fs : FanState) : Prop :=
  products (world fs) = products w0
  ∧ Forall (task_ok (products w0)) (tasks fs)
  ∧ Forall (priced (products w0)) (processedItems (shared fs))
  ∧ key <$> processedItems (shared fs) ≡ₚ omap recorded (tasks fs).

(** Without a recorded error every finished task has recorded its item; a
    recorded error is the failure of some task. *)
Definition errors_match (fs : FanState) : Prop :=
  match firstError (shared fs) with
  | None => Forall (λ t, ∀ o, t.2 = Finished o → o = Succeeded) (tasks fs)
  | Some e => ∃ i it, tasks fs !! i = Some (it, Finished (Failed e))
  end.

(** The line [it] names a product of the table and asks for no more than
    its stock. *)
Definition line_fits (tbl : gmap string ProductRow) (it : OrderItem) : Prop :=
  ProductID it ≠ "" ∧ 0 < Quantity it
  ∧ ∃ r, tbl !! ProductID it = Some r ∧ Quantity it <= row_stock r.

Definition no_fetch_failure (t : OrderItem * TaskPC) : Prop :=
  match t.2 with
  | AtRecord (Err _) | Finished (Failed (ProductFetch _)) => False
  | _ => True
  end.

(** Without faults no fetch of a listed product fails. *)
Definition fetches_succeed (w0 : World) (launched : list OrderItem) (fs : FanState) : Prop :=
  (tasks fs).*1 = launched ∧ products (world fs) = products w0
  ∧ Forall no_fetch_failure (tasks fs).

(** ** The first failure of a run *)

(** The error goroutine [i] records with its next step, when that step is
    the critical section of a failed read. *)
Definition failing_step (i : nat) (fs : FanState) : option OrderError :=
  match tasks fs !! i with
  | Some (currentItem, AtRecord (Err err)) => Some (fetch_error currentItem err)
  | Some (currentItem, AtRecord (Ok product)) =>
      if StockQuantity product <? Quantity currentItem then
        Some (InsufficientStockFor (ID product) (Quantity currentItem)
                (StockQuantity product))
      else None
  | _ => None
  end.

(** The error of the earliest failing step among [steps], taken one after
    the other from [fs]: what the goroutine that fails first has to
    report. *)
Fixpoint first_failure (env : Env) (steps : list nat) (fs : FanState)
  : option OrderError :=
  match steps with
  | [] => None
  | i :: steps =>
      match failing_step i fs with
      | Some e => Some e
      | None => first_failure env steps (task_step env i fs)
      end
  end.

(** The steps of a fan-out of [n] goroutines, in the order they are taken:
    those of the schedule, then those of the join. *)
Definition fan_out_steps (sched : Schedule) (n : nat) : list nat :=
  interleaving sched ++ (i ← seq 0 n; [i; i; i]).

(** ** The commit phase and the paths of CreateOrder *)

(** The table after a successful adjustment of [p] by [d]. *)
Definition adjust (p : string) (d : Z) (tbl : gmap string ProductRow)
  : gmap string ProductRow :=
  match tbl !! p with
  | Some r => <[p := {| row_name := row_name r; row_description := row_description r;
                        row_price := row_price r;
                        row_stock := int32 (row_stock r + d) |}]> tbl
  | None => tbl
  end.

Definition adjusted (r : ProductRow) (d : Z) : ProductRow :=
  {| row_name := row_name r; row_description := row_description r;
     row_price := row_price r; row_stock := int32 (row_stock r + d) |}.

(** The quantity asked of product [p] by the lines [ks] together. *)
Fixpoint demand (p : string) (ks : list (string * Z)) : Z :=
  match ks with
  | [] => 0
  | kq :: ks => (if decide (kq.1 = p) then kq.2 else 0) + demand p ks
  end.

(** What the product service answers to a commit that would leave a negative
    stock. *)
Definition insufficient_stock : RpcError :=
  StatusError {| code := FailedPrecondition; message := "insufficient stock" |}.

(** The order handed to the repository. *)
Definition new_order (userID : string) (s : Shared) : Order :=
  {| OrderId := ""; UserID := userID; Items := processedItems s;
     TotalAmount := totalAmount s; OStatus := StatusPending |}.

(** The ways [CreateOrder] can go, each with what it returns. *)
Inductive CreateOrder_path (env : Env) (sched : Schedule) (userID : string)
    (requestedItems : list OrderItem) (w : World)
  : result Order OrderError * World → Prop :=
  | path_invalid :
      userID = "" ∨ requestedItems = [] →
      CreateOrder_path env sched userID requestedItems w (Err InvalidOrderData, w)
  | path_user err w1 :
      userID ≠ "" → requestedItems ≠ [] →
      rpc_GetUser env userID w = (Err err, w1) →
      CreateOrder_path env sched userID requestedItems w
        (Err (user_validation_error userID err), w1)
  | path_quantity u w1 e :
      userID ≠ "" → requestedItems ≠ [] →
      rpc_GetUser env userID w = (Ok u, w1) →
      (launch_loop requestedItems).2 = Some e →
      CreateOrder_path env sched userID requestedItems w
        (Err e, world (fan_out env sched requestedItems w1))
  | path_fan_out u w1 e :
      userID ≠ "" → requestedItems ≠ [] →
      rpc_GetUser env userID w = (Ok u, w1) →
      (launch_loop requestedItems).2 = None →
      firstError (shared (fan_out env sched requestedItems w1)) = Some e →
      CreateOrder_path env sched userID requestedItems w
        (Err e, world (fan_out env sched requestedItems w1))
  | path_commit u w1 e w2 :
      userID ≠ "" → requestedItems ≠ [] →
      rpc_GetUser env userID w = (Ok u, w1) →
      (launch_loop requestedItems).2 = None →
      firstError (shared (fan_out env sched requestedItems w1)) = None →
      commit_loop env
        (range (range_order sched)
           (productStockUpdates (shared (fan_out env sched requestedItems w1))))
        (world (fan_out env sched requestedItems w1)) = (Some e, w2) →
      CreateOrder_path env sched userID requestedItems w (Err e, w2)
  | path_store u w1 w2 r w3 :
      userID ≠ "" → requestedItems ≠ [] →
      rpc_GetUser env userID w = (Ok u, w1) →
      (launch_loop requestedItems).2 = None →
      firstError (shared (fan_out env sched requestedItems w1)) = None →
      commit_loop env
        (range (range_order sched)
           (productStockUpdates (shared (fan_out env sched requestedItems w1))))
        (world (fan_out env sched requestedItems w1)) = (None, w2) →
      OrderRepository.CreateOrder env
        (new_order userID (shared (fan_out env sched requestedItems w1))) w2 = (r, w3) →
      CreateOrder_path env sched userID requestedItems w
        (match r with Ok o => Ok o | Err e => Err (Repository e) end, w3).

(** The call gets as far as the commit loop: the input is accepted, the user
    is validated, and the fan-out has recorded no error. *)
Definition reaches_commit (env : Env) (sched : Schedule) (userID : string)
    (requestedItems : list OrderItem) (w : World) : Prop :=
  userID ≠ "" ∧ requestedItems ≠ []
  ∧ is_ok (rpc_GetUser env userID w).1 = true
  ∧ (launch_loop requestedItems).2 = None
  ∧ firstError
      (shared (fan_out env sched requestedItems (rpc_GetUser env userID w).2)) = None.

(** Two items with the same product, quantity and price. *)
Definition same_line (a b : OrderItem) : Prop :=
  ProductID a = ProductID b ∧ Quantity a = Quantity b
  ∧ PriceAtPurchase a = PriceAtPurchase b.

(** ** The tables of the services *)

(** No row of the product table has a negative stock. *)
Definition stocks_nonneg (tbl : gmap string ProductRow) : Prop :=
  map_Forall (λ _ r, 0 <= row_stock r) tbl.

(** The fault makes a query of the order store fail. *)
Definition query_fails (f : Fault) : Prop := f = DbQueryFails ∨ f = Unreachable.

(** The orders of a user, newest first. *)
Definition user_orders (userID : string) (tbl : list Order) : list Order :=
  filter (λ o, UserID o = userID) tbl.

(** The page and the page size [ListUserOrders] works with. *)
Definition normal_page (page : Z) : Z := if page <=? 0 then 1 else page.
Definition normal_size (pageSize : Z) : Z :=
  if (pageSize <=? 0) || (100 <? pageSize) then 10 else pageSize.

(** The update has changed the status of the orders with this id, and
    nothing else. *)
Definition status_set (orderID : string) (status : OrderStatus) (o : Order) : Order :=
  if decide (OrderId o = orderID) then OrderRepository.with_status status o else o.

(** A request to the product service, with the faults its statements meet
    and, for a creation, the identifier it is given. *)
Inductive ProductRequest :=
  | ReqCreate (f : Fault) (id name description : string) (price : float)
      (stockQuantity : Z)
  | ReqUpdate (f1 f2 : Fault) (id name description : string) (price : float)
      (stockQuantity : Z)
  | ReqDelete (f : Fault) (id : string)
  | ReqUpdateStock (f : Fault) (productID : string) (quantityChange : Z).

(** The product table after a request. *)
Definition serve (tbl : gmap string ProductRow) (req : ProductRequest)
  : gmap string ProductRow :=
  match req with
  | ReqCreate f id name description price stockQuantity =>
      (ProductService.CreateProduct f id name description price stockQuantity tbl).2
  | ReqUpdate f1 f2 id name description price stockQuantity =>
      (ProductService.UpdateProduct f1 f2 id name description price stockQuantity tbl).2
  | ReqDelete f id => (ProductService.DeleteProduct f id tbl).2
  | ReqUpdateStock f productID quantityChange =>
      (ProductService.UpdateStock f productID quantityChange tbl).2
  end.

(** Every stored order belongs to a user of the users table, and each of
    its items is under the order's id, asks for a positive quantity, and
    names a product of the catalog. *)
Definition orders_sound (w : World) : Prop :=
  Forall (λ o, UserID o ∈ users w
               ∧ Forall (λ it, OrderID it = OrderId o ∧ 0 < Quantity it
                               ∧ is_Some (products w !! ProductID it)) (Items o))
    (orders w).

(** No two rows of the users table have the same email. *)
Definition emails_unique (tbl : list UserAccounts.User) : Prop :=
  NoDup (UserAccounts.Email <$> tbl).

(** ** The scenarios used as witnesses *)

(** No call meets a fault; identifiers are numbered. *)
Definition quiet : Env :=
  {| fault := λ _, NoFault; uuid := λ n, String.append "id-" (pretty n) |}.

Definition row (price : float) (stock : Z) : ProductRow :=
  {| row_name := "product"; row_description := ""; row_price := price;
     row_stock := stock |}.

(** One user; P1 costs 10 with 5 in stock, P2 costs 5 with 7 in stock. *)
Definition shop : World :=
  {| users := {["u1"]};
     products := <["P1" := row 10 5]> (<["P2" := row 5 7]> ∅);
     orders := []; uuids := 0; calls := [] |}.

(** Each goroutine runs to its end before the next starts. *)
Definition in_turn : Schedule := {| interleaving := []; range_order := [] |}.

(** The goroutines run in turn; [range] visits P1 before P2. *)
Definition p1_first : Schedule :=
  {| interleaving := []; range_order := ["P1"; "P2"] |}.

(** The two goroutines of a two-item order alternate; P2 is committed first. *)
Definition alternating : Schedule :=
  {| interleaving := [1; 0; 1; 0; 0; 1]%nat; range_order := ["P2"] |}.

(** A stand-in for bcrypt in the scenarios: the hash is the password after
    the salt, and the only salt is "s1". *)
Definition toy_hash (salt password : string) : option string :=
  Some (String.append salt (String.append "$" password)).
Definition toy_check (password hash : string) : bool :=
  bool_decide (hash = String.append "s1$" password).

(** The insert of the second item row of the first order fails: the store
    call is the sixth call of a run for a two-line order. *)
Definition second_item_fails : Env :=
  {| fault := λ n, if decide (n = 5%nat) then DbItemInsertFails 1 else NoFault;
     uuid := λ n, String.append "id-" (pretty n) |}.

(** One user; A, B and C cost a tenth, two tenths and three tenths, as
    close as binary64 gets to them, with 9 in stock each. *)
Definition tenths : World :=
  {| users := {["u1"]};
     products := <["A" := row 0x1.999999999999ap-4 9]>
                   (<["B" := row 0x1.999999999999ap-3 9]>
                      (<["C" := row 0x1.3333333333333p-2 9]> ∅));
     orders := []; uuids := 0; calls := [] |}.

(** The third goroutine runs to its end first, then the second, then the
    first. *)
Definition last_first : Schedule :=
  {| interleaving := [2; 2; 2; 1; 1; 1]%nat; range_order := [] |}.

(** * Properties *)

(** ** Machine integers *)

Lemma wrap_id (w x : Z) :
  0 < w → - 2 ^ (w - 1) <= x < 2 ^ (w - 1) → wrap w x = x.
Proof.
  intros Hw Hx. unfold wrap.
  assert (H2 : 2 ^ w = 2 * 2 ^ (w - 1)).
  { replace w with (Z.succ (w - 1)) at 1 by lia. apply Z.pow_succ_r. lia. }
  rewrite Z.mod_small; lia.
Qed.

Lemma wrap_range (w x : Z) :
  0 < w → - 2 ^ (w - 1) <= wrap w x < 2 ^ (w - 1).
Proof.
  intros Hw. unfold wrap.
  assert (H2 : 2 ^ w = 2 * 2 ^ (w - 1)).
  { replace w with (Z.succ (w - 1)) at 1 by lia. apply Z.pow_succ_r. lia. }
  assert (0 < 2 ^ (w - 1)) by (apply Z.pow_pos_nonneg; lia).
  pose proof (Z.mod_pos_bound (x + 2 ^ (w - 1)) (2 ^ w)). lia.
Qed.

Lemma wrap_add_l (w x y : Z) : 0 < w → wrap w (wrap w x + y) = wrap w (x + y).
Proof.
  intros Hw. unfold wrap. f_equal.
  assert (0 < 2 ^ w) by (apply Z.pow_pos_nonneg; lia).
  replace ((x + 2 ^ (w - 1)) `mod` 2 ^ w - 2 ^ (w - 1) + y + 2 ^ (w - 1))
    with ((x + 2 ^ (w - 1)) `mod` 2 ^ w + y) by lia.
  rewrite Zplus_mod_idemp_l. f_equal. lia.
Qed.

Lemma int32_id (x : Z) : in_int32 x → int32 x = x.
Proof. intros Hx. apply wrap_id; [lia | exact Hx]. Qed.

Lemma int32_in_range (x : Z) : in_int32 (int32 x).
Proof. apply (wrap_range 32). lia. Qed.

Lemma int32_sub_l (x y : Z) : int32 (int32 x - y) = int32 (x - y).
Proof. unfold Z.sub. apply wrap_add_l. lia. Qed.

Lemma int_id (x : Z) : in_int x → int x = x.
Proof. intros Hx. apply wrap_id; [lia | exact Hx]. Qed.

(** ** The client stubs *)

Lemma same_data_refl w : same_data w w.
Proof. by repeat split. Qed.

Lemma same_data_trans w1 w2 w3 : same_data w1 w2 → same_data w2 w3 → same_data w1 w3.
Proof. intros (?&?&?&?) (?&?&?&?). repeat split; congruence. Qed.

Lemma rpc_GetUser_world env userID w r w' :
  rpc_GetUser env userID w = (r, w') →
  same_data w w' ∧ calls w' = calls w ++ [(CallGetUser userID, is_ok r)].
Proof. unfold rpc_GetUser. intros [= <- <-]. by repeat split. Qed.

(** An unknown user is reported as not found, a fault of the transport as
    unavailable. *)
Lemma rpc_GetUser_unknown env userID w :
  next_fault env w = NoFault → userID ≠ "" → userID ∉ users w →
  (rpc_GetUser env userID w).1
  = Err (StatusError {| code := NotFound; message := "user not found" |}).
Proof.
  intros Hf Hne Hnin. unfold rpc_GetUser. rewrite Hf. simpl.
  unfold UserService.GetUser, UserService.GetUserByID, UserService.repo_GetUserByID.
  rewrite decide_False by done. simpl. by rewrite decide_False.
Qed.

Lemma rpc_GetUser_unreachable env userID w :
  next_fault env w = Unreachable → (rpc_GetUser env userID w).1 = Err unavailable.
Proof. intros Hf. unfold rpc_GetUser. by rewrite Hf. Qed.

Lemma rpc_GetProduct_world env productID w r w' :
  rpc_GetProduct env productID w = (r, w') →
  same_data w w' ∧ calls w' = calls w ++ [(CallGetProduct productID, is_ok r)].
Proof. unfold rpc_GetProduct. intros [= <- <-]. by repeat split. Qed.

(** A product comes back only as the scan of its row. *)
Lemma rpc_GetProduct_Ok env productID w p w' :
  rpc_GetProduct env productID w = (Ok p, w') →
  ∃ row, products w !! productID = Some row ∧ p = scan_product productID row.
Proof.
  unfold rpc_GetProduct. intros [= Hr _]. revert Hr.
  case_decide; [done |].
  unfold ProductService.handler_GetProduct, ProductService.GetProductByID,
    ProductService.repo_GetProductByID.
  repeat case_decide; try done.
  destruct (products w !! productID) as [row |]; [| done].
  intros [= <-]. by exists row.
Qed.

(** A not-found error comes back only for a product the table lacks. *)
Lemma rpc_GetProduct_NotFound env productID w err w' :
  rpc_GetProduct env productID w = (Err err, w') →
  is_NotFound err = true → products w !! productID = None.
Proof.
  unfold rpc_GetProduct. intros [= Hr _]. revert Hr.
  case_decide; [by intros [= <-] |].
  unfold ProductService.handler_GetProduct, ProductService.GetProductByID,
    ProductService.repo_GetProductByID.
  repeat case_decide; try (by intros [= <-]).
  destruct (products w !! productID) as [row |]; [done |]. done.
Qed.

(** Without a fault, the row of a named product is read. *)
Lemma rpc_GetProduct_quiet env productID w row :
  next_fault env w = NoFault → productID ≠ "" →
  products w !! productID = Some row →
  (rpc_GetProduct env productID w).1 = Ok (scan_product productID row).
Proof.
  intros Hf Hne Hrow. unfold rpc_GetProduct. rewrite Hf. simpl.
  unfold ProductService.handler_GetProduct, ProductService.GetProductByID,
    ProductService.repo_GetProductByID.
  rewrite decide_False by done. rewrite decide_False by done. by rewrite Hrow.
Qed.

(** ** The stock adjustment of the product repository *)

Lemma repo_UpdateStock_failure f productID quantityChange tbl e tbl' :
  ProductService.repo_UpdateStock f productID quantityChange tbl = (Err e, tbl') →
  tbl' = tbl.
Proof.
  unfold ProductService.repo_UpdateStock. intros H.
  repeat (case_decide || case_match); by simplify_eq.
Qed.

Lemma repo_UpdateStock_success f productID quantityChange tbl p tbl' :
  ProductService.repo_UpdateStock f productID quantityChange tbl = (Ok p, tbl') →
  ∃ r, tbl !! productID = Some r
       ∧ 0 <= int32 (row_stock r + quantityChange)
       ∧ StockQuantity p = int32 (row_stock r + quantityChange)
       ∧ tbl' = <[productID :=
                    {| row_name := row_name r; row_description := row_description r;
                       row_price := row_price r;
                       row_stock := int32 (row_stock r + quantityChange) |}]> tbl.
Proof.
  unfold ProductService.repo_UpdateStock. intros H.
  destruct (tbl !! productID) as [r |] eqn:Hr;
    repeat (case_decide || case_match); simplify_eq.
  exists r. split; [done |]. split; [lia | done].
Qed.

(** With the storage working, the adjustment is refused for insufficient
    stock exactly when the 32-bit sum is negative. *)
Lemma repo_UpdateStock_insufficient productID quantityChange tbl r :
  tbl !! productID = Some r →
  (ProductService.repo_UpdateStock NoFault productID quantityChange tbl).1
    = Err ProductService.ErrInsufficientStock
  ↔ int32 (row_stock r + quantityChange) < 0.
Proof.
  intros Hr. unfold ProductService.repo_UpdateStock. rewrite Hr. simpl.
  destruct (_ <? 0) eqn:Hneg.
  - apply Z.ltb_lt in Hneg. done.
  - apply Z.ltb_ge in Hneg. split; [done | lia].
Qed.

(** The same in plain integers, as long as the sum fits in 32 bits. *)
Lemma repo_UpdateStock_insufficient_exact productID quantityChange tbl r :
  tbl !! productID = Some r →
  in_int32 (row_stock r + quantityChange) →
  (ProductService.repo_UpdateStock NoFault productID quantityChange tbl).1
    = Err ProductService.ErrInsufficientStock
  ↔ row_stock r + quantityChange < 0.
Proof.
  intros Hr Hfit. rewrite (repo_UpdateStock_insufficient _ _ _ _ Hr).
  by rewrite int32_id.
Qed.

(** ** Lists updated at one index *)

Section omap_insert.
Context {A B : Type} (g : A → option B).

Lemma omap_insert_same (l : list A) (i : nat) (x y : A) :
  l !! i = Some x → g y = g x → omap g (<[i := y]> l) = omap g l.
Proof.
  intros Hx Hg. rewrite insert_take_drop by (eapply lookup_lt_Some; exact Hx).
  rewrite <- (take_drop_middle l i x Hx) at 3.
  rewrite !omap_app. simpl. by rewrite Hg.
Qed.

Lemma omap_insert_new (l : list A) (i : nat) (x y : A) (z : B) :
  l !! i = Some x → g x = None → g y = Some z →
  omap g (<[i := y]> l) ≡ₚ omap g l ++ [z].
Proof.
  intros Hx Hgx Hgy. rewrite insert_take_drop by (eapply lookup_lt_Some; exact Hx).
  rewrite <- (take_drop_middle l i x Hx) at 3.
  rewrite !omap_app. simpl. rewrite Hgx, Hgy.
  rewrite <- (assoc_L (++)). apply Permutation_app_head.
  change (z :: ?l) with ([z] ++ l). apply Permutation_app_comm.
Qed.

End omap_insert.

Lemma length_omap_le {A B : Type} (g : A → option B) (l : list A) :
  (length (omap g l) <= length l)%nat.
Proof.
  induction l as [| x l IH]; csimpl; [done |].
  destruct (g x); simpl; lia.
Qed.

(** ** The steps of a goroutine *)

Lemma task_step_spec env i fs : step_spec env i fs (task_step env i fs).
Proof.
  unfold task_step.
  destruct (tasks fs !! i) as [[it pc] |] eqn:Hi; [| by apply step_none].
  destruct pc as [| | [product | err] | o].
  - destruct (firstError (shared fs)) as [e |] eqn:He.
    + by eapply step_skip.
    + by apply step_pass.
  - destruct (rpc_GetProduct env (ProductID it) (world fs)) as [r w'] eqn:Hr.
    by apply step_fetch.
  - destruct (StockQuantity product <? Quantity it) eqn:Hlt.
    + apply step_insufficient; [done | by apply Z.ltb_lt].
    + apply step_record; [done | by apply Z.ltb_ge].
  - by apply step_fetch_failed.
  - by eapply step_done.
Qed.

(** A property that every step keeps holds after any run, and so after the
    whole fan-out. *)
Lemma run_invariant (P : FanState → Prop) env :
  (∀ i fs, P fs → P (task_step env i fs)) →
  ∀ steps fs, P fs → P (run env steps fs).
Proof.
  intros Hstep steps. unfold run.
  induction steps as [| i steps IH]; intros fs Hfs; simpl; [done |].
  apply IH, Hstep, Hfs.
Qed.

Lemma fan_out_invariant (P : FanState → Prop) env sched requestedItems w :
  (∀ i fs, P fs → P (task_step env i fs)) →
  P (launch (launch_loop requestedItems).1 w) →
  P (fan_out env sched requestedItems w).
Proof.
  intros Hstep Hinit. unfold fan_out, join.
  by apply run_invariant, run_invariant.
Qed.

(** *** The tasks keep their items *)

Lemma task_step_items env i fs : (tasks (task_step env i fs)).*1 = (tasks fs).*1.
Proof.
  destruct (task_step_spec env i fs); simpl; try done;
    rewrite list_fmap_insert; apply list_insert_id;
    rewrite list_lookup_fmap; by match goal with H : _ !! _ = _ |- _ => rewrite H end.
Qed.

Lemma fan_out_items env sched requestedItems w :
  (tasks (fan_out env sched requestedItems w)).*1 = (launch_loop requestedItems).1.
Proof.
  apply (fan_out_invariant (λ fs, (tasks fs).*1 = (launch_loop requestedItems).1)).
  - intros i fs <-. apply task_step_items.
  - simpl. rewrite <- list_fmap_compose. apply list_fmap_id.
Qed.

(** *** The fan-out only reads *)

Lemma task_step_reads_only env w0 i fs :
  reads_only w0 fs → reads_only w0 (task_step env i fs).
Proof.
  intros Hinv.
  destruct (task_step_spec env i fs) as
    [ | | it e Hi | it Hi | it r w' Hi Hr | it err Hi | it p Hi | it p Hi ];
    try done; destruct Hinv as (Hdata & gets & Hcalls & Hgets & Hperm).
  1, 2, 4, 5, 6:
    (split; [done |]; exists gets; split; [done |]; split; [done |];
     simpl; by erewrite omap_insert_same).
  apply rpc_GetProduct_world in Hr as [Hsame Hlog].
  split; [by eapply same_data_trans |].
  exists (gets ++ [(CallGetProduct (ProductID it), is_ok r)]).
  split; [by simpl; rewrite Hlog, Hcalls, (assoc_L (++)) |].
  split; [apply Forall_app; split; [done | by repeat constructor] |].
  unfold fetch_calls in *. rewrite omap_app. simpl.
  rewrite (omap_insert_new fetched _ _ _ _ (ProductID it) Hi); [| done | done].
  by apply Permutation_app_tail.
Qed.

Lemma fan_out_reads_only env sched requestedItems w :
  reads_only w (fan_out env sched requestedItems w).
Proof.
  apply (fan_out_invariant (reads_only w)).
  - intros i fs. apply task_step_reads_only.
  - split; [apply same_data_refl |]. exists []. simpl.
    rewrite (right_id_L [] (++)). split; [done |]. split; [done |].
    induction (launch_loop requestedItems).1; simpl; [done | done].
Qed.

(** *** The running total and the delta map follow the processed items *)

Lemma record_error_keeps e s :
  totalAmount (record_error e s) = totalAmount s
  ∧ processedItems (record_error e s) = processedItems s
  ∧ productStockUpdates (record_error e s) = productStockUpdates s.
Proof. unfold record_error. by destruct (firstError s). Qed.

Lemma task_step_accumulated env i fs : accumulated fs → accumulated (task_step env i fs).
Proof.
  intros Hinv.
  destruct (task_step_spec env i fs) as
    [ | | it e Hi | it Hi | it r w' Hi Hr | it err Hi | it p Hi | it p Hi ];
    try done; destruct Hinv as [Htot Hupd]; unfold accumulated; simpl.
  - by destruct (record_error_keeps (fetch_error it err) (shared fs)) as (-> & -> & ->).
  - by destruct (record_error_keeps
                   (InsufficientStockFor (ID p) (Quantity it) (StockQuantity p))
                   (shared fs)) as (-> & -> & ->).
  - unfold order_total, deltas. rewrite !foldl_app. simpl.
    fold (order_total (processedItems (shared fs))).
    fold (deltas (processedItems (shared fs))).
    by rewrite Htot, Hupd.
Qed.

Lemma fan_out_accumulated env sched requestedItems w :
  accumulated (fan_out env sched requestedItems w).
Proof.
  apply (fan_out_invariant accumulated).
  - intros i fs. apply task_step_accumulated.
  - done.
Qed.

(** *** What the tasks record comes from the catalog *)

Lemma fetch_error_failure_of tbl it err :
  (is_NotFound err = true → tbl !! ProductID it = None) →
  failure_of tbl it (fetch_error it err).
Proof.
  intros H. unfold fetch_error. destruct (is_NotFound err) eqn:Hnf; simpl; auto.
Qed.

Lemma task_step_from_catalog env w0 i fs :
  from_catalog w0 fs → from_catalog w0 (task_step env i fs).
Proof.
  intros Hinv.
  destruct (task_step_spec env i fs) as
    [ | | it e Hi | it Hi | it r w' Hi Hr | it err Hi | it p Hi Hlt | it p Hi Hle ];
    try done; destruct Hinv as (Hprod & Htasks & Hitems & Hperm);
    pose proof (Forall_lookup_1 _ _ _ _ Htasks Hi) as Hti;
    unfold from_catalog; simpl.
  - split; [done |]. split; [by apply Forall_insert |]. split; [done |].
    by erewrite omap_insert_same.
  - split; [done |]. split; [by apply Forall_insert |]. split; [done |].
    by erewrite omap_insert_same.
  - pose proof (rpc_GetProduct_world _ _ _ _ _ Hr) as [(_ & Hsame & _) _].
    split; [congruence |]. split; [| split; [done | by erewrite omap_insert_same]].
    apply Forall_insert; [done |]. unfold task_ok; simpl.
    destruct r as [p | err].
    + apply rpc_GetProduct_Ok in Hr. by rewrite <- Hprod.
    + intros Hnf. rewrite <- Hprod. by eapply rpc_GetProduct_NotFound.
  - destruct (record_error_keeps (fetch_error it err) (shared fs)) as (_ & -> & _).
    split; [done |]. split; [| split; [done | by erewrite omap_insert_same]].
    apply Forall_insert; [done |]. by apply fetch_error_failure_of.
  - destruct (record_error_keeps
                (InsufficientStockFor (ID p) (Quantity it) (StockQuantity p))
                (shared fs)) as (_ & -> & _).
    split; [done |]. split; [| split; [done | by erewrite omap_insert_same]].
    apply Forall_insert; [done |].
    destruct Hti as (row & Hrow & Hp). simpl in Hrow, Hp. subst p. unfold task_ok. simpl in *.
    repeat split; try done. by exists row.
  - destruct Hti as (row & Hrow & Hp). simpl in Hrow, Hp. subst p. simpl in *.
    split; [done |]. split; [by apply Forall_insert |].
    split.
    + apply Forall_app. split; [done |]. apply Forall_singleton. by exists row.
    + rewrite fmap_app. simpl.
      rewrite (omap_insert_new recorded _ _ _ _ (key it) Hi); [| done | done].
      by apply Permutation_app_tail.
Qed.

Lemma fan_out_from_catalog env sched requestedItems w :
  from_catalog w (fan_out env sched requestedItems w).
Proof.
  apply (fan_out_invariant (from_catalog w)).
  - intros i fs. apply task_step_from_catalog.
  - split; [done |]. split; [by apply Forall_fmap, Forall_true |].
    split; [done |]. simpl.
    induction (launch_loop requestedItems).1; simpl; [done | done].
Qed.

(** *** The error slot *)

Lemma lookup_insert_other {A} (l : list A) (i j : nat) (x y z : A) :
  l !! i = Some x → l !! j = Some z → x ≠ z → <[i := y]> l !! j = Some z.
Proof.
  intros Hi Hj Hne. rewrite list_lookup_insert_ne; [done |]. congruence.
Qed.

(** A recorded error stays: later failures do not replace it. *)
Lemma task_step_firstError env i fs e :
  firstError (shared fs) = Some e → firstError (shared (task_step env i fs)) = Some e.
Proof.
  intros He.
  destruct (task_step_spec env i fs); simpl; try done;
    unfold record_error; by rewrite He.
Qed.

Lemma task_step_errors_match env i fs : errors_match fs → errors_match (task_step env i fs).
Proof.
  intros Hinv.
  destruct (task_step_spec env i fs) as
    [ | | it e Hi He | it Hi He | it r w' Hi Hr | it err Hi | it p Hi Hlt | it p Hi Hle ];
    try done; unfold errors_match in *; simpl.
  - rewrite He in *. destruct Hinv as (j & it' & Hj). exists j, it'.
    by eapply lookup_insert_other.
  - rewrite He in *. apply Forall_insert; [done |]. by intros o [=].
  - destruct (firstError (shared fs)) as [e |].
    + destruct Hinv as (j & it' & Hj). exists j, it'. by eapply lookup_insert_other.
    + apply Forall_insert; [done |]. by intros o [=].
  - unfold record_error. destruct (firstError (shared fs)) as [e |] eqn:He; simpl.
    + rewrite He. destruct Hinv as (j & it' & Hj). exists j, it'.
      by eapply lookup_insert_other.
    + exists i, it. apply list_lookup_insert_eq. by eapply lookup_lt_Some.
  - unfold record_error. destruct (firstError (shared fs)) as [e |] eqn:He; simpl.
    + rewrite He. destruct Hinv as (j & it' & Hj). exists j, it'.
      by eapply lookup_insert_other.
    + exists i, it. apply list_lookup_insert_eq. by eapply lookup_lt_Some.
  - destruct (firstError (shared fs)) as [e |].
    + destruct Hinv as (j & it' & Hj). exists j, it'. by eapply lookup_insert_other.
    + apply Forall_insert; [done |]. by intros o [= <-].
Qed.

Lemma fan_out_errors_match env sched requestedItems w :
  errors_match (fan_out env sched requestedItems w).
Proof.
  apply (fan_out_invariant errors_match).
  - intros i fs. apply task_step_errors_match.
  - unfold errors_match. simpl. apply Forall_fmap, Forall_true. by intros it o [=].
Qed.

(** *** The join waits for every task *)

Lemma run_app env l1 l2 fs : run env (l1 ++ l2) fs = run env l2 (run env l1 fs).
Proof. unfold run. apply foldl_app. Qed.

Lemma task_step_length env i fs :
  length (tasks (task_step env i fs)) = length (tasks fs).
Proof.
  rewrite <- (length_fmap fst (tasks (task_step env i fs))), task_step_items.
  apply length_fmap.
Qed.

Lemma run_length env steps fs : length (tasks (run env steps fs)) = length (tasks fs).
Proof.
  apply (run_invariant (λ fs', length (tasks fs') = length (tasks fs))); [| done].
  intros i fs' <-. apply task_step_length.
Qed.

Lemma task_step_finished env i fs j t :
  tasks fs !! j = Some t → finished t → tasks (task_step env i fs) !! j = Some t.
Proof.
  intros Hj [o Ho]. destruct t as [it pc]. simpl in Ho. subst pc.
  destruct (task_step_spec env i fs); simpl; try done;
    by eapply lookup_insert_other.
Qed.

Lemma run_finished env steps fs j t :
  tasks fs !! j = Some t → finished t → tasks (run env steps fs) !! j = Some t.
Proof.
  intros Hj Hfin.
  apply (run_invariant (λ fs', tasks fs' !! j = Some t)); [| done].
  intros i fs' Hj'. by apply task_step_finished.
Qed.

Lemma task_step_progress env i fs it pc :
  tasks fs !! i = Some (it, pc) →
  ∃ pc', tasks (task_step env i fs) !! i = Some (it, pc')
         ∧ (steps_left pc' < steps_left pc ∨ steps_left pc' = 0)%nat.
Proof.
  intros Hi. pose proof (lookup_lt_Some _ _ _ Hi) as Hlt.
  destruct (task_step_spec env i fs) as
    [ Hn | it' o Hi' | it' e Hi' | it' Hi' | it' r w' Hi' | it' err Hi'
    | it' p Hi' | it' p Hi' ];
    simpl; try congruence;
    rewrite Hi in Hi'; injection Hi' as <- ->;
    try (eexists; split; [by apply list_lookup_insert_eq | simpl; lia]).
  exists (Finished o). split; [done | by right].
Qed.

Lemma three_steps_finish env i fs t :
  tasks fs !! i = Some t →
  ∃ t', tasks (run env [i; i; i] fs) !! i = Some t' ∧ finished t'.
Proof.
  destruct t as [it pc]. intros H0. simpl.
  destruct (task_step_progress env i _ _ _ H0) as (pc1 & H1 & Hp1).
  destruct (task_step_progress env i _ _ _ H1) as (pc2 & H2 & Hp2).
  destruct (task_step_progress env i _ _ _ H2) as (pc3 & H3 & Hp3).
  exists (it, pc3). split; [done |].
  assert (steps_left pc <= 3)%nat by (destruct pc; simpl; lia).
  assert (steps_left pc3 = 0)%nat as Hz by lia.
  destruct pc3; simpl in Hz; try lia. by eexists.
Qed.

Lemma join_prefix_finished env k fs j :
  (k <= length (tasks fs))%nat → (j < k)%nat →
  ∃ t, tasks (run env (i ← seq 0 k; [i; i; i]) fs) !! j = Some t ∧ finished t.
Proof.
  induction k as [| k IH]; intros Hk Hj; [lia |].
  rewrite seq_S, bind_app, run_app. simpl.
  destruct (decide (j = k)) as [-> | Hne].
  - destruct (lookup_lt_is_Some_2 (tasks (run env (i ← seq 0 k; [i; i; i]) fs)) k)
      as [t Ht]; [rewrite run_length; lia |].
    apply (three_steps_finish env k _ t Ht).
  - destruct IH as (t & Ht & Hfin); [lia | lia |].
    exists t. split; [| done].
    by apply (run_finished env [k; k; k]).
Qed.

Lemma join_finished env fs : Forall finished (tasks (join env fs)).
Proof.
  apply Forall_lookup_2. intros j t Hj.
  pose proof (lookup_lt_Some _ _ _ Hj) as Hlt.
  unfold join in *. rewrite run_length in Hlt.
  destruct (join_prefix_finished env (length (tasks fs)) fs j) as (t' & Ht' & Hfin);
    [lia | lia |]. congruence.
Qed.

Lemma fan_out_finished env sched requestedItems w :
  Forall finished (tasks (fan_out env sched requestedItems w)).
Proof. unfold fan_out. apply join_finished. Qed.

(** *** The launch loop *)

Lemma launch_loop_all requestedItems :
  (launch_loop requestedItems).2 = None →
  (launch_loop requestedItems).1 = requestedItems
  ∧ Forall (λ it, 0 < Quantity it) requestedItems.
Proof.
  induction requestedItems as [| it rest IH]; simpl; [done |].
  destruct (Quantity it <=? 0) eqn:Hq; [done |].
  destruct (launch_loop rest) as [l e]. simpl in *. intros He.
  destruct (IH He) as [-> Hall]. split; [done |].
  constructor; [| done]. apply Z.leb_gt in Hq. lia.
Qed.

Lemma launch_loop_positive requestedItems :
  Forall (λ it, 0 < Quantity it) requestedItems →
  launch_loop requestedItems = (requestedItems, None).
Proof.
  induction 1 as [| it rest Hq _ IH]; simpl; [done |].
  rewrite IH. destruct (Quantity it <=? 0) eqn:Hle; [| done].
  apply Z.leb_le in Hle. lia.
Qed.

(** The tasks launched are the items before the first one whose quantity is
    not positive. *)
Lemma launch_loop_prefix requestedItems :
  (launch_loop requestedItems).1 `prefix_of` requestedItems
  ∧ Forall (λ it, 0 < Quantity it) (launch_loop requestedItems).1.
Proof.
  induction requestedItems as [| it rest [IHp IHq]]; simpl; [by split |].
  destruct (Quantity it <=? 0) eqn:Hq; simpl.
  - split; [apply prefix_nil | done].
  - destruct (launch_loop rest) as [l e]. simpl in *. split.
    + by apply prefix_cons.
    + constructor; [| done]. apply Z.leb_gt in Hq. lia.
Qed.

(** *** A fan-out without a recorded error *)

Lemma omap_recorded_all (l : list (OrderItem * TaskPC)) :
  Forall (λ t, t.2 = Finished Succeeded) l → omap recorded l = key <$> l.*1.
Proof.
  induction 1 as [| [it pc] l Ht _ IH]; csimpl; [done |].
  simpl in Ht. subst pc. by rewrite IH.
Qed.

Lemma fan_out_all_succeeded env sched requestedItems w :
  firstError (shared (fan_out env sched requestedItems w)) = None →
  Forall (λ t, t.2 = Finished Succeeded) (tasks (fan_out env sched requestedItems w)).
Proof.
  intros Hnone.
  pose proof (fan_out_errors_match env sched requestedItems w) as Herr.
  pose proof (fan_out_finished env sched requestedItems w) as Hfin.
  unfold errors_match in Herr. rewrite Hnone in Herr.
  apply Forall_lookup_2. intros j t Hj.
  destruct (Forall_lookup_1 _ _ _ _ Hfin Hj) as [o Ho].
  rewrite Ho. f_equal. by apply (Forall_lookup_1 _ _ _ _ Herr Hj).
Qed.

(** Every launched item has been processed, once, priced from the catalog. *)
Lemma fan_out_processed env sched requestedItems w :
  firstError (shared (fan_out env sched requestedItems w)) = None →
  key <$> processedItems (shared (fan_out env sched requestedItems w))
    ≡ₚ key <$> (launch_loop requestedItems).1
  ∧ Forall (priced (products w))
      (processedItems (shared (fan_out env sched requestedItems w))).
Proof.
  intros Hnone.
  destruct (fan_out_from_catalog env sched requestedItems w) as (_ & _ & Hpr & Hperm).
  split; [| done].
  rewrite Hperm, omap_recorded_all by by apply fan_out_all_succeeded.
  by rewrite fan_out_items.
Qed.

Lemma fan_out_processed_length env sched requestedItems w :
  firstError (shared (fan_out env sched requestedItems w)) = None →
  length (processedItems (shared (fan_out env sched requestedItems w)))
  = length (launch_loop requestedItems).1.
Proof.
  intros Hnone. destruct (fan_out_processed _ _ _ _ Hnone) as [Hperm _].
  apply Permutation_length in Hperm. by rewrite !length_fmap in Hperm.
Qed.

(** ** The commit phase *)

(** *** The order of [range] *)

Lemma elem_of_range ord (m : gmap string Z) k v :
  (k, v) ∈ range ord m ↔ m !! k = Some v.
Proof.
  unfold range. rewrite elem_of_app, list_elem_of_omap, list_elem_of_filter.
  setoid_rewrite elem_of_remove_dups. rewrite elem_of_map_to_list. simpl.
  split.
  - intros [(k' & Hk' & Hv) | [_ Hv]]; [| done].
    destruct (m !! k') as [v' |] eqn:Hm; simpl in Hv; [| done]. by simplify_eq.
  - intros Hv. destruct (decide (k ∈ ord)) as [Hin | Hnin].
    + left. exists k. split; [done |]. by rewrite Hv.
    + by right.
Qed.

Lemma range_picked_keys (m : gmap string Z) (l : list string) :
  NoDup l →
  NoDup (omap (λ k, (λ v, (k, v)) <$> m !! k) l).*1
  ∧ ∀ k, k ∈ (omap (λ k, (λ v, (k, v)) <$> m !! k) l).*1 → k ∈ l.
Proof.
  induction 1 as [| k l Hk _ [IHn IHe]]; csimpl.
  - split; [constructor | by intros k Hk].
  - destruct (m !! k) as [v |]; csimpl.
    + split.
      * constructor; [| done]. intros Hin. by apply Hk, IHe.
      * intros k' [-> | Hin]%elem_of_cons; [left | right; by apply IHe].
    + split; [done |]. intros k' Hin. right. by apply IHe.
Qed.

Lemma range_NoDup ord (m : gmap string Z) : NoDup (range ord m).*1.
Proof.
  unfold range. rewrite fmap_app. apply NoDup_app.
  destruct (range_picked_keys m (remove_dups ord) (NoDup_remove_dups ord)) as [Hn He].
  split; [done |]. split.
  - intros k Hk ([k' v] & -> & [Hnin _]%list_elem_of_filter)%list_elem_of_fmap.
    apply He in Hk. rewrite elem_of_remove_dups in Hk. done.
  - apply (sublist_NoDup _ (map_to_list m).*1);
      first [apply NoDup_fst_map_to_list | apply fmap_sublist, sublist_filter].
Qed.

(** *** One stock commit *)

Lemma handler_UpdateStock_table f p d tbl r tbl' :
  ProductService.handler_UpdateStock f p d tbl = (r, tbl') →
  match r with
  | Ok _ => tbl' = adjust p d tbl
            ∧ ∃ row, tbl !! p = Some row ∧ 0 <= int32 (row_stock row + d)
  | Err _ => tbl' = tbl
  end.
Proof.
  unfold ProductService.handler_UpdateStock, ProductService.UpdateStock.
  case_decide as Hp; [by intros [= <- <-] |].
  destruct (ProductService.repo_UpdateStock f p d tbl) as [[q | e] t] eqn:Hrepo.
  - intros [= <- <-].
    apply repo_UpdateStock_success in Hrepo as (row & Hrow & Hpos & _ & ->).
    unfold adjust. rewrite Hrow. split; [done |]. by exists row.
  - apply repo_UpdateStock_failure in Hrepo as ->.
    destruct e; by intros [= <- <-].
Qed.

Lemma rpc_UpdateStock_world env p d w r w' :
  rpc_UpdateStock env p d w = (r, w') →
  users w' = users w ∧ orders w' = orders w ∧ uuids w' = uuids w
  ∧ calls w' = calls w ++ [(CallUpdateStock p d, is_ok r)]
  ∧ match r with
    | Ok _ => products w' = adjust p d (products w)
              ∧ ∃ row, products w !! p = Some row ∧ 0 <= int32 (row_stock row + d)
    | Err _ => products w' = products w
    end.
Proof.
  unfold rpc_UpdateStock. case_decide as Hf.
  - intros [= <- <-]. by repeat split.
  - destruct (ProductService.handler_UpdateStock _ p d (products w)) as [r0 tbl] eqn:Hh.
    intros [= <- <-]. apply handler_UpdateStock_table in Hh.
    repeat split; try done.
Qed.

(** Without a fault, a commit on a named product in the table succeeds
    unless the 32-bit sum of stock and delta is negative, and is then refused
    for insufficient stock. *)
Lemma rpc_UpdateStock_quiet env p d w row :
  next_fault env w = NoFault → p ≠ "" → products w !! p = Some row →
  (rpc_UpdateStock env p d w).1 =
    if int32 (row_stock row + d) <? 0
    then Err (StatusError {| code := FailedPrecondition; message := "insufficient stock" |})
    else Ok (scan_product p
               {| row_name := row_name row; row_description := row_description row;
                  row_price := row_price row; row_stock := int32 (row_stock row + d) |}).
Proof.
  intros Hf Hp Hrow. unfold rpc_UpdateStock. rewrite Hf. simpl.
  unfold ProductService.handler_UpdateStock, ProductService.UpdateStock,
    ProductService.repo_UpdateStock.
  rewrite decide_False by done. simpl. rewrite Hrow.
  by destruct (_ <? 0).
Qed.

Lemma lookup_adjust k d (tbl : gmap string ProductRow) p :
  adjust k d tbl !! p = if decide (k = p) then (λ r, adjusted r d) <$> tbl !! p
                        else tbl !! p.
Proof.
  unfold adjust. case_decide as Hk.
  - subst. destruct (tbl !! p) as [r |] eqn:Hr; simpl; [| done].
    by rewrite lookup_insert_eq.
  - destruct (tbl !! k); [| done]. by rewrite lookup_insert_ne.
Qed.

(** *** The loop *)

(** What the commit loop leaves: the commits it made, all successful but
    possibly the last, which then is the error it returns; the table with
    the successful ones applied, each to a row that was there. *)
Lemma commit_loop_spec env entries w res w' :
  commit_loop env entries w = (res, w') →
  users w' = users w ∧ orders w' = orders w ∧ uuids w' = uuids w
  ∧ ∃ applied,
      products w' = foldl (λ tbl e, adjust e.1 e.2 tbl) (products w) applied
      ∧ Forall (λ e, is_Some (products w !! e.1)) applied
      ∧ match res with
        | None =>
            applied = entries ∧ calls w' = calls w ++ (ok_commit <$> applied)
        | Some e =>
            ∃ p d rest err,
              entries = applied ++ (p, d) :: rest ∧ e = StockUpdate p err
              ∧ calls w' = calls w ++ (ok_commit <$> applied)
                             ++ [(CallUpdateStock p d, false)]
        end.
Proof.
  revert w. induction entries as [| [p d] entries IH]; intros w; simpl.
  - intros [= <- <-]. repeat split; try done. exists []. simpl.
    by rewrite (right_id_L [] (++)).
  - destruct (rpc_UpdateStock env p d w) as [[q | err] w1] eqn:Hrpc;
      apply rpc_UpdateStock_world in Hrpc as (Hu & Ho & Hn & Hc & Hp).
    + intros Hloop.
      apply IH in Hloop as (Hu' & Ho' & Hn' & applied & Hprod & Hrows & Hres).
      destruct Hp as [Hp (row & Hrow & _)].
      repeat split; try congruence.
      exists ((p, d) :: applied). split; [simpl; by rewrite <- Hp |].
      split.
      { constructor; [simpl; by rewrite Hrow |].
        eapply Forall_impl; [exact Hrows |]. intros [k dk]. simpl.
        rewrite Hp, lookup_adjust. case_decide; [| done].
        by intros ?%fmap_is_Some. }
      destruct res as [e |].
      * destruct Hres as (p' & d' & rest & err & -> & -> & Hcalls).
        exists p', d', rest, err. split; [done |]. split; [done |].
        rewrite Hcalls, Hc. simpl. by rewrite <- !(assoc_L (++)).
      * destruct Hres as [-> Hcalls]. split; [done |].
        rewrite Hcalls, Hc. simpl. by rewrite <- !(assoc_L (++)).
    + intros [= <- <-]. repeat split; try done.
      exists []. split; [done |]. split; [done |].
      exists p, d, entries, err. by repeat split.
Qed.

(** ** The paths through CreateOrder *)

Lemma issued_app w w' new : calls w' = calls w ++ new → issued w w' = new.
Proof. intros H. unfold issued. rewrite H. apply drop_app_length. Qed.

(** [CreateOrder] takes one of these paths; the safeguard on the number of
    processed items never fires. *)
Lemma CreateOrder_path_spec env sched userID requestedItems w :
  CreateOrder_path env sched userID requestedItems w
    (CreateOrder env sched userID requestedItems w).
Proof.
  unfold CreateOrder. case_decide as Hin.
  - apply path_invalid. destruct Hin as [? | Hlen]; [by left | right].
    by destruct requestedItems.
  - assert (userID ≠ "" ∧ requestedItems ≠ []) as [Hu Hi].
    { split; intros ->; apply Hin; [by left | by right]. }
    destruct (rpc_GetUser env userID w) as [[u | err] w1] eqn:Huser;
      [| by apply path_user].
    destruct (launch_loop requestedItems).2 as [e |] eqn:Hlaunch;
      [by eapply path_quantity |].
    destruct (firstError (shared (fan_out env sched requestedItems w1))) as [e |] eqn:Herr;
      [by eapply path_fan_out |].
    rewrite decide_False.
    2: { rewrite (fan_out_processed_length _ _ _ _ Herr).
         destruct (launch_loop_all _ Hlaunch) as [-> _]. by intros []. }
    destruct (commit_loop _ _ _) as [[e |] w2] eqn:Hloop; [by eapply path_commit |].
    fold (new_order userID (shared (fan_out env sched requestedItems w1))).
    destruct (OrderRepository.CreateOrder _ _ w2) as [r w3] eqn:Hrepo.
    pose proof (path_store env sched userID requestedItems w u w1 w2 r w3
                  Hu Hi Huser Hlaunch Herr Hloop Hrepo) as Hpath.
    by destruct r.
Qed.

(** *** What each phase issues *)

Lemma fan_out_issued env sched requestedItems w1 :
  ∃ gets, calls (world (fan_out env sched requestedItems w1)) = calls w1 ++ gets
          ∧ Forall (λ e, is_fetch e = true) gets
          ∧ same_data w1 (world (fan_out env sched requestedItems w1))
          ∧ (length (fetch_calls gets) <= length (launch_loop requestedItems).1)%nat.
Proof.
  destruct (fan_out_reads_only env sched requestedItems w1)
    as (Hdata & gets & Hcalls & Hgets & Hperm).
  exists gets. repeat split; try done; try apply Hdata.
  rewrite Hperm. rewrite <- (fan_out_items env sched requestedItems w1), length_fmap.
  apply length_omap_le.
Qed.

Lemma commit_calls_app l1 l2 : commit_calls (l1 ++ l2) = commit_calls l1 ++ commit_calls l2.
Proof. unfold commit_calls. apply omap_app. Qed.

Lemma commit_calls_fetches gets :
  Forall (λ e, is_fetch e = true) gets → commit_calls gets = [].
Proof.
  induction 1 as [| [c b] gets Hc _ IH]; [done |].
  unfold commit_calls in *. csimpl. rewrite IH.
  unfold is_fetch in Hc. simpl in Hc. by destruct c.
Qed.

Lemma commit_calls_ok applied :
  commit_calls (ok_commit <$> applied) = (λ e, (e.1, e.2, true)) <$> applied.
Proof.
  induction applied as [| [p d] applied IH]; [done |].
  unfold commit_calls in *. csimpl. by rewrite IH.
Qed.

Lemma fetch_calls_app l1 l2 : fetch_calls (l1 ++ l2) = fetch_calls l1 ++ fetch_calls l2.
Proof. unfold fetch_calls. apply omap_app. Qed.

(** ** The order repository keeps the lines of an order *)

Lemma imap_same_line (g : nat → OrderItem → OrderItem) (l : list OrderItem) :
  (∀ i it, same_line (g i it) it) → Forall2 same_line (imap g l) l.
Proof.
  revert g. induction l as [| it l IH]; intros g Hg; simpl; constructor; [done |].
  apply IH. intros i it'. apply Hg.
Qed.

Lemma same_line_total (l1 l2 : list OrderItem) :
  Forall2 same_line l1 l2 → order_total l1 = order_total l2.
Proof.
  unfold order_total. generalize 0%float.
  intros acc H. revert acc.
  induction H as [| a b l1 l2 (_ & Hq & Hp) _ IH]; intros acc; simpl; [done |].
  by rewrite Hq, Hp, IH.
Qed.

Lemma same_line_key (l1 l2 : list OrderItem) :
  Forall2 same_line l1 l2 → key <$> l1 = key <$> l2.
Proof.
  induction 1 as [| a b l1 l2 (Hp & Hq & _) _ IH]; csimpl; [done |].
  unfold key at 1 3. by rewrite Hp, Hq, IH.
Qed.

Lemma same_line_priced tbl (l1 l2 : list OrderItem) :
  Forall2 same_line l1 l2 → Forall (priced tbl) l2 → Forall (priced tbl) l1.
Proof.
  induction 1 as [| a b l1 l2 (Hp & Hq & Hpr) _ IH]; [done |].
  intros [Hb Hl]%Forall_cons. constructor; [| by apply IH].
  destruct Hb as (row & Hrow & Hprice & Hstock).
  exists row. by rewrite Hp, Hq, Hpr.
Qed.

Lemma repo_CreateOrder_spec env order w r w' :
  OrderRepository.CreateOrder env order w = (r, w') →
  users w' = users w ∧ products w' = products w
  ∧ calls w' = calls w ++ [(CallCreateOrder (UserID order), is_ok r)]
  ∧ ∀ o, r = Ok o →
         TotalAmount o = TotalAmount order ∧ UserID o = UserID order
         ∧ Forall2 same_line (Items o) (Items order).
Proof.
  unfold OrderRepository.CreateOrder. intros [= <- <-].
  split; [done |]. split; [done |]. split; [done |].
  intros o Ho. repeat case_decide; simplify_eq. simpl.
  split; [done |]. split; [done |].
  apply imap_same_line. by intros i it.
Qed.

(** * The claims *)

(** ** User validation comes first *)

(** C6: when the validator call fails (user not found, or validator
    unreachable or failing), CreateOrder fails with an error that wraps
    ErrUserValidationFailed and carries the cause, the validator call is the
    only call issued, and so no product is fetched. *)
Theorem C6_validation_precedes_fetch env sched userID requestedItems w err w1 :
  userID ≠ "" → requestedItems ≠ [] →
  rpc_GetUser env userID w = (Err err, w1) →
  CreateOrder env sched userID requestedItems w
    = (Err (if is_NotFound err then UserNotFound userID else UserValidation err), w1)
  ∧ sentinel (if is_NotFound err then UserNotFound userID else UserValidation err)
    = Some ErrUserValidationFailed
  ∧ issued w w1 = [(CallGetUser userID, false)]
  ∧ fetch_calls (issued w w1) = [].
Proof.
  intros Hu Hi Huser.
  assert (issued w w1 = [(CallGetUser userID, false)]) as Hissued.
  { apply issued_app. by destruct (rpc_GetUser_world _ _ _ _ _ Huser) as [_ ->]. }
  split; [| split; [by destruct (is_NotFound err) | split; [done | by rewrite Hissued]]].
  unfold CreateOrder. rewrite decide_False.
  - by rewrite Huser.
  - intros [? | Hlen]; [done |]. by destruct requestedItems.
Qed.

Lemma C6_validation_precedes_fetch_witness :
  CreateOrder quiet in_turn "u2" [request_item "P1" 1] shop
    = (Err (UserNotFound "u2"), log_call (CallGetUser "u2") false shop)
  ∧ fetch_calls (issued shop (log_call (CallGetUser "u2") false shop)) = [].
Proof.
  destruct (C6_validation_precedes_fetch quiet in_turn "u2" [request_item "P1" 1] shop
              (StatusError {| code := NotFound; message := "user not found" |})
              (log_call (CallGetUser "u2") false shop))
    as (Hres & _ & _ & Hfetch); [done | done | by vm_compute | ].
  split; [exact Hres | exact Hfetch].
Defined.

(** ** Input checks *)

Lemma launch_loop_rejects requestedItems :
  Exists (λ it, Quantity it <= 0) requestedItems →
  ∃ it, it ∈ requestedItems ∧ Quantity it <= 0
        ∧ (launch_loop requestedItems).2 = Some (InvalidQuantity (ProductID it)).
Proof.
  induction requestedItems as [| it rest IH]; intros Hex; [by inversion Hex |].
  simpl. destruct (Quantity it <=? 0) eqn:Hq.
  - exists it. apply Z.leb_le in Hq. split; [left | done].
  - apply Z.leb_gt in Hq. apply Exists_cons in Hex as [Hbad | Hex]; [lia |].
    destruct (IH Hex) as (it' & Hin & Hle & Hl).
    exists it'. split; [by right |]. split; [done |].
    by destruct (launch_loop rest).
Qed.

(** C5, as stated, fails: with a valid user and one item of quantity 0 the
    validator is called before the quantity is looked at. *)
Lemma C5_counterexample :
  ¬ (∀ env sched userID requestedItems w,
       userID = "" ∨ requestedItems = []
       ∨ Exists (λ it, ProductID it = "" ∨ Quantity it <= 0) requestedItems →
       ∃ e, (CreateOrder env sched userID requestedItems w).1 = Err e
            ∧ sentinel e = Some ErrInvalidOrderData
            ∧ issued w (CreateOrder env sched userID requestedItems w).2 = []).
Proof.
  intros H.
  destruct (H quiet in_turn "u1" [request_item "P1" 0] shop) as (e & _ & _ & Hcalls).
  - right; right. constructor. right. simpl. lia.
  - vm_compute in Hcalls. discriminate Hcalls.
Qed.

(** An empty product identifier is not looked at by CreateOrder: the catalog
    refuses it and the call fails as a failed product fetch. *)
Example CreateOrder_empty_product_id :
  (CreateOrder quiet in_turn "u1" [request_item "" 1] shop).1
  = Err (ProductFetch (StatusError {| code := InvalidArgument;
                                      message := "invalid product data" |})).
Proof. by vm_compute. Qed.

(** The HTTP handler does reject all four violations before any call: the
    items never reach CreateOrder. *)
Lemma http_createOrder_rejects env sched userID items w :
  userID = "" ∨ items = []
  ∨ Exists (λ it, ProductID it = "" ∨ Quantity it <= 0) items →
  ∃ msg, http_createOrder env sched userID items w = (Err (inl msg), w).
Proof.
  intros Hbad. unfold http_createOrder.
  assert (is_Some (Bind userID items)) as [msg ->]; [| by exists msg].
  unfold Bind. case_decide as Hu; [done |]. case_decide as Hl; [done |].
  destruct Hbad as [? | [-> | Hex]]; [done | done |]. clear Hl.
  induction Hex as [it rest [Hp | Hq] | it rest _ IH]; simpl.
  - by rewrite decide_True.
  - case_decide; [done |]. destruct (Quantity it <=? 0) eqn:Hle; [done |].
    apply Z.leb_gt in Hle. lia.
  - case_decide; [done |]. by destruct (Quantity it <=? 0).
Qed.

(** C5, amended: an empty userID or an empty item list fails with
    ErrInvalidOrderData before any call is issued; with a validated user, an
    item whose quantity is not positive fails with an error wrapping
    ErrInvalidOrderData, after the validator call and possibly product
    fetches, and without any stock-commit or store call. *)
Theorem C5_input_checks env sched userID requestedItems w :
  (userID = "" ∨ requestedItems = [] →
   CreateOrder env sched userID requestedItems w = (Err InvalidOrderData, w))
  ∧ (userID ≠ "" → requestedItems ≠ [] →
     is_ok (rpc_GetUser env userID w).1 = true →
     Exists (λ it, Quantity it <= 0) requestedItems →
     (∃ it, it ∈ requestedItems ∧ Quantity it <= 0
            ∧ (CreateOrder env sched userID requestedItems w).1
              = Err (InvalidQuantity (ProductID it)))
     ∧ commit_calls (issued w (CreateOrder env sched userID requestedItems w).2) = []
     ∧ Forall (λ e, is_store e = false)
         (issued w (CreateOrder env sched userID requestedItems w).2)
     ∧ same_data w (CreateOrder env sched userID requestedItems w).2).
Proof.
  split.
  - intros Hin. unfold CreateOrder. rewrite decide_True; [done |].
    destruct Hin as [? | ->]; [by left | by right].
  - intros Hu Hi Hok Hex.
    destruct (launch_loop_rejects _ Hex) as (it & Hin & Hle & Hlaunch).
    destruct (rpc_GetUser env userID w) as [[u | err] w1] eqn:Huser; [| done].
    unfold CreateOrder. rewrite decide_False.
    2: { intros [? | Hlen]; [done |]. by destruct requestedItems. }
    rewrite Huser, Hlaunch. simpl.
    destruct (rpc_GetUser_world _ _ _ _ _ Huser) as [Hdata1 Hcalls1].
    destruct (fan_out_issued env sched requestedItems w1)
      as (gets & Hcalls & Hgets & Hdata & _).
    assert (issued w (world (fan_out env sched requestedItems w1))
            = (CallGetUser userID, true) :: gets) as ->.
    { apply issued_app. rewrite Hcalls, Hcalls1. by rewrite <- (assoc_L (++)). }
    split; [by exists it |]. split; [| split].
    + change (commit_calls ([(CallGetUser userID, true)] ++ gets) = []).
      rewrite commit_calls_app. by rewrite (commit_calls_fetches _ Hgets).
    + constructor; [done |]. eapply Forall_impl; [exact Hgets |].
      intros [c b]. unfold is_fetch, is_store. simpl. by destruct c.
    + by eapply same_data_trans.
Qed.

Lemma C5_input_checks_witness :
  CreateOrder quiet in_turn "" [request_item "P1" 1] shop = (Err InvalidOrderData, shop)
  ∧ commit_calls
      (issued shop
         (CreateOrder quiet in_turn "u1" [request_item "P1" 1; request_item "P2" 0] shop).2)
    = [].
Proof.
  destruct (C5_input_checks quiet in_turn "" [request_item "P1" 1] shop) as [H1 _].
  destruct (C5_input_checks quiet in_turn "u1"
              [request_item "P1" 1; request_item "P2" 0] shop) as [_ H2].
  split.
  - apply H1. by left.
  - apply H2; [done | done | by vm_compute |].
    apply Exists_cons_tl, Exists_cons_hd. simpl. lia.
Defined.

(** ** The read tasks *)

(** C8, as stated, fails: two items for the same product launch two read
    tasks, though they name one product. *)
Lemma C8_counterexample :
  ¬ (∀ env sched requestedItems w,
       Forall (λ it, 0 < Quantity it) requestedItems →
       length (tasks (fan_out env sched requestedItems w))
       = length (remove_dups (ProductID <$> requestedItems))).
Proof.
  intros H.
  specialize (H quiet in_turn [request_item "P1" 1; request_item "P1" 2] shop).
  vm_compute in H. discriminate H.
  repeat constructor.
Qed.

(** Both tasks read the product. *)
Example duplicate_items_are_fetched_twice :
  fetch_calls
    (issued shop
       (CreateOrder quiet in_turn "u1" [request_item "P1" 1; request_item "P1" 2] shop).2)
  = ["P1"; "P1"].
Proof. by vm_compute. Qed.

(** C8, amended: when every requested quantity is positive, the fan-out
    launches one read task per requested item, in the order of the request
    and with duplicates of a product counted each; each task fetches its
    product at most once. *)
Theorem C8_one_task_per_item env sched requestedItems w :
  Forall (λ it, 0 < Quantity it) requestedItems →
  (tasks (fan_out env sched requestedItems w)).*1 = requestedItems
  ∧ length (tasks (fan_out env sched requestedItems w)) = length requestedItems
  ∧ (length (fetch_calls (issued w (world (fan_out env sched requestedItems w))))
     <= length requestedItems)%nat.
Proof.
  intros Hpos. pose proof (launch_loop_positive _ Hpos) as Hlaunch.
  pose proof (fan_out_items env sched requestedItems w) as Hitems.
  rewrite Hlaunch in Hitems. simpl in Hitems.
  split; [done |]. split.
  - by rewrite <- Hitems at 2; rewrite length_fmap.
  - destruct (fan_out_issued env sched requestedItems w) as (gets & Hcalls & _ & _ & Hlen).
    rewrite (issued_app _ _ _ Hcalls). by rewrite Hlaunch in Hlen.
Qed.

Lemma C8_one_task_per_item_witness :
  length (tasks (fan_out quiet alternating
                   [request_item "P1" 1; request_item "P1" 2] shop)) = 2%nat.
Proof.
  apply (C8_one_task_per_item quiet alternating
           [request_item "P1" 1; request_item "P1" 2] shop).
  repeat constructor.
Defined.

(** ** The total of an order *)

(** C1: the order a successful CreateOrder returns has as total the sum,
    over its items, of the price at purchase times the quantity (added up in
    the order of the items), every item carries the price of its product in
    the catalog read during the fan-out, and the items are the requested
    ones. *)
Theorem C1_total_is_sum_of_lines env sched userID requestedItems w o w' :
  CreateOrder env sched userID requestedItems w = (Ok o, w') →
  TotalAmount o = order_total (Items o)
  ∧ Forall (priced (products w)) (Items o)
  ∧ key <$> Items o ≡ₚ key <$> requestedItems.
Proof.
  intros Hres. pose proof (CreateOrder_path_spec env sched userID requestedItems w) as Hpath.
  rewrite Hres in Hpath.
  inversion Hpath as [ | | | | | u w1 w2 r w3 Hu Hi Huser Hlaunch Herr Hloop Hrepo Hr ].
  destruct r as [o' | e]; [| done]. injection Hr as ->. subst w3.
  destruct (repo_CreateOrder_spec _ _ _ _ _ Hrepo) as (_ & _ & _ & Ho).
  destruct (Ho o eq_refl) as (Htot & _ & Hlines). simpl in Htot, Hlines.
  destruct (fan_out_accumulated env sched requestedItems w1) as [Hacc _].
  destruct (fan_out_processed _ _ _ _ Herr) as [Hperm Hpriced].
  destruct (rpc_GetUser_world _ _ _ _ _ Huser) as [(_ & Hprod & _) _].
  destruct (launch_loop_all _ Hlaunch) as [Hall _].
  split; [| split].
  - by rewrite Htot, Hacc, (same_line_total _ _ Hlines).
  - eapply same_line_priced; [exact Hlines |]. by rewrite <- Hprod.
  - rewrite (same_line_key _ _ Hlines), Hperm. by rewrite Hall.
Qed.

Lemma C1_total_is_sum_of_lines_witness :
  ∃ o w', CreateOrder quiet alternating "u1"
            [request_item "P1" 2; request_item "P2" 1] shop = (Ok o, w')
          ∧ TotalAmount o = order_total (Items o)
          ∧ TotalAmount o = 25%float.
Proof.
  eexists _, _. split; [by vm_compute |]. split.
  - eapply (C1_total_is_sum_of_lines quiet alternating "u1"
              [request_item "P1" 2; request_item "P2" 1] shop).
    by vm_compute.
  - by vm_compute.
Defined.

(** ** A failed fan-out *)

(** A task that failed left an error in the slot. *)
Lemma failed_task_records env sched requestedItems w1 i it e :
  tasks (fan_out env sched requestedItems w1) !! i = Some (it, Finished (Failed e)) →
  ∃ e0 j it0,
    firstError (shared (fan_out env sched requestedItems w1)) = Some e0
    ∧ tasks (fan_out env sched requestedItems w1) !! j = Some (it0, Finished (Failed e0))
    ∧ it0 ∈ (launch_loop requestedItems).1
    ∧ failure_of (products w1) it0 e0.
Proof.
  intros Hi.
  pose proof (fan_out_errors_match env sched requestedItems w1) as Herr.
  unfold errors_match in Herr.
  destruct (firstError (shared (fan_out env sched requestedItems w1))) as [e0 |].
  - destruct Herr as (j & it0 & Hj). exists e0, j, it0. split; [done |]. split; [done |].
    split.
    + rewrite <- (fan_out_items env sched requestedItems w1).
      apply list_elem_of_fmap. exists (it0, Finished (Failed e0)).
      split; [done |]. by eapply list_elem_of_lookup_2.
    + destruct (fan_out_from_catalog env sched requestedItems w1) as (_ & Hok & _).
      apply (Forall_lookup_1 _ _ _ _ Hok Hj).
  - by specialize (Forall_lookup_1 _ _ _ _ Herr Hi _ eq_refl).
Qed.

(** A line that names a product the catalog lacks, or asks for more than its
    stock, makes some task fail, whatever the schedule. *)
Lemma unfit_line_fails_a_task env sched requestedItems w1 it :
  Forall (λ it, 0 < Quantity it) requestedItems →
  it ∈ requestedItems →
  (products w1 !! ProductID it = None
   ∨ ∃ r, products w1 !! ProductID it = Some r ∧ row_stock r < Quantity it) →
  ∃ i it0 e0,
    tasks (fan_out env sched requestedItems w1) !! i = Some (it0, Finished (Failed e0))
    ∧ firstError (shared (fan_out env sched requestedItems w1)) = Some e0.
Proof.
  intros Hpos Hin Hunfit.
  pose proof (fan_out_errors_match env sched requestedItems w1) as Hm.
  unfold errors_match in Hm.
  destruct (firstError (shared (fan_out env sched requestedItems w1))) as [e0 |] eqn:Herr.
  { destruct Hm as (i & it0 & Hi). by exists i, it0, e0. }
  exfalso. destruct (fan_out_processed _ _ _ _ Herr) as [Hperm Hpriced].
  rewrite (launch_loop_positive _ Hpos) in Hperm. simpl in Hperm.
  assert (key it ∈ key <$> processedItems (shared (fan_out env sched requestedItems w1)))
    as Hkey by (rewrite Hperm; by apply list_elem_of_fmap_2).
  apply list_elem_of_fmap in Hkey as (it' & Hk & Hin').
  rewrite Forall_forall in Hpriced.
  destruct (Hpriced it' Hin') as (row & Hrow & _ & Hle).
  injection Hk as Hp Hq. rewrite <- Hp, <- Hq in *.
  destruct Hunfit as [Hnone | (r & Hr & Hlt)]; [congruence |].
  rewrite Hrow in Hr. injection Hr as <-. lia.
Qed.

Lemma failure_of_sentinel tbl it e :
  failure_of tbl it e →
  sentinel e = Some ErrProductFetchFailed ∨ sentinel e = Some ErrInsufficientStockForOrder.
Proof. destruct e; simpl; try done; auto. Qed.

(** *** Which error the slot holds *)

(** A step leaves a filled slot as it is, and fills an empty slot exactly
    when it is a failing step. *)
Lemma task_step_first_error env i fs :
  firstError (shared (task_step env i fs))
  = match firstError (shared fs) with
    | Some e => Some e
    | None => failing_step i fs
    end.
Proof.
  unfold task_step, failing_step.
  destruct (tasks fs !! i) as [[it pc] |]; [| by destruct (firstError (shared fs))].
  destruct pc as [| | [product | err] | o]; simpl.
  - destruct (firstError (shared fs)) eqn:Hslot; simpl; by rewrite Hslot.
  - by destruct (firstError (shared fs)).
  - destruct (StockQuantity product <? Quantity it); simpl; unfold record_error;
      destruct (firstError (shared fs)) eqn:Hslot; simpl; by rewrite ?Hslot.
  - unfold record_error.
    destruct (firstError (shared fs)) eqn:Hslot; simpl; by rewrite ?Hslot.
  - by destruct (firstError (shared fs)).
Qed.

Lemma run_first_failure env steps fs :
  firstError (shared (run env steps fs))
  = match firstError (shared fs) with
    | Some e => Some e
    | None => first_failure env steps fs
    end.
Proof.
  revert fs. induction steps as [| i steps IH]; intros fs.
  - simpl. by destruct (firstError (shared fs)).
  - change (run env (i :: steps) fs) with (run env steps (task_step env i fs)).
    rewrite IH, task_step_first_error. simpl.
    destruct (firstError (shared fs)); [done |]. by destruct (failing_step i fs).
Qed.

(** The slot ends up with the error of the step that failed first. *)
Lemma fan_out_first_failure env sched requestedItems w1 :
  firstError (shared (fan_out env sched requestedItems w1))
  = first_failure env (fan_out_steps sched (length (launch_loop requestedItems).1))
      (launch (launch_loop requestedItems).1 w1).
Proof.
  unfold fan_out, join, fan_out_steps. rewrite run_length.
  assert (length (tasks (launch (launch_loop requestedItems).1 w1))
          = length (launch_loop requestedItems).1) as -> by apply length_fmap.
  rewrite <- run_app. by rewrite run_first_failure.
Qed.

(** C2, as stated, fails: the first item names a product the catalog lacks,
    so its read task fails with a failed product fetch; the second item has
    quantity 0, and the call returns the error about that quantity. *)
Lemma C2_counterexample :
  ¬ (∀ env sched userID requestedItems w u w1 i it e,
       userID ≠ "" → requestedItems ≠ [] →
       rpc_GetUser env userID w = (Ok u, w1) →
       tasks (fan_out env sched requestedItems w1) !! i = Some (it, Finished (Failed e)) →
       ∃ e0, firstError (shared (fan_out env sched requestedItems w1)) = Some e0
             ∧ (CreateOrder env sched userID requestedItems w).1 = Err e0).
Proof.
  intros H.
  destruct (H quiet in_turn "u1" [request_item "P9" 1; request_item "P2" 0] shop
              "u1" (log_call (CallGetUser "u1") true shop)
              0%nat (request_item "P9" 1) (ProductNotFound "P9"))
    as (e0 & Hfirst & Hres); try done.
  vm_compute in Hfirst. vm_compute in Hres. congruence.
Qed.

(** C2, amended: in a call in which a fan-out read task fails, no
    stock-commit call is issued and the catalog is left as it was; when, in
    addition, every requested quantity is positive, the call returns the
    error recorded first, that is the error of the goroutine whose failing
    critical section comes first among the steps of the run, whatever the
    goroutines that fail after it report; it is the failure of a task for a
    requested item: a failed product fetch (for a product the catalog lacks,
    or a fetch that failed otherwise) or an insufficient stock (the quantity
    exceeds the stock read). *)
Theorem C2_failed_read_stops_the_order env sched userID requestedItems w u w1 i it e :
  userID ≠ "" → requestedItems ≠ [] →
  rpc_GetUser env userID w = (Ok u, w1) →
  tasks (fan_out env sched requestedItems w1) !! i = Some (it, Finished (Failed e)) →
  commit_calls (issued w (CreateOrder env sched userID requestedItems w).2) = []
  ∧ same_data w (CreateOrder env sched userID requestedItems w).2
  ∧ (Forall (λ it, 0 < Quantity it) requestedItems →
     ∃ e0 it0,
       firstError (shared (fan_out env sched requestedItems w1)) = Some e0
       ∧ first_failure env (fan_out_steps sched (length requestedItems))
           (launch requestedItems w1) = Some e0
       ∧ (CreateOrder env sched userID requestedItems w).1 = Err e0
       ∧ it0 ∈ requestedItems ∧ failure_of (products w) it0 e0
       ∧ (sentinel e0 = Some ErrProductFetchFailed
          ∨ sentinel e0 = Some ErrInsufficientStockForOrder)).
Proof.
  intros Hu Hi Huser Hfailed.
  destruct (failed_task_records _ _ _ _ _ _ _ Hfailed)
    as (e0 & j & it0 & Hfirst & Hj & Hin & Hfail).
  destruct (rpc_GetUser_world _ _ _ _ _ Huser) as [Hdata1 Hcalls1].
  destruct (fan_out_issued env sched requestedItems w1)
    as (gets & Hcalls & Hgets & Hdata & _).
  assert (issued w (world (fan_out env sched requestedItems w1))
          = (CallGetUser userID, true) :: gets) as Hissued.
  { apply issued_app. rewrite Hcalls, Hcalls1. by rewrite <- (assoc_L (++)). }
  assert (∃ e1, CreateOrder env sched userID requestedItems w
                = (Err e1, world (fan_out env sched requestedItems w1))
                ∧ ((launch_loop requestedItems).2 = None → e1 = e0)) as (e1 & Hres & He1).
  { unfold CreateOrder. rewrite decide_False.
    2: { intros [? | Hlen]; [done |]. by destruct requestedItems. }
    rewrite Huser. destruct (launch_loop requestedItems).2 as [e1 |].
    - by exists e1.
    - rewrite Hfirst. by exists e0. }
  rewrite Hres. simpl. split; [| split].
  - rewrite Hissued. change (commit_calls ([(CallGetUser userID, true)] ++ gets) = []).
    rewrite commit_calls_app. by rewrite (commit_calls_fetches _ Hgets).
  - by eapply same_data_trans.
  - intros Hpos. pose proof (launch_loop_positive _ Hpos) as Hlaunch.
    pose proof (fan_out_first_failure env sched requestedItems w1) as Hearliest.
    rewrite Hfirst in Hearliest.
    rewrite Hlaunch in He1, Hin, Hearliest. simpl in He1, Hin, Hearliest.
    rewrite (He1 eq_refl).
    exists e0, it0. split; [done |]. split; [done |]. split; [done |].
    split; [done |].
    destruct Hdata1 as (_ & Hprod & _). rewrite <- Hprod.
    split; [done |]. by eapply failure_of_sentinel.
Qed.

(** Two read tasks fail, for a product the catalog lacks and for a
    quantity above the stock, after both have passed the check of the slot;
    the call returns the error of the one that fails first, here the missing
    product, and not that of the other. *)
Lemma C2_failed_read_stops_the_order_witness :
  commit_calls
    (issued shop
       (CreateOrder quiet alternating "u1"
          [request_item "P9" 1; request_item "P1" 100] shop).2) = []
  ∧ tasks (fan_out quiet alternating [request_item "P9" 1; request_item "P1" 100]
             (log_call (CallGetUser "u1") true shop)) !! 1%nat
    = Some (request_item "P1" 100, Finished (Failed (InsufficientStockFor "P1" 100 5)))
  ∧ (CreateOrder quiet alternating "u1"
       [request_item "P9" 1; request_item "P1" 100] shop).1
    = Err (ProductNotFound "P9").
Proof.
  assert (tasks (fan_out quiet alternating [request_item "P9" 1; request_item "P1" 100]
                   (log_call (CallGetUser "u1") true shop)) !! 1%nat
          = Some (request_item "P1" 100,
                  Finished (Failed (InsufficientStockFor "P1" 100 5)))) as Hlate
    by (by vm_compute).
  destruct (C2_failed_read_stops_the_order quiet alternating "u1"
              [request_item "P9" 1; request_item "P1" 100] shop
              "u1" (log_call (CallGetUser "u1") true shop)
              1%nat (request_item "P1" 100) (InsufficientStockFor "P1" 100 5))
    as (Hcommits & _ & Hfirst); [done | done | by vm_compute | exact Hlate |].
  split; [exact Hcommits |]. split; [exact Hlate |].
  destruct Hfirst as (e0 & it0 & _ & Hearliest & Hres & _);
    [repeat constructor |].
  vm_compute in Hearliest. injection Hearliest as <-. exact Hres.
Defined.

(** The scenario of a request for 100 of a product with 5 in stock. *)
Example insufficient_stock_scenario :
  CreateOrder quiet in_turn "u1" [request_item "P1" 100] shop
  = (Err (InsufficientStockFor "P1" 100 5),
     log_call (CallGetProduct "P1") true (log_call (CallGetUser "u1") true shop)).
Proof. by vm_compute. Qed.

(** ** The delta map *)

Lemma demand_app p ks1 ks2 : demand p (ks1 ++ ks2) = demand p ks1 + demand p ks2.
Proof. induction ks1 as [| kq ks1 IH]; simpl; [done |]. rewrite IH. lia. Qed.

Lemma demand_Permutation p ks1 ks2 : ks1 ≡ₚ ks2 → demand p ks1 = demand p ks2.
Proof. induction 1; simpl; lia. Qed.

Lemma demand_absent p ks : p ∉ ks.*1 → demand p ks = 0.
Proof.
  induction ks as [| [k q] ks IH]; simpl; [done |].
  intros Hnin. rewrite not_elem_of_cons in Hnin. destruct Hnin as [Hne Hnin].
  rewrite decide_False by done. rewrite IH by done. lia.
Qed.

Lemma demand_nonneg p ks : Forall (λ kq, 0 < kq.2) ks → 0 <= demand p ks.
Proof.
  induction 1 as [| [k q] ks Hq _ IH]; simpl in *; [done |].
  case_decide; lia.
Qed.

Lemma demand_present p ks : Forall (λ kq, 0 < kq.2) ks → p ∈ ks.*1 → 0 < demand p ks.
Proof.
  induction 1 as [| [k q] ks Hq Hks IH]; simpl in *; [by intros ?%elem_of_nil |].
  intros [-> | Hin]%elem_of_cons.
  - rewrite decide_True by done. pose proof (demand_nonneg k ks Hks). lia.
  - specialize (IH Hin). case_decide; lia.
Qed.

Lemma key_fst (l : list OrderItem) : (key <$> l).*1 = ProductID <$> l.
Proof. rewrite <- list_fmap_compose. done. Qed.

Lemma lookup_deduct k q (m : gmap string Z) p :
  deduct k q m !! p = if decide (k = p) then Some (int32 (default 0 (m !! p) - q))
                      else m !! p.
Proof.
  unfold deduct. case_decide as Hk.
  - subst. by rewrite lookup_insert_eq.
  - by rewrite lookup_insert_ne.
Qed.

(** The delta of a product is the negated sum of the quantities of its
    lines, in 32 bits; products without a line have no entry. *)
Lemma deltas_lookup (l : list OrderItem) (p : string) :
  deltas l !! p =
    if decide (p ∈ ProductID <$> l) then Some (int32 (- demand p (key <$> l))) else None.
Proof.
  induction l as [| it l IH] using rev_ind.
  - unfold deltas. simpl. by rewrite lookup_empty.
  - unfold deltas in *. rewrite foldl_app. simpl. rewrite lookup_deduct, IH.
    rewrite !fmap_app, demand_app. simpl.
    destruct (decide (ProductID it = p)) as [Heq | Hne];
      destruct (decide (p ∈ ProductID <$> l)) as [Hin | Hin];
      destruct (decide (p ∈ (ProductID <$> l) ++ [ProductID it])) as [Hin' | Hin'];
      simpl; try done.
    + rewrite int32_sub_l. do 2 f_equal. lia.
    + exfalso. apply Hin', elem_of_app. by left.
    + rewrite demand_absent by by rewrite key_fst. do 2 f_equal. lia.
    + exfalso. apply Hin', elem_of_app. right. rewrite Heq. by left.
    + do 3 f_equal. lia.
    + exfalso. apply Hin', elem_of_app. by left.
    + exfalso. apply elem_of_app in Hin' as [? | Hp]; [done |].
      apply list_elem_of_singleton in Hp. done.
Qed.

(** *** Several adjustments *)

Lemma lookup_adjust_other (applied : list (string * Z)) (tbl : gmap string ProductRow) p :
  p ∉ applied.*1 → foldl (λ tbl e, adjust e.1 e.2 tbl) tbl applied !! p = tbl !! p.
Proof.
  revert tbl. induction applied as [| [k d] applied IH]; intros tbl Hnin; simpl; [done |].
  simpl in Hnin. rewrite not_elem_of_cons in Hnin. destruct Hnin as [Hne Hnin].
  rewrite IH by done. rewrite lookup_adjust. by rewrite decide_False.
Qed.

(** The row of a product committed once holds its old stock plus the delta. *)
Lemma lookup_adjust_applied (applied : list (string * Z)) (tbl : gmap string ProductRow)
    p d r :
  NoDup applied.*1 → (p, d) ∈ applied → tbl !! p = Some r →
  foldl (λ tbl e, adjust e.1 e.2 tbl) tbl applied !! p = Some (adjusted r d).
Proof.
  revert tbl. induction applied as [| [k d'] applied IH]; intros tbl Hnd Hin Hr; simpl.
  - by apply elem_of_nil in Hin.
  - simpl in Hnd. apply NoDup_cons in Hnd as [Hk Hnd].
    apply elem_of_cons in Hin as [[= <- <-] | Hin].
    + rewrite lookup_adjust_other by done. rewrite lookup_adjust, decide_True by done.
      by rewrite Hr.
    + apply IH; [done | done |]. rewrite lookup_adjust, decide_False; [done |].
      intros ->. apply Hk. apply list_elem_of_fmap. by exists (p, d).
Qed.

(** ** The commit phase of CreateOrder *)

(** The entries the loop ranges over: one per requested product, with the
    negated sum of its quantities, in 32 bits. *)
Lemma commit_entries env sched requestedItems w1 ord p d :
  (launch_loop requestedItems).2 = None →
  firstError (shared (fan_out env sched requestedItems w1)) = None →
  (p, d) ∈ range ord (productStockUpdates (shared (fan_out env sched requestedItems w1)))
  ↔ p ∈ ProductID <$> requestedItems
    ∧ d = int32 (- demand p (key <$> requestedItems)).
Proof.
  intros Hlaunch Herr.
  destruct (fan_out_accumulated env sched requestedItems w1) as [_ ->].
  destruct (fan_out_processed _ _ _ _ Herr) as [Hperm _].
  destruct (launch_loop_all _ Hlaunch) as [Hall _]. rewrite Hall in Hperm.
  rewrite elem_of_range, deltas_lookup.
  rewrite (demand_Permutation _ _ _ Hperm).
  assert (p ∈ ProductID <$> processedItems (shared (fan_out env sched requestedItems w1))
          ↔ p ∈ ProductID <$> requestedItems) as Hin.
  { rewrite <- !key_fst. by rewrite Hperm. }
  case_decide as Hp.
  - split; [intros [= <-]; by split; [apply Hin |] | by intros [_ ->]].
  - split; [done | intros [Hp' _]; by apply Hin in Hp'].
Qed.

Lemma issued_refl w : issued w w = [].
Proof. unfold issued. apply drop_all. Qed.

(** The calls of a run: either no stock commit is among them, or the call
    reached the commit loop, and they are the validator call, the product
    fetches, the commits that succeeded and, last, either the commit that
    failed or the store call. *)
Lemma CreateOrder_trace env sched userID requestedItems w :
  (commit_calls (issued w (CreateOrder env sched userID requestedItems w).2) = []
   ∧ (∀ p err, (CreateOrder env sched userID requestedItems w).1 ≠ Err (StockUpdate p err))
   ∧ ¬ reaches_commit env sched userID requestedItems w)
  ∨ (reaches_commit env sched userID requestedItems w
     ∧ ∃ gets applied tail,
         issued w (CreateOrder env sched userID requestedItems w).2
         = (CallGetUser userID, true) :: gets ++ (ok_commit <$> applied) ++ tail
         ∧ Forall (λ e, is_fetch e = true) gets
         ∧ products (CreateOrder env sched userID requestedItems w).2
           = foldl (λ tbl e, adjust e.1 e.2 tbl) (products w) applied
         ∧ Forall (λ e, is_Some (products w !! e.1)) applied
         ∧ NoDup applied.*1
         ∧ (∀ p d, (p, d) ∈ applied →
                   p ∈ ProductID <$> requestedItems
                   ∧ d = int32 (- demand p (key <$> requestedItems)))
         ∧ ((∃ p d err,
               tail = [(CallUpdateStock p d, false)]
               ∧ (CreateOrder env sched userID requestedItems w).1 = Err (StockUpdate p err)
               ∧ (p ∉ applied.*1) ∧ p ∈ ProductID <$> requestedItems
               ∧ d = int32 (- demand p (key <$> requestedItems)))
            ∨ (∃ ok,
                 tail = [(CallCreateOrder userID, ok)]
                 ∧ (∀ p, p ∈ ProductID <$> requestedItems → p ∈ applied.*1)
                 ∧ ∀ p err, (CreateOrder env sched userID requestedItems w).1
                            ≠ Err (StockUpdate p err)))).
Proof.
  destruct (CreateOrder_path_spec env sched userID requestedItems w)
    as [ Hin | err w1 Hu Hi Huser | u w1 e Hu Hi Huser Hlaunch
       | u w1 e Hu Hi Huser Hlaunch Herr
       | u w1 e w2 Hu Hi Huser Hlaunch Herr Hloop
       | u w1 w2 r w3 Hu Hi Huser Hlaunch Herr Hloop Hrepo ]; simpl.
  - left. rewrite issued_refl. split; [done |]. split; [done |].
    intros (? & ? & _). by destruct Hin.
  - left. destruct (rpc_GetUser_world _ _ _ _ _ Huser) as [_ Hcalls].
    rewrite (issued_app _ _ _ Hcalls). split; [done |]. split.
    + intros p err'. unfold user_validation_error. by destruct (is_NotFound err).
    + intros (_ & _ & Hok & _). by rewrite Huser in Hok.
  - left. destruct (rpc_GetUser_world _ _ _ _ _ Huser) as [_ Hcalls1].
    destruct (fan_out_issued env sched requestedItems w1) as (gets & Hcalls & Hgets & _).
    rewrite (issued_app _ _ ((CallGetUser userID, true) :: gets)).
    2: { rewrite Hcalls, Hcalls1. by rewrite <- (assoc_L (++)). }
    split; [| split].
    + change (commit_calls ([(CallGetUser userID, true)] ++ gets) = []).
      rewrite commit_calls_app. by rewrite (commit_calls_fetches _ Hgets).
    + intros p err [= ->]. clear -Hlaunch.
      induction requestedItems as [| it rest IH]; simpl in Hlaunch; [done |].
      destruct (Quantity it <=? 0); [done |].
      destruct (launch_loop rest). simpl in *. by apply IH.
    + intros (_ & _ & _ & Hl & _). by rewrite Hlaunch in Hl.
  - left. destruct (rpc_GetUser_world _ _ _ _ _ Huser) as [_ Hcalls1].
    destruct (fan_out_issued env sched requestedItems w1) as (gets & Hcalls & Hgets & _).
    rewrite (issued_app _ _ ((CallGetUser userID, true) :: gets)).
    2: { rewrite Hcalls, Hcalls1. by rewrite <- (assoc_L (++)). }
    split; [| split].
    + change (commit_calls ([(CallGetUser userID, true)] ++ gets) = []).
      rewrite commit_calls_app. by rewrite (commit_calls_fetches _ Hgets).
    + intros p err [= ->].
      pose proof (fan_out_errors_match env sched requestedItems w1) as Hm.
      unfold errors_match in Hm. rewrite Herr in Hm. destruct Hm as (j & it & Hj).
      destruct (fan_out_from_catalog env sched requestedItems w1) as (_ & Hok & _).
      apply (Forall_lookup_1 _ _ _ _ Hok Hj).
    + intros (_ & _ & _ & _ & Hf). rewrite Huser in Hf. simpl in Hf. congruence.
  - right. split; [by unfold reaches_commit; rewrite Huser |].
    destruct (rpc_GetUser_world _ _ _ _ _ Huser) as [(_ & Hprod1 & _) Hcalls1].
    destruct (fan_out_issued env sched requestedItems w1)
      as (gets & Hcalls & Hgets & (_ & Hprod & _) & _).
    pose proof (range_NoDup (range_order sched)
                  (productStockUpdates (shared (fan_out env sched requestedItems w1))))
      as Hnd.
    apply commit_loop_spec in Hloop
      as (_ & _ & _ & applied & Hproducts & Hrows & p & d & rest & err
          & Hentries & -> & Hcalls2).
    rewrite Hentries in Hnd. rewrite fmap_app in Hnd.
    apply NoDup_app in Hnd as (Hnd1 & Hdisj & Hnd2).
    exists gets, applied, [(CallUpdateStock p d, false)].
    split; [| split; [done | split; [| split; [| split; [done | split]]]]].
    + apply issued_app. rewrite Hcalls2, Hcalls, Hcalls1.
      by rewrite <- !(assoc_L (++)).
    + by rewrite Hproducts, Hprod, Hprod1.
    + by rewrite <- Hprod1, <- Hprod.
    + intros p' d' Hin. apply (commit_entries env sched requestedItems w1
                                 (range_order sched)); [done | done |].
      rewrite Hentries. apply elem_of_app. by left.
    + left. exists p, d, err. split; [done |]. split; [done |].
      assert ((p, d) ∈ range (range_order sched)
                (productStockUpdates (shared (fan_out env sched requestedItems w1))))
        as Hin by (rewrite Hentries; apply elem_of_app; right; by left).
      apply commit_entries in Hin as [Hp Hd]; [| done | done].
      split; [| done]. intros Hin. apply (Hdisj p Hin). simpl. by left.
  - right. split; [by unfold reaches_commit; rewrite Huser |].
    destruct (rpc_GetUser_world _ _ _ _ _ Huser) as [(_ & Hprod1 & _) Hcalls1].
    destruct (fan_out_issued env sched requestedItems w1)
      as (gets & Hcalls & Hgets & (_ & Hprod & _) & _).
    pose proof (range_NoDup (range_order sched)
                  (productStockUpdates (shared (fan_out env sched requestedItems w1))))
      as Hnd.
    apply commit_loop_spec in Hloop
      as (_ & _ & _ & applied & Hproducts & Hrows & Happlied & Hcalls2).
    apply repo_CreateOrder_spec in Hrepo as (_ & Hprod3 & Hcalls3 & _).
    subst applied.
    eexists gets, _, [(CallCreateOrder userID, is_ok r)].
    split; [| split; [done | split; [| split; [| split; [exact Hnd | split]]]]].
    + apply issued_app. rewrite Hcalls3, Hcalls2, Hcalls, Hcalls1. simpl.
      by rewrite <- !(assoc_L (++)).
    + by rewrite Hprod3, Hproducts, Hprod, Hprod1.
    + by rewrite <- Hprod1, <- Hprod.
    + intros p' d' Hin. by apply (commit_entries env sched requestedItems w1
                                    (range_order sched)).
    + right. exists (is_ok r). split; [done |]. split; [| by destruct r].
      intros p Hp. apply list_elem_of_fmap.
      exists (p, int32 (- demand p (key <$> requestedItems))). split; [done |].
      by apply commit_entries.
Qed.

Lemma commit_calls_trace userID gets applied tail :
  Forall (λ e, is_fetch e = true) gets →
  commit_calls ((CallGetUser userID, true) :: gets ++ (ok_commit <$> applied) ++ tail)
  = ((λ e, (e.1, e.2, true)) <$> applied) ++ commit_calls tail.
Proof.
  intros Hgets.
  change ((CallGetUser userID, true) :: gets ++ (ok_commit <$> applied) ++ tail)
    with ([(CallGetUser userID, true)] ++ gets ++ (ok_commit <$> applied) ++ tail).
  rewrite !commit_calls_app, (commit_calls_fetches _ Hgets), commit_calls_ok. done.
Qed.

Lemma reaches_commit_positive env sched userID requestedItems w :
  reaches_commit env sched userID requestedItems w →
  Forall (λ kq, 0 < kq.2) (key <$> requestedItems).
Proof.
  intros (_ & _ & _ & Hlaunch & _). destruct (launch_loop_all _ Hlaunch) as [_ Hpos].
  apply Forall_fmap. eapply Forall_impl; [exact Hpos | done].
Qed.

(** ** One commit per product *)

(** C3, as stated, fails: the order asks twice for 3 of P1, which has 5 in
    stock, and once for P2; the commit of P1 is visited first and refused,
    and P2 receives no commit call. *)
Lemma C3_counterexample :
  ¬ (∀ env sched userID requestedItems w,
       reaches_commit env sched userID requestedItems w →
       ∀ p, p ∈ ProductID <$> requestedItems →
            ∃ ok, filter (λ c, c.1.1 = p)
                    (commit_calls
                       (issued w (CreateOrder env sched userID requestedItems w).2))
                  = [(p, - demand p (key <$> requestedItems), ok)]).
Proof.
  intros H.
  destruct (H quiet p1_first "u1"
              [request_item "P1" 3; request_item "P1" 3; request_item "P2" 1] shop)
    with (p := "P2") as [ok Hok].
  - repeat split; try done; by vm_compute.
  - apply elem_of_cons; right. apply elem_of_cons; right. apply elem_of_cons; by left.
  - vm_compute in Hok. discriminate Hok.
Qed.

(** In that run the refused commit of P1 is the only commit call. *)
Example skipped_commit_scenario :
  commit_calls
    (issued shop
       (CreateOrder quiet p1_first "u1"
          [request_item "P1" 3; request_item "P1" 3; request_item "P2" 1] shop).2)
  = [("P1", -6, false)].
Proof. by vm_compute. Qed.

(** C3, amended: in a call that reaches the commit phase and in which no
    product is asked for more than 2^31 in total, no product receives two
    stock-commit calls, every stock-commit call is for a requested product
    and carries the negated sum of the quantities requested of it, and, when
    no commit fails, every requested product receives its commit call. *)
Theorem C3_one_commit_per_product env sched userID requestedItems w :
  reaches_commit env sched userID requestedItems w →
  (∀ p, demand p (key <$> requestedItems) <= 2 ^ 31) →
  let commits :=
    commit_calls (issued w (CreateOrder env sched userID requestedItems w).2) in
  NoDup commits.*1.*1
  ∧ (∀ p d ok, (p, d, ok) ∈ commits →
               p ∈ ProductID <$> requestedItems
               ∧ d = - demand p (key <$> requestedItems))
  ∧ ((∀ p err, (CreateOrder env sched userID requestedItems w).1
               ≠ Err (StockUpdate p err)) →
     ∀ p, p ∈ ProductID <$> requestedItems →
          (p, - demand p (key <$> requestedItems), true) ∈ commits).
Proof.
  intros Hreach Hfit commits.
  pose proof (reaches_commit_positive _ _ _ _ _ Hreach) as Hpos.
  assert (∀ p, int32 (- demand p (key <$> requestedItems))
               = - demand p (key <$> requestedItems)) as Hexact.
  { intros p. apply int32_id. pose proof (demand_nonneg p _ Hpos).
    specialize (Hfit p). unfold in_int32. lia. }
  destruct (CreateOrder_trace env sched userID requestedItems w)
    as [(_ & _ & Hnot) | (_ & gets & applied & tail & Hissued & Hgets & _ & _
                           & Hnd & Happlied & Htail)]; [done |].
  subst commits. rewrite Hissued, (commit_calls_trace _ _ _ _ Hgets).
  destruct Htail as [(p0 & d0 & err & -> & Hres & Hp0 & Hin0 & Hd0)
                    | (ok & -> & Hall & Hres)].
  - change (commit_calls [(CallUpdateStock p0 d0, false)]) with [(p0, d0, false)].
    split; [| split].
    + rewrite !fmap_app, <- !list_fmap_compose. simpl.
      apply NoDup_app. split; [exact Hnd |]. split; [| apply NoDup_singleton].
      intros p Hp ->%list_elem_of_singleton. done.
    + intros p d ok [Hin | Hin]%elem_of_app.
      * apply list_elem_of_fmap in Hin as ([p' d'] & [= -> -> ->] & Hin).
        rewrite <- Hexact. by apply Happlied.
      * apply list_elem_of_singleton in Hin as [= -> -> ->]. by rewrite <- Hexact.
    + intros Hno. by specialize (Hno p0 err).
  - change (commit_calls [(CallCreateOrder userID, ok)]) with (@nil (string * Z * bool)).
    rewrite (right_id_L [] (++)).
    split; [| split].
    + by rewrite <- !list_fmap_compose.
    + intros p d ok' Hin.
      apply list_elem_of_fmap in Hin as ([p' d'] & [= -> -> ->] & Hin).
      rewrite <- Hexact. by apply Happlied.
    + intros _ p Hp. apply Hall in Hp.
      apply list_elem_of_fmap in Hp as ([p' d'] & -> & Hin).
      apply list_elem_of_fmap. exists (p', d'). split; [| done].
      simpl. destruct (Happlied _ _ Hin) as [_ ->]. by rewrite Hexact.
Qed.

Lemma C3_one_commit_per_product_witness :
  ("P1", -5, true)
  ∈ commit_calls
      (issued shop
         (CreateOrder quiet alternating "u1"
            [request_item "P1" 2; request_item "P2" 1; request_item "P1" 3] shop).2).
Proof.
  pose proof (C3_one_commit_per_product quiet alternating "u1"
                [request_item "P1" 2; request_item "P2" 1; request_item "P1" 3] shop)
    as H.
  destruct H as (_ & _ & H).
  - repeat split; try done; by vm_compute.
  - intros p. simpl. repeat case_decide; lia.
  - apply (H ltac:(by vm_compute) "P1"). by left.
Defined.

(** The scenario of two products in stock: total 25, status pending, and
    the two commits of -2 and -1. *)
Example two_products_scenario :
  ∃ o w', CreateOrder quiet in_turn "u1" [request_item "P1" 2; request_item "P2" 1] shop
          = (Ok o, w')
          ∧ TotalAmount o = 25%float ∧ OStatus o = StatusPending
          ∧ commit_calls (issued shop w') = [("P1", -2, true); ("P2", -1, true)].
Proof. eexists _, _. split; [by vm_compute |]. by vm_compute. Qed.

(** ** Fail-fast commits *)

(** C4: when a stock-commit call fails, CreateOrder returns an error
    wrapping ErrProductStockUpdateFailed for that product; the failed call
    is the last call of the run, so no commit, no compensating adjustment
    and no store call follows it; the commits before it all succeeded, and
    they stay applied: the row of each holds its old stock plus the delta
    (in 32 bits). *)
Theorem C4_commits_fail_fast env sched userID requestedItems w p d :
  (p, d, false)
    ∈ commit_calls (issued w (CreateOrder env sched userID requestedItems w).2) →
  ∃ err applied gets,
    (CreateOrder env sched userID requestedItems w).1 = Err (StockUpdate p err)
    ∧ sentinel (StockUpdate p err) = Some ErrProductStockUpdateFailed
    ∧ issued w (CreateOrder env sched userID requestedItems w).2
      = (CallGetUser userID, true) :: gets ++ (ok_commit <$> applied)
          ++ [(CallUpdateStock p d, false)]
    ∧ Forall (λ e, is_fetch e = true) gets
    ∧ products (CreateOrder env sched userID requestedItems w).2
      = foldl (λ tbl e, adjust e.1 e.2 tbl) (products w) applied
    ∧ ∀ p' d', (p', d') ∈ applied →
               ∃ r, products w !! p' = Some r
                    ∧ products (CreateOrder env sched userID requestedItems w).2 !! p'
                      = Some (adjusted r d').
Proof.
  intros Hfailed.
  destruct (CreateOrder_trace env sched userID requestedItems w)
    as [(Hnone & _) | (_ & gets & applied & tail & Hissued & Hgets & Hprod & Hrows
                        & Hnd & _ & Htail)].
  { rewrite Hnone in Hfailed. by apply elem_of_nil in Hfailed. }
  rewrite Hissued, (commit_calls_trace _ _ _ _ Hgets) in Hfailed.
  apply elem_of_app in Hfailed as [Hin | Hin].
  { by apply list_elem_of_fmap in Hin as ([p' d'] & [=] & _). }
  destruct Htail as [(p0 & d0 & err & -> & Hres & _) | (ok & -> & _)].
  2: { by apply elem_of_nil in Hin. }
  apply list_elem_of_singleton in Hin as [= -> ->].
  exists err, applied, gets. repeat split; try done.
  intros p' d' Hin.
  rewrite Forall_forall in Hrows.
  destruct (Hrows (p', d') Hin) as [r Hr]. simpl in Hr.
  exists r. split; [done |]. rewrite Hprod. by apply lookup_adjust_applied.
Qed.

Lemma C4_commits_fail_fast_witness :
  ∃ err,
    (CreateOrder quiet alternating "u1"
       [request_item "P1" 3; request_item "P2" 1; request_item "P1" 3] shop).1
    = Err (StockUpdate "P1" err).
Proof.
  destruct (C4_commits_fail_fast quiet alternating "u1"
              [request_item "P1" 3; request_item "P2" 1; request_item "P1" 3] shop
              "P1" (-6))
    as (err & _ & _ & Hres & _).
  - vm_compute. apply elem_of_cons; right. apply elem_of_cons; by left.
  - by exists err.
Defined.

(** In that run the commit of P2 came first and stays applied. *)
Example partial_commit_scenario :
  let res := CreateOrder quiet alternating "u1"
               [request_item "P1" 3; request_item "P2" 1; request_item "P1" 3] shop in
  commit_calls (issued shop res.2) = [("P2", -1, true); ("P1", -6, false)]
  ∧ products res.2 !! "P2" = Some (row 5 6)
  ∧ products res.2 !! "P1" = Some (row 10 5).
Proof. by vm_compute. Qed.

(** ** Lines that fit one by one *)

Lemma task_step_fetches_succeed env w0 launched i fs :
  (∀ n, fault env n = NoFault) →
  Forall (line_fits (products w0)) launched →
  fetches_succeed w0 launched fs → fetches_succeed w0 launched (task_step env i fs).
Proof.
  intros Hquiet Hfit (Hitems & Hprod & Hok).
  split; [by rewrite task_step_items |].
  destruct (task_step_spec env i fs) as
    [ | | it e Hi | it Hi | it r w' Hi Hr | it err Hi | it p Hi Hlt | it p Hi Hle ];
    try done; simpl.
  - split; [done |]. by apply Forall_insert.
  - split; [done |]. by apply Forall_insert.
  - destruct (rpc_GetProduct_world _ _ _ _ _ Hr) as [(_ & Hsame & _) _].
    split; [congruence |]. apply Forall_insert; [done |].
    assert (it ∈ launched) as Hin.
    { rewrite <- Hitems. apply list_elem_of_fmap. exists (it, AtFetch).
      split; [done |]. by eapply list_elem_of_lookup_2. }
    rewrite Forall_forall in Hfit.
    destruct (Hfit it Hin) as (Hne & _ & row & Hrow & _).
    rewrite <- Hprod in Hrow.
    pose proof (rpc_GetProduct_quiet env _ _ row (Hquiet _) Hne Hrow) as Hq.
    rewrite Hr in Hq. simpl in Hq. by subst r.
  - by specialize (Forall_lookup_1 _ _ _ _ Hok Hi).
  - split; [done |]. by apply Forall_insert.
  - split; [done |]. by apply Forall_insert.
Qed.

(** Without faults, lines that each fit pass the read phase, whatever the
    schedule. *)
Lemma quiet_fan_out env sched requestedItems w1 :
  (∀ n, fault env n = NoFault) →
  Forall (line_fits (products w1)) requestedItems →
  firstError (shared (fan_out env sched requestedItems w1)) = None.
Proof.
  intros Hquiet Hfit.
  assert (Forall (line_fits (products w1)) (launch_loop requestedItems).1) as Hfit'.
  { rewrite launch_loop_positive; [done |].
    eapply Forall_impl; [exact Hfit |]. by intros it (_ & ? & _). }
  assert (fetches_succeed w1 (launch_loop requestedItems).1
            (fan_out env sched requestedItems w1)) as (_ & _ & Hok).
  { apply (fan_out_invariant (fetches_succeed w1 (launch_loop requestedItems).1)).
    - intros i fs. by apply task_step_fetches_succeed.
    - split; [| split; [done |]].
      + simpl. rewrite <- list_fmap_compose. apply list_fmap_id.
      + simpl. by apply Forall_fmap, Forall_true. }
  destruct (firstError (shared (fan_out env sched requestedItems w1))) as [e |] eqn:Herr;
    [| done].
  exfalso.
  pose proof (fan_out_errors_match env sched requestedItems w1) as Hm.
  unfold errors_match in Hm. rewrite Herr in Hm. destruct Hm as (j & it & Hj).
  destruct (fan_out_from_catalog env sched requestedItems w1) as (_ & Hcat & _).
  pose proof (Forall_lookup_1 _ _ _ _ Hcat Hj) as Hfail.
  pose proof (Forall_lookup_1 _ _ _ _ Hok Hj) as Hnf.
  assert (it ∈ (launch_loop requestedItems).1) as Hin.
  { rewrite <- (fan_out_items env sched requestedItems w1).
    apply list_elem_of_fmap. exists (it, Finished (Failed e)).
    split; [done |]. by eapply list_elem_of_lookup_2. }
  rewrite Forall_forall in Hfit'.
  destruct (Hfit' it Hin) as (_ & _ & row & Hrow & Hle).
  unfold task_ok, no_fetch_failure in *. simpl in *.
  destruct e; simpl in *; try done.
  - destruct Hfail as [-> Hnone]. congruence.
  - destruct Hfail as (-> & -> & Hlt & row' & Hrow' & <-).
    rewrite Hrow in Hrow'. injection Hrow' as <-. lia.
Qed.

(** Without faults, a loop of commits on listed products, one of which
    would leave a negative stock, is refused for insufficient stock. *)
Lemma commit_loop_quiet env entries w :
  (∀ n, fault env n = NoFault) →
  NoDup entries.*1 →
  Forall (λ e, e.1 ≠ "" ∧ is_Some (products w !! e.1)) entries →
  Exists (λ e, ∃ r, products w !! e.1 = Some r ∧ int32 (row_stock r + e.2) < 0) entries →
  ∃ p, (commit_loop env entries w).1 = Some (StockUpdate p insufficient_stock).
Proof.
  intros Hquiet. revert w.
  induction entries as [| [p d] entries IH]; intros w Hnd Hlisted Hshort.
  { by inversion Hshort. }
  simpl in Hnd. apply NoDup_cons in Hnd as [Hp Hnd].
  apply Forall_cons in Hlisted as [[Hne [r Hr]] Hlisted]. simpl in Hne, Hr.
  pose proof (rpc_UpdateStock_quiet env p d w r (Hquiet _) Hne Hr) as Hq.
  simpl. destruct (rpc_UpdateStock env p d w) as [res w1] eqn:Hrpc. simpl in Hq.
  destruct (int32 (row_stock r + d) <? 0) eqn:Hneg; subst res.
  { by exists p. }
  apply Z.ltb_ge in Hneg.
  apply rpc_UpdateStock_world in Hrpc as (_ & _ & _ & _ & Hprod & _).
  assert (∀ k, k ∈ entries.*1 → products w1 !! k = products w !! k) as Hsame.
  { intros k Hk. rewrite Hprod, lookup_adjust, decide_False; [done |].
    by intros ->. }
  apply (IH w1); [done | |].
  - rewrite Forall_forall in Hlisted. apply Forall_forall. intros [k dk] Hin.
    destruct (Hlisted _ Hin) as [Hk Hsome]. split; [done |]. simpl in *.
    rewrite Hsame; [done |]. apply list_elem_of_fmap. by exists (k, dk).
  - apply Exists_cons in Hshort as [(r' & Hr' & Hlt) | Hshort].
    { simpl in *. rewrite Hr in Hr'. injection Hr' as <-. lia. }
    apply Exists_exists in Hshort as ([k dk] & Hin & r' & Hr' & Hlt).
    apply Exists_exists. exists (k, dk). split; [done |]. exists r'.
    split; [| done]. simpl in *. rewrite Hsame; [done |].
    apply list_elem_of_fmap. by exists (k, dk).
Qed.

Lemma rpc_GetUser_quiet env userID w :
  next_fault env w = NoFault → userID ≠ "" → userID ∈ users w →
  (rpc_GetUser env userID w).1 = Ok userID.
Proof.
  intros Hf Hne Hin. unfold rpc_GetUser. rewrite Hf. simpl.
  unfold UserService.GetUser, UserService.GetUserByID, UserService.repo_GetUserByID.
  rewrite decide_False by done. simpl. by rewrite decide_True.
Qed.

(** ** Duplicates pass the read phase *)

(** C9: the stock check of the fan-out looks at each line alone.  When no
    call meets a fault and every line names a product of the catalog and
    asks for no more than its stock, the read phase records no error,
    whatever the schedule, and the call reaches the commit phase; when the
    lines of some product together ask for more than its stock, the commit
    phase is refused by the stock adjustment for insufficient stock and
    CreateOrder returns an error wrapping ErrProductStockUpdateFailed. *)
Theorem C9_line_check_misses_the_sum env sched userID requestedItems w p r :
  (∀ n, fault env n = NoFault) →
  userID ≠ "" → userID ∈ users w → requestedItems ≠ [] →
  Forall (line_fits (products w)) requestedItems →
  products w !! p = Some r → 0 <= row_stock r →
  row_stock r < demand p (key <$> requestedItems) <= 2 ^ 31 →
  reaches_commit env sched userID requestedItems w
  ∧ ∃ p', (CreateOrder env sched userID requestedItems w).1
          = Err (StockUpdate p' insufficient_stock)
          ∧ sentinel (StockUpdate p' insufficient_stock)
            = Some ErrProductStockUpdateFailed.
Proof.
  intros Hquiet Hu Hin Hi Hfit Hr Hstock [Hshort Hbound].
  destruct (rpc_GetUser env userID w) as [ru w1] eqn:Huser.
  pose proof (rpc_GetUser_quiet env userID w (Hquiet _) Hu Hin) as Hok.
  rewrite Huser in Hok. simpl in Hok. subst ru.
  destruct (rpc_GetUser_world _ _ _ _ _ Huser) as [(_ & Hprod1 & _) _].
  assert (Forall (λ it, 0 < Quantity it) requestedItems) as Hpos.
  { eapply Forall_impl; [exact Hfit |]. by intros it (_ & ? & _). }
  pose proof (launch_loop_positive _ Hpos) as Hlaunch.
  assert (firstError (shared (fan_out env sched requestedItems w1)) = None) as Herr.
  { apply quiet_fan_out; [done |]. by rewrite Hprod1. }
  assert (reaches_commit env sched userID requestedItems w) as Hreach.
  { unfold reaches_commit. rewrite Huser, Hlaunch. by repeat split. }
  split; [done |].
  destruct (fan_out_issued env sched requestedItems w1) as (_ & _ & _ & (_ & Hprod & _) & _).
  set (entries := range (range_order sched)
                    (productStockUpdates (shared (fan_out env sched requestedItems w1)))).
  assert (∀ k dk, (k, dk) ∈ entries ↔
                  k ∈ ProductID <$> requestedItems
                  ∧ dk = int32 (- demand k (key <$> requestedItems))) as Hentries.
  { intros k dk. apply commit_entries; [by rewrite Hlaunch | done]. }
  destruct (commit_loop_quiet env entries (world (fan_out env sched requestedItems w1)))
    as [p' Hloop]; [done | apply range_NoDup | | |].
  - apply Forall_forall. intros [k dk] [Hk _]%Hentries. simpl.
    apply list_elem_of_fmap in Hk as (it & -> & Hit).
    rewrite Forall_forall in Hfit. destruct (Hfit it Hit) as (Hne & _ & row & Hrow & _).
    split; [done |]. rewrite Hprod, Hprod1. by rewrite Hrow.
  - apply Exists_exists. exists (p, int32 (- demand p (key <$> requestedItems))).
    split.
    + apply Hentries. split; [| done].
      destruct (decide (p ∈ ProductID <$> requestedItems)) as [| Hnin]; [done |].
      rewrite demand_absent in Hshort by by rewrite key_fst. lia.
    + exists r. simpl. rewrite Hprod, Hprod1. split; [done |].
      rewrite (int32_id (- _)) by (unfold in_int32; lia).
      rewrite int32_id by (unfold in_int32; lia). lia.
  - exists p'. split; [| done].
    unfold CreateOrder. rewrite decide_False.
    2: { intros [? | Hlen]; [done |]. by destruct requestedItems. }
    rewrite Huser, Hlaunch. simpl. rewrite Herr. rewrite decide_False.
    2: { rewrite (fan_out_processed_length _ _ _ _ Herr), Hlaunch. by intros []. }
    fold entries. destruct (commit_loop env entries _) as [[e |] w2]; simpl in Hloop.
    + by injection Hloop as ->.
    + done.
Qed.

Lemma C9_line_check_misses_the_sum_witness :
  reaches_commit quiet alternating "u1"
    [request_item "P1" 3; request_item "P1" 3] shop
  ∧ ∃ p', (CreateOrder quiet alternating "u1"
             [request_item "P1" 3; request_item "P1" 3] shop).1
          = Err (StockUpdate p' insufficient_stock).
Proof.
  destruct (C9_line_check_misses_the_sum quiet alternating "u1"
              [request_item "P1" 3; request_item "P1" 3] shop "P1" (row 10 5))
    as (Hreach & p' & Hres & _).
  - done.
  - done.
  - by vm_compute.
  - done.
  - repeat constructor; try done; exists (row 10 5); by split.
  - by vm_compute.
  - by vm_compute.
  - split; by vm_compute.
  - split; [exact Hreach |]. by exists p'.
Defined.

(** The same order, run: both lines are read and pass, and the one commit
    of -6 against a stock of 5 is refused. *)
Example duplicate_lines_scenario :
  CreateOrder quiet in_turn "u1" [request_item "P1" 3; request_item "P1" 3] shop
  = (Err (StockUpdate "P1" insufficient_stock),
     {| users := users shop; products := products shop; orders := []; uuids := 0;
        calls := [(CallGetUser "u1", true); (CallGetProduct "P1", true);
                  (CallGetProduct "P1", true); (CallUpdateStock "P1" (-6), false)] |}).
Proof. by vm_compute. Qed.

(** ** The stock adjustment *)

(** A stock that is not negative and a delta of 32 bits: when the adjustment
    succeeds, the new stock is the plain sum. *)
Lemma repo_UpdateStock_success_exact f productID quantityChange tbl r p tbl' :
  tbl !! productID = Some r → 0 <= row_stock r < 2 ^ 31 → in_int32 quantityChange →
  ProductService.repo_UpdateStock f productID quantityChange tbl = (Ok p, tbl') →
  StockQuantity p = row_stock r + quantityChange
  ∧ tbl' !! productID = Some (adjusted r quantityChange)
  ∧ row_stock (adjusted r quantityChange) = row_stock r + quantityChange.
Proof.
  intros Hr Hstock Hd Hok.
  apply repo_UpdateStock_success in Hok as (r' & Hr' & Hpos & Hp & ->).
  rewrite Hr in Hr'. injection Hr' as <-.
  assert (int32 (row_stock r + quantityChange) = row_stock r + quantityChange) as Hexact.
  { unfold int32, wrap in *. unfold in_int32 in Hd.
    destruct (Z_lt_le_dec (row_stock r + quantityChange) (2 ^ 31)) as [Hlt | Hge].
    - rewrite Z.mod_small; lia.
    - exfalso.
      replace (row_stock r + quantityChange + 2 ^ (32 - 1))
        with (row_stock r + quantityChange - 2 ^ 31 + 1 * 2 ^ 32) in Hpos by lia.
      rewrite Z_mod_plus_full in Hpos. rewrite Z.mod_small in Hpos; lia. }
  rewrite Hp, lookup_insert_eq. unfold adjusted. simpl. by rewrite Hexact.
Qed.

(** C7: the adjustment computes the new stock in 32 bits.  At the largest
    stock a row holds, an adjustment by +1 wraps to a negative number and is
    refused for insufficient stock, although stock plus delta is positive;
    the table is left as it was. *)
Theorem C7_overflow_refused_as_insufficient :
  ProductService.repo_UpdateStock NoFault "P1" 1 (<["P1" := row 10 2147483647]> ∅)
  = (Err ProductService.ErrInsufficientStock, <["P1" := row 10 2147483647]> ∅)
  ∧ 0 <= 2147483647 + 1.
Proof. split; [by vm_compute | lia]. Qed.

(** ** Pagination *)

(** The store is asked for the normalized page size, between 1 and 100, and
    for the offset that Go computes in 64 bits. *)
Lemma ListUserOrders_query env userID page pageSize w :
  userID ≠ "" →
  ∃ ok limit,
    limit = (if (pageSize <=? 0) || (100 <? pageSize) then 10 else pageSize)
    ∧ 1 <= limit <= 100
    ∧ issued w (ListUserOrders env userID page pageSize w).2
      = [(CallListOrders userID limit
            (int (int ((if page <=? 0 then 1 else page) - 1) * limit)), ok)].
Proof.
  intros Hu. unfold ListUserOrders. rewrite decide_False by done.
  set (limit := if (pageSize <=? 0) || (100 <? pageSize) then 10 else pageSize).
  set (offset := int (int ((if page <=? 0 then 1 else page) - 1) * limit)).
  destruct (OrderRepository.ListOrdersByUserID env userID limit offset w) as [r w'] eqn:Hq.
  exists (is_ok r), limit. split; [done |]. split.
  - subst limit. destruct (pageSize <=? 0) eqn:H0; simpl; [lia |].
    destruct (100 <? pageSize) eqn:H1; [lia |].
    apply Z.leb_gt in H0. apply Z.ltb_ge in H1. lia.
  - unfold OrderRepository.ListOrdersByUserID in Hq. injection Hq as <- <-.
    destruct (if decide _ then _ else _); simpl; by apply issued_app.
Qed.

(** As long as the product fits in 64 bits, the offset is the plain product
    and is not negative. *)
Lemma ListUserOrders_offset page limit :
  1 <= limit <= 100 → page < 2 ^ 56 →
  int (int ((if page <=? 0 then 1 else page) - 1) * limit)
  = ((if page <=? 0 then 1 else page) - 1) * limit
  ∧ 0 <= ((if page <=? 0 then 1 else page) - 1) * limit.
Proof.
  intros Hlimit Hpage.
  assert (0 <= (if page <=? 0 then 1 else page) - 1 < 2 ^ 56) as Hp.
  { destruct (page <=? 0) eqn:H0; [lia |]. apply Z.leb_gt in H0. lia. }
  split; [| nia].
  rewrite (int_id (_ - 1)) by (unfold in_int; lia).
  apply int_id. unfold in_int. nia.
Qed.

(** C10: the offset is computed in Go's 64-bit [int] and can wrap.  For the
    largest page number and a page size of 10 the store is asked for the
    offset -20, which the database refuses. *)
Theorem C10_offset_wraps_negative :
  ListUserOrders quiet "u1" 9223372036854775807 10 shop
  = (Err (Repository (OrderRepository.ErrDb "must not be negative")),
     log_call (CallListOrders "u1" 10 (-20)) false shop)
  ∧ in_int 9223372036854775807.
Proof. split; [by vm_compute | unfold in_int; lia]. Qed.

(** * Further properties of the services *)

(** ** The errors of CreateOrder, by phase *)

Lemma sentinel_user_validation userID err :
  sentinel (user_validation_error userID err) = Some ErrUserValidationFailed.
Proof. unfold user_validation_error. by destruct (is_NotFound err). Qed.

Lemma launch_loop_error requestedItems e :
  (launch_loop requestedItems).2 = Some e → sentinel e = Some ErrInvalidOrderData.
Proof.
  induction requestedItems as [| it rest IH]; simpl; [done |].
  destruct (Quantity it <=? 0); [by intros [= <-] |].
  destruct (launch_loop rest). simpl in *. apply IH.
Qed.

Lemma launch_loop_length requestedItems :
  (length (launch_loop requestedItems).1 <= length requestedItems)%nat.
Proof.
  induction requestedItems as [| it rest IH]; simpl; [done |].
  destruct (Quantity it <=? 0); simpl; [lia |].
  destruct (launch_loop rest). simpl in *. lia.
Qed.

Lemma fetch_calls_length gets :
  Forall (λ e, is_fetch e = true) gets → length (fetch_calls gets) = length gets.
Proof.
  induction 1 as [| [c b] gets Hc _ IH]; [done |].
  unfold fetch_calls in *. unfold is_fetch in Hc. simpl in Hc.
  destruct c; try done. csimpl. by rewrite IH.
Qed.

(** The error the fan-out records is the failure of a task it launched. *)
Lemma fan_out_error env sched requestedItems w1 e :
  firstError (shared (fan_out env sched requestedItems w1)) = Some e →
  ∃ it, it ∈ (launch_loop requestedItems).1 ∧ failure_of (products w1) it e.
Proof.
  intros Herr.
  pose proof (fan_out_errors_match env sched requestedItems w1) as Hm.
  unfold errors_match in Hm. rewrite Herr in Hm. destruct Hm as (j & it & Hj).
  destruct (fan_out_from_catalog env sched requestedItems w1) as (_ & Hok & _).
  exists it. split.
  - rewrite <- (fan_out_items env sched requestedItems w1).
    apply list_elem_of_fmap. exists (it, Finished (Failed e)). split; [done |].
    by eapply list_elem_of_lookup_2.
  - apply (Forall_lookup_1 _ _ _ _ Hok Hj).
Qed.

(** What a successful call has gone through. *)
Lemma CreateOrder_success env sched userID requestedItems w o w' :
  CreateOrder env sched userID requestedItems w = (Ok o, w') →
  ∃ u w1 w2,
    userID ≠ "" ∧ requestedItems ≠ []
    ∧ rpc_GetUser env userID w = (Ok u, w1)
    ∧ (launch_loop requestedItems).2 = None
    ∧ firstError (shared (fan_out env sched requestedItems w1)) = None
    ∧ commit_loop env
        (range (range_order sched)
           (productStockUpdates (shared (fan_out env sched requestedItems w1))))
        (world (fan_out env sched requestedItems w1)) = (None, w2)
    ∧ OrderRepository.CreateOrder env
        (new_order userID (shared (fan_out env sched requestedItems w1))) w2 = (Ok o, w').
Proof.
  intros H.
  destruct (CreateOrder_path_spec env sched userID requestedItems w)
    as [ Hin | err w1 Hu Hi Huser | u w1 e Hu Hi Huser Hlaunch
       | u w1 e Hu Hi Huser Hlaunch Herr
       | u w1 e w2 Hu Hi Huser Hlaunch Herr Hloop
       | u w1 w2 r w3 Hu Hi Huser Hlaunch Herr Hloop Hrepo ]; try done.
  destruct r as [o' | e]; [| done]. injection H as <- <-.
  by exists u, w1, w2.
Qed.

(** ** The calls of a run, in the order of its phases *)

(** X1: whatever the schedule, the faults and the request, the calls of a
    run of CreateOrder come in the order of its phases: at most one
    validator call, then product fetches only (no more than there are
    requested items), then stock commits only, then at most one store call.
    Nothing is fetched before the user is validated, nothing is stored unless
    every commit succeeded, and the call succeeds exactly when its last call
    is a successful store call. *)
Theorem X1_calls_in_phase_order env sched userID requestedItems w :
  ∃ validator gets commits store,
    issued w (CreateOrder env sched userID requestedItems w).2
      = validator ++ gets ++ commits ++ store
    ∧ (validator = [] ∨ ∃ ok, validator = [(CallGetUser userID, ok)])
    ∧ Forall (λ e, is_fetch e = true) gets
    ∧ (length gets <= length requestedItems)%nat
    ∧ Forall (λ e, is_commit e = true) commits
    ∧ (store = [] ∨ ∃ ok, store = [(CallCreateOrder userID, ok)])
    ∧ (gets ++ commits ++ store ≠ [] → validator = [(CallGetUser userID, true)])
    ∧ (store ≠ [] → Forall (λ e, e.2 = true) commits)
    ∧ (is_ok (CreateOrder env sched userID requestedItems w).1 = true
       ↔ store = [(CallCreateOrder userID, true)]).
Proof.
  assert (Hlen : ∀ w1 gets,
            calls (world (fan_out env sched requestedItems w1)) = calls w1 ++ gets →
            Forall (λ e, is_fetch e = true) gets →
            (length (fetch_calls gets) <= length (launch_loop requestedItems).1)%nat →
            (length gets <= length requestedItems)%nat).
  { intros w1 gets _ Hgets Hle. rewrite <- (fetch_calls_length _ Hgets).
    pose proof (launch_loop_length requestedItems). lia. }
  assert (Hcommits : ∀ applied : list (string * Z),
            Forall (λ e, is_commit e = true) (ok_commit <$> applied)
            ∧ Forall (λ e : Call * bool, e.2 = true) (ok_commit <$> applied)).
  { intros applied. split; apply Forall_fmap, Forall_forall; by intros [p d] _. }
  destruct (CreateOrder_path_spec env sched userID requestedItems w)
    as [ Hin | err w1 Hu Hi Huser | u w1 e Hu Hi Huser Hlaunch
       | u w1 e Hu Hi Huser Hlaunch Herr
       | u w1 e w2 Hu Hi Huser Hlaunch Herr Hloop
       | u w1 w2 r w3 Hu Hi Huser Hlaunch Herr Hloop Hrepo ]; simpl.
  all: try (destruct (rpc_GetUser_world _ _ _ _ _ Huser) as [_ Hcalls1]).
  all: try (destruct (fan_out_issued env sched requestedItems w1)
              as (gets & Hcalls & Hgets & _ & Hle)).
  - exists [], [], [], []. rewrite issued_refl. simpl.
    repeat split; try done; try (by left); try lia; by constructor.
  - exists [(CallGetUser userID, false)], [], [], [].
    rewrite (issued_app _ _ _ Hcalls1). simpl.
    repeat split; try done; try (by left); try lia; try (by constructor).
    right. by exists false.
  - exists [(CallGetUser userID, true)], gets, [], [].
    rewrite (issued_app _ _ ((CallGetUser userID, true) :: gets)).
    2: { rewrite Hcalls, Hcalls1. by rewrite <- (assoc_L (++)). }
    rewrite !app_nil_r. simpl.
    repeat split; try done; try (by left); try (by constructor); try (by eapply Hlen).
    right. by exists true.
  - exists [(CallGetUser userID, true)], gets, [], [].
    rewrite (issued_app _ _ ((CallGetUser userID, true) :: gets)).
    2: { rewrite Hcalls, Hcalls1. by rewrite <- (assoc_L (++)). }
    rewrite !app_nil_r. simpl.
    repeat split; try done; try (by left); try (by constructor); try (by eapply Hlen).
    right. by exists true.
  - apply commit_loop_spec in Hloop
      as (_ & _ & _ & applied & _ & _ & p & d & rest & err & _ & -> & Hcalls2).
    exists [(CallGetUser userID, true)], gets,
      ((ok_commit <$> applied) ++ [(CallUpdateStock p d, false)]), [].
    rewrite (issued_app _ _
               ((CallGetUser userID, true) :: gets ++ (ok_commit <$> applied)
                  ++ [(CallUpdateStock p d, false)])).
    2: { rewrite Hcalls2, Hcalls, Hcalls1. by rewrite <- !(assoc_L (++)). }
    rewrite !app_nil_r. simpl.
    repeat split; try done; try (by left); try (by eapply Hlen);
      try (right; by exists true).
    apply Forall_app. split; [apply Hcommits | by repeat constructor].
  - apply commit_loop_spec in Hloop
      as (_ & _ & _ & applied & _ & _ & _ & Hcalls2).
    apply repo_CreateOrder_spec in Hrepo as (_ & _ & Hcalls3 & _).
    exists [(CallGetUser userID, true)], gets, (ok_commit <$> applied),
      [(CallCreateOrder userID, is_ok r)].
    rewrite (issued_app _ _
               ((CallGetUser userID, true) :: gets ++ (ok_commit <$> applied)
                  ++ [(CallCreateOrder userID, is_ok r)])).
    2: { rewrite Hcalls3, Hcalls2, Hcalls, Hcalls1. simpl.
         by rewrite <- !(assoc_L (++)). }
    simpl.
    repeat split; try done; try (by eapply Hlen); try apply Hcommits;
      try (right; by eexists); try (intros _; apply Hcommits).
    + by destruct r.
    + intros [= Hok]. by destruct r.
Qed.

(** ** The stock after a run *)

(** When the commit loop runs to its end, every entry met a row that could
    take it. *)
Lemma commit_loop_all_ok env entries w w' :
  commit_loop env entries w = (None, w') →
  NoDup entries.*1 →
  Forall (λ e, ∃ r, products w !! e.1 = Some r ∧ 0 <= int32 (row_stock r + e.2)) entries.
Proof.
  revert w. induction entries as [| [p d] rest IH]; intros w Hloop Hnd; [done |].
  simpl in Hloop. apply NoDup_cons in Hnd as [Hp Hnd].
  destruct (rpc_UpdateStock env p d w) as [[prod | err] w1] eqn:Hrpc; [| done].
  apply rpc_UpdateStock_world in Hrpc as (_ & _ & _ & _ & Hprod & row & Hrow & Hnn).
  constructor; [by exists row |].
  specialize (IH w1 Hloop Hnd).
  rewrite Forall_forall in IH. apply Forall_forall. intros [p' d'] Hin.
  destruct (IH _ Hin) as (r & Hr & Hnn'). exists r. split; [| done].
  simpl in *. rewrite Hprod, lookup_adjust in Hr.
  rewrite decide_False in Hr; [done |].
  intros ->. apply Hp. apply list_elem_of_fmap. by exists (p', d').
Qed.

Lemma adjust_nonneg p d tbl row :
  stocks_nonneg tbl → tbl !! p = Some row → 0 <= int32 (row_stock row + d) →
  stocks_nonneg (adjust p d tbl).
Proof.
  intros Htbl Hrow Hnn. unfold adjust. rewrite Hrow.
  apply map_Forall_insert_2; [simpl; lia | done].
Qed.

(** The commit loop keeps every stock at or above zero, however far it gets. *)
Lemma commit_loop_nonneg env entries w :
  stocks_nonneg (products w) → stocks_nonneg (products (commit_loop env entries w).2).
Proof.
  revert w. induction entries as [| [p d] rest IH]; intros w Hw; [done |].
  simpl. destruct (rpc_UpdateStock env p d w) as [[prod | err] w1] eqn:Hrpc.
  - apply IH.
    apply rpc_UpdateStock_world in Hrpc as (_ & _ & _ & _ & Hprod & row & Hrow & Hnn).
    rewrite Hprod. by eapply adjust_nonneg.
  - simpl. apply rpc_UpdateStock_world in Hrpc as (_ & _ & _ & _ & Hprod).
    by rewrite Hprod.
Qed.

(** X2: after a successful CreateOrder the row of every requested product
    holds its former stock less the demand for that product, all lines of
    the request taken together, computed in 32 bits and not negative; no
    other row of the catalog and no user has changed.  For a stock and a
    demand within the [int32] range this is the plain difference, so a
    successful order never asks more of a product than there was. *)
Theorem X2_success_deducts_the_demand env sched userID requestedItems w o w' p :
  CreateOrder env sched userID requestedItems w = (Ok o, w') →
  users w' = users w
  ∧ (p ∉ ProductID <$> requestedItems → products w' !! p = products w !! p)
  ∧ (p ∈ ProductID <$> requestedItems →
     ∃ r, products w !! p = Some r
          ∧ products w' !! p
            = Some (adjusted r (int32 (- demand p (key <$> requestedItems))))
          ∧ 0 <= row_stock (adjusted r (int32 (- demand p (key <$> requestedItems))))
          ∧ (0 <= row_stock r < 2 ^ 31 → demand p (key <$> requestedItems) <= 2 ^ 31 →
             row_stock (adjusted r (int32 (- demand p (key <$> requestedItems))))
             = row_stock r - demand p (key <$> requestedItems)
             ∧ demand p (key <$> requestedItems) <= row_stock r)).
Proof.
  intros H.
  apply CreateOrder_success in H
    as (u & w1 & w2 & Hu & Hi & Huser & Hlaunch & Herr & Hloop & Hrepo).
  destruct (rpc_GetUser_world _ _ _ _ _ Huser) as [(Husers1 & Hprod1 & _) _].
  destruct (fan_out_issued env sched requestedItems w1)
    as (gets & _ & _ & (Husers & Hprod & _) & _).
  pose proof (range_NoDup (range_order sched)
                (productStockUpdates (shared (fan_out env sched requestedItems w1))))
    as Hnd.
  pose proof (commit_loop_all_ok _ _ _ _ Hloop Hnd) as Hall.
  apply commit_loop_spec in Hloop
    as (Husers2 & _ & _ & applied & Hproducts & _ & -> & _).
  apply repo_CreateOrder_spec in Hrepo as (Husers3 & Hprod3 & _).
  split; [by rewrite Husers3, Husers2, Husers, Husers1 |].
  rewrite Hprod3, Hproducts, Hprod, Hprod1. split.
  - intros Hp. apply lookup_adjust_other. intros Hin.
    apply list_elem_of_fmap in Hin as ([p' d] & -> & Hin).
    apply commit_entries in Hin as [Hin _]; done.
  - intros Hp.
    assert ((p, int32 (- demand p (key <$> requestedItems)))
              ∈ range (range_order sched)
                  (productStockUpdates (shared (fan_out env sched requestedItems w1))))
      as Hin by (by apply commit_entries).
    rewrite Forall_forall in Hall. destruct (Hall _ Hin) as (r & Hr & Hnn).
    simpl in Hr, Hnn. rewrite Hprod, Hprod1 in Hr.
    exists r. split; [done |]. split; [by apply lookup_adjust_applied |].
    split; [done |]. intros Hstock Hdemand. simpl.
    assert (0 < demand p (key <$> requestedItems)) as Hpos.
    { apply demand_present.
      - destruct (launch_loop_all _ Hlaunch) as [_ Hq].
        apply Forall_fmap. eapply Forall_impl; [exact Hq | done].
      - by rewrite <- list_fmap_compose. }
    rewrite (int32_id (- _)) in Hnn |- * by (unfold in_int32; lia).
    rewrite int32_id in Hnn |- * by (unfold in_int32; lia). lia.
Qed.

(** X3: CreateOrder never leaves a negative stock behind: if no row of the
    catalog has a negative stock before the call, none has one after it,
    whether the call succeeds, is refused, or stops at a failed commit, for
    every schedule and every pattern of faults. *)
Theorem X3_stock_stays_nonnegative env sched userID requestedItems w :
  stocks_nonneg (products w) →
  stocks_nonneg (products (CreateOrder env sched userID requestedItems w).2).
Proof.
  intros Hw.
  destruct (CreateOrder_path_spec env sched userID requestedItems w)
    as [ Hin | err w1 Hu Hi Huser | u w1 e Hu Hi Huser Hlaunch
       | u w1 e Hu Hi Huser Hlaunch Herr
       | u w1 e w2 Hu Hi Huser Hlaunch Herr Hloop
       | u w1 w2 r w3 Hu Hi Huser Hlaunch Herr Hloop Hrepo ]; simpl; [done | ..].
  all: destruct (rpc_GetUser_world _ _ _ _ _ Huser) as [(_ & Hprod1 & _) _].
  all: try (destruct (fan_out_issued env sched requestedItems w1)
              as (gets & _ & _ & (_ & Hprod & _) & _)).
  - by rewrite Hprod1.
  - by rewrite Hprod, Hprod1.
  - by rewrite Hprod, Hprod1.
  - change w2 with (Err e : result Order OrderError, w2).2.
    replace w2 with (commit_loop env
        (range (range_order sched)
           (productStockUpdates (shared (fan_out env sched requestedItems w1))))
        (world (fan_out env sched requestedItems w1))).2 by (by rewrite Hloop).
    apply commit_loop_nonneg. by rewrite Hprod, Hprod1.
  - apply repo_CreateOrder_spec in Hrepo as (_ & -> & _).
    replace w2 with (commit_loop env
        (range (range_order sched)
           (productStockUpdates (shared (fan_out env sched requestedItems w1))))
        (world (fan_out env sched requestedItems w1))).2 by (by rewrite Hloop).
    apply commit_loop_nonneg. by rewrite Hprod, Hprod1.
Qed.

Lemma X3_stock_stays_nonnegative_witness :
  stocks_nonneg (products shop)
  ∧ stocks_nonneg
      (products (CreateOrder quiet p1_first "u1"
                   [request_item "P1" 2; request_item "P2" 7] shop).2).
Proof.
  assert (stocks_nonneg (products shop)) as H.
  { intros k r. unfold shop. simpl. intros Hk.
    apply lookup_insert_Some in Hk as [[_ <-] | [_ Hk]]; [simpl; lia |].
    apply lookup_insert_Some in Hk as [[_ <-] | [_ Hk]]; [simpl; lia | done]. }
  split; [exact H | exact (X3_stock_stays_nonnegative _ _ _ _ _ H)].
Defined.

Lemma X2_success_deducts_the_demand_witness :
  ∃ o w', CreateOrder quiet p1_first "u1"
            [request_item "P1" 2; request_item "P2" 7; request_item "P1" 1] shop
          = (Ok o, w')
          ∧ users w' = users shop.
Proof.
  eexists _, _. split; [by vm_compute |].
  eapply proj1,
    (X2_success_deducts_the_demand quiet p1_first "u1"
       [request_item "P1" 2; request_item "P2" 7; request_item "P1" 1] shop _ _ "P1").
  by vm_compute.
Defined.

(** ** A line that cannot be served *)

(** X4: once the user is validated, a request with positive quantities one
    of whose lines names a product the catalog lacks, or asks for more than
    its stock, is refused whatever the schedule and the faults: CreateOrder
    returns an error that wraps ErrProductFetchFailed or
    ErrInsufficientStockForOrder, issues no stock commit and changes no
    data. *)
Theorem X4_unfit_line_is_refused env sched userID requestedItems w u w1 it :
  userID ≠ "" →
  rpc_GetUser env userID w = (Ok u, w1) →
  Forall (λ it, 0 < Quantity it) requestedItems →
  it ∈ requestedItems →
  (products w !! ProductID it = None
   ∨ ∃ r, products w !! ProductID it = Some r ∧ row_stock r < Quantity it) →
  ∃ e, (CreateOrder env sched userID requestedItems w).1 = Err e
       ∧ (sentinel e = Some ErrProductFetchFailed
          ∨ sentinel e = Some ErrInsufficientStockForOrder)
       ∧ commit_calls (issued w (CreateOrder env sched userID requestedItems w).2) = []
       ∧ same_data w (CreateOrder env sched userID requestedItems w).2.
Proof.
  intros Hu Huser Hpos Hit Hunfit.
  destruct (rpc_GetUser_world _ _ _ _ _ Huser) as [Hdata1 Hcalls1].
  assert (Hprod1 : products w1 = products w) by apply Hdata1.
  rewrite <- Hprod1 in Hunfit.
  destruct (unfit_line_fails_a_task env sched _ _ _ Hpos Hit Hunfit)
    as (i & it0 & e0 & _ & Herr).
  destruct (fan_out_error _ _ _ _ _ Herr) as (it1 & _ & Hfail).
  destruct (fan_out_issued env sched requestedItems w1)
    as (gets & Hcalls & Hgets & Hdata & _).
  assert (CreateOrder env sched userID requestedItems w
          = (Err e0, world (fan_out env sched requestedItems w1))) as ->.
  { unfold CreateOrder. rewrite decide_False.
    2: { intros [? | Hlen]; [done |]. destruct requestedItems; [| done].
         by apply elem_of_nil in Hit. }
    rewrite Huser. cbv zeta. rewrite (launch_loop_positive _ Hpos). simpl.
    by rewrite Herr. }
  exists e0. simpl. split; [done |]. split; [by eapply failure_of_sentinel |].
  split; [| by eapply same_data_trans].
  rewrite (issued_app _ _ ((CallGetUser userID, true) :: gets)).
  2: { rewrite Hcalls, Hcalls1. by rewrite <- (assoc_L (++)). }
  change (commit_calls ([(CallGetUser userID, true)] ++ gets) = []).
  rewrite commit_calls_app. by rewrite (commit_calls_fetches _ Hgets).
Qed.

Lemma X4_unfit_line_is_refused_witness :
  ∃ e, (CreateOrder quiet alternating "u1"
          [request_item "P1" 2; request_item "P2" 8] shop).1 = Err e
       ∧ (sentinel e = Some ErrProductFetchFailed
          ∨ sentinel e = Some ErrInsufficientStockForOrder)
       ∧ commit_calls
           (issued shop (CreateOrder quiet alternating "u1"
                           [request_item "P1" 2; request_item "P2" 8] shop).2) = []
       ∧ same_data shop (CreateOrder quiet alternating "u1"
                           [request_item "P1" 2; request_item "P2" 8] shop).2.
Proof.
  eapply (X4_unfit_line_is_refused quiet alternating "u1"
            [request_item "P1" 2; request_item "P2" 8] shop "u1" _
            (request_item "P2" 8)).
  - done.
  - by vm_compute.
  - repeat constructor.
  - apply list_elem_of_further, list_elem_of_here.
  - right. exists (row 5 7). split; [by vm_compute | simpl; lia].
Defined.

(** ** The stored order *)

Lemma drawn_bounds f items :
  (OrderRepository.drawn f items <= 1 + length items)%nat.
Proof.
  unfold OrderRepository.drawn, OrderRepository.failing_item.
  repeat (case_decide || case_match); simplify_eq; lia.
Qed.

Lemma repo_CreateOrder_stored env order w r w' :
  OrderRepository.CreateOrder env order w = (r, w') →
  match r with
  | Ok o =>
      orders w' = o :: orders w ∧ OrderId o = uuid env (uuids w)
      ∧ Forall (λ it, OrderID it = OrderId o) (Items o)
      ∧ OStatus o = match OStatus order with StatusUnset => StatusPending | s => s end
      ∧ uuids w' = (uuids w + 1 + length (Items order))%nat
      ∧ Items o = OrderRepository.stamp_items env (uuid env (uuids w)) (S (uuids w))
                    (Items order)
  | Err _ =>
      orders w' = orders w
      ∧ (uuids w <= uuids w' <= uuids w + 1 + length (Items order))%nat
  end.
Proof.
  unfold OrderRepository.CreateOrder. intros [= <- <-].
  pose proof (drawn_bounds (next_fault env w) (Items order)) as Hb.
  unfold OrderRepository.drawn in *.
  case_decide as Hbegin; simpl; [split; [done | lia] |].
  case_decide as Hexec; simpl; [split; [done | lia] |].
  destruct (OrderRepository.failing_item _ _) as [i |] eqn:Hf.
  { rewrite decide_True by (by eexists). simpl. split; [done | lia]. }
  rewrite decide_False by (by intros [? ?]).
  case_decide as Hcommit; simpl; [split; [done | lia] |].
  repeat split; try done; try lia.
  unfold OrderRepository.stamp_items. apply Forall_forall. intros it Hit.
  apply elem_of_lookup_imap in Hit as (i & it' & -> & _). done.
Qed.

(** X5: an order is stored exactly when CreateOrder succeeds.  After a
    successful call the stored orders are the returned order followed by
    those there were; it is pending, belongs to the user of the request, and
    each of its items carries its identifier.  After a failed call the stored
    orders are those there were. *)
Theorem X5_order_stored_iff_success env sched userID requestedItems w :
  match (CreateOrder env sched userID requestedItems w).1 with
  | Ok o =>
      orders (CreateOrder env sched userID requestedItems w).2 = o :: orders w
      ∧ UserID o = userID ∧ OStatus o = StatusPending
      ∧ OrderId o = uuid env (uuids w)
      ∧ Forall (λ it, OrderID it = OrderId o) (Items o)
  | Err _ => orders (CreateOrder env sched userID requestedItems w).2 = orders w
  end.
Proof.
  destruct (CreateOrder_path_spec env sched userID requestedItems w)
    as [ Hin | err w1 Hu Hi Huser | u w1 e Hu Hi Huser Hlaunch
       | u w1 e Hu Hi Huser Hlaunch Herr
       | u w1 e w2 Hu Hi Huser Hlaunch Herr Hloop
       | u w1 w2 r w3 Hu Hi Huser Hlaunch Herr Hloop Hrepo ]; simpl; [done | ..].
  all: destruct (rpc_GetUser_world _ _ _ _ _ Huser) as [(_ & _ & Hord1 & Hid1) _].
  all: try (destruct (fan_out_issued env sched requestedItems w1)
              as (gets & _ & _ & (_ & _ & Hord & Hid) & _)).
  all: try (apply commit_loop_spec in Hloop as (_ & Hord2 & Hid2 & _)).
  - done.
  - by rewrite Hord, Hord1.
  - by rewrite Hord, Hord1.
  - by rewrite Hord2, Hord, Hord1.
  - pose proof (repo_CreateOrder_spec _ _ _ _ _ Hrepo) as (_ & _ & _ & Hfields).
    apply repo_CreateOrder_stored in Hrepo.
    destruct r as [o | e].
    + destruct Hrepo as (Hord3 & Hoid & Hitems & Hst & _).
      destruct (Hfields o eq_refl) as (_ & Huid & _).
      rewrite Hord3, Hord2, Hord, Hord1, Huid, Hst, Hoid, Hid2, Hid, Hid1.
      repeat split; try done. by rewrite <- Hid1, <- Hid, <- Hid2, <- Hoid.
    + destruct Hrepo as [-> _]. by rewrite Hord2, Hord, Hord1.
Qed.

(** ** The handlers of CreateOrder *)

Lemma Bind_None userID items :
  Bind userID items = None →
  userID ≠ "" ∧ items ≠ [] ∧ Forall (λ it, ProductID it ≠ "" ∧ 0 < Quantity it) items.
Proof.
  unfold Bind. case_decide as Hu; [done |]. case_decide as Hlen; [done |].
  intros H. split; [done |]. split; [by intros -> |]. clear Hlen.
  induction items as [| it rest IH]; [done |]. simpl in H.
  case_decide; [done |]. destruct (Quantity it <=? 0) eqn:Hq; [done |].
  apply Z.leb_gt in Hq. constructor; [done | by apply IH].
Qed.

(** X6: the HTTP handler lets a request through to CreateOrder exactly when
    it names a user, has at least one item, and every item names a product
    and has a positive quantity. *)
Theorem X6_Bind_accepts userID items :
  Bind userID items = None
  ↔ userID ≠ "" ∧ items ≠ []
    ∧ Forall (λ it, ProductID it ≠ "" ∧ 0 < Quantity it) items.
Proof.
  split; [apply Bind_None |].
  intros (Hu & Hi & Hall). unfold Bind.
  rewrite decide_False by done.
  rewrite decide_False by (by destruct items).
  clear Hi. induction Hall as [| it rest [Hp Hq] _ IH]; [done |].
  simpl. rewrite decide_False by done.
  destruct (Quantity it <=? 0) eqn:Hq'; [| done]. apply Z.leb_le in Hq'. lia.
Qed.

(** The statuses of the HTTP handler are 201, 400, 409 and 500. *)
Lemma http_error_status_cases e :
  http_error_status e = 400 ∨ http_error_status e = 409 ∨ http_error_status e = 500.
Proof.
  destruct e as [msg | e]; [by left |]. simpl.
  destruct (sentinel e) as [[] |]; auto.
Qed.

(** X7: what the statuses of the HTTP handler of CreateOrder tell.  It
    answers 201, 400, 409 or 500.  A 400 comes either from a request that
    did not bind, before any call, or from a failed validation of the user,
    the validator call being the only call of the run.  A 409 comes after
    product fetches only, with no stock commit and no data changed, and some
    requested line has failed against the catalog.  A 201 means the order is
    stored. *)
Theorem X7_http_statuses env sched userID items w :
  let status := (http_createOrder_status env sched userID items w).1 in
  let w' := (http_createOrder_status env sched userID items w).2 in
  (status = 201 ∨ status = 400 ∨ status = 409 ∨ status = 500)
  ∧ (status = 400 →
     (Bind userID items ≠ None ∧ w' = w)
     ∨ (Bind userID items = None ∧ issued w w' = [(CallGetUser userID, false)]))
  ∧ (status = 409 →
     same_data w w' ∧ commit_calls (issued w w') = []
     ∧ ∃ it e, it ∈ items ∧ failure_of (products w) it e)
  ∧ (status = 201 → ∃ o, orders w' = o :: orders w ∧ UserID o = userID).
Proof.
  unfold http_createOrder_status, http_createOrder.
  destruct (Bind userID items) as [msg |] eqn:Hbind; simpl.
  { split; [auto |]. split; [by left |]. split; done. }
  destruct (Bind_None _ _ Hbind) as (Hu & Hi & Hall).
  destruct (CreateOrder_path_spec env sched userID items w)
    as [ Hin | err w1 Hu' Hi' Huser | u w1 e Hu' Hi' Huser Hlaunch
       | u w1 e Hu' Hi' Huser Hlaunch Herr
       | u w1 e w2 Hu' Hi' Huser Hlaunch Herr Hloop
       | u w1 w2 r w3 Hu' Hi' Huser Hlaunch Herr Hloop Hrepo ]; simpl.
  - by destruct Hin.
  - rewrite sentinel_user_validation.
    split; [auto |]. split; [| split; done].
    intros _. right. split; [done |]. apply issued_app.
    by destruct (rpc_GetUser_world _ _ _ _ _ Huser) as [_ ->].
  - rewrite launch_loop_positive in Hlaunch; [done |].
    eapply Forall_impl; [exact Hall | by intros it []].
  - destruct (rpc_GetUser_world _ _ _ _ _ Huser) as [Hdata1 Hcalls1].
    destruct (fan_out_issued env sched items w1)
      as (gets & Hcalls & Hgets & Hdata & _).
    destruct (fan_out_error _ _ _ _ _ Herr) as (it & Hit & Hfail).
    destruct (launch_loop_all _ Hlaunch) as [Hl _]. rewrite Hl in Hit.
    assert (Hprod1 : products w1 = products w) by apply Hdata1.
    rewrite Hprod1 in Hfail.
    destruct (failure_of_sentinel _ _ _ Hfail) as [-> | ->].
    all: split; [auto |]; split; [done |]; split; [| done].
    all: intros _; split; [by eapply same_data_trans |]; split; [| by exists it, e].
    all: rewrite (issued_app _ _ ((CallGetUser userID, true) :: gets))
           by (rewrite Hcalls, Hcalls1; by rewrite <- (assoc_L (++))).
    all: change (commit_calls ([(CallGetUser userID, true)] ++ gets) = []).
    all: rewrite commit_calls_app; by rewrite (commit_calls_fetches _ Hgets).
  - apply commit_loop_spec in Hloop
      as (_ & _ & _ & applied & _ & _ & p & d & rest & err & _ & -> & _).
    simpl. split; [auto |]. split; done.
  - destruct r as [o | e]; simpl.
    + split; [auto |]. split; [done |]. split; [done |]. intros _.
      pose proof (repo_CreateOrder_stored _ _ _ _ _ Hrepo) as (Hord3 & _).
      pose proof (repo_CreateOrder_spec _ _ _ _ _ Hrepo) as (_ & _ & _ & Hfields).
      destruct (Hfields o eq_refl) as (_ & Huid & _).
      apply commit_loop_spec in Hloop as (_ & Hord2 & _).
      destruct (rpc_GetUser_world _ _ _ _ _ Huser) as [(_ & _ & Hord1 & _) _].
      destruct (fan_out_issued env sched items w1)
        as (gets & _ & _ & (_ & _ & Hord & _) & _).
      exists o. split; [| done]. by rewrite Hord3, Hord2, Hord, Hord1.
    + split; [auto |]. split; done.
Qed.

(** The gRPC handler checks a request as [Bind] does, and maps the errors of
    the service to status codes. *)
Lemma grpc_CreateOrder_Bind env sched userID reqItems w :
  grpc_CreateOrder env sched userID reqItems w
  = match Bind userID (domain_items reqItems) with
    | Some _ => (Err CodeInvalidArgument, w)
    | None =>
        match CreateOrder env sched userID (domain_items reqItems) w with
        | (Ok createdOrder, w') => (Ok createdOrder, w')
        | (Err e, w') =>
            (Err match sentinel e with
                 | Some ErrInvalidOrderData => CodeInvalidArgument
                 | Some ErrUserValidationFailed | Some ErrProductFetchFailed
                 | Some ErrInsufficientStockForOrder => CodeFailedPrecondition
                 | Some ErrProductStockUpdateFailed => CodeAborted
                 | None => CodeInternal
                 end, w')
        end
    end.
Proof.
  unfold grpc_CreateOrder, Bind.
  case_decide; [done |].
  assert (length (domain_items reqItems) = length reqItems) as ->
    by (unfold domain_items; apply length_fmap).
  case_decide; [done |].
  assert (existsb (λ item : string * Z, bool_decide (item.1 = "") || (item.2 <=? 0))
            reqItems
          = bool_decide (is_Some
              (foldr (λ item rest,
                        if decide (ProductID item = "") then
                          Some "product_id is required for all items"
                        else if Quantity item <=? 0 then
                          Some "quantity must be positive for all items"
                        else rest)
                 None (domain_items reqItems)))) as ->.
  { clear. induction reqItems as [| [p q] rest IH]; simpl; [done |].
    case_decide as Hp.
    - by rewrite (bool_decide_eq_true_2 _ Hp).
    - rewrite (bool_decide_eq_false_2 _ Hp). simpl.
      by destruct (q <=? 0). }
  destruct (foldr _ None (domain_items reqItems)) as [msg |].
  - by rewrite bool_decide_eq_true_2.
  - rewrite bool_decide_eq_false_2; [done |]. by intros [? ?].
Qed.

(** X8: the gRPC handler of CreateOrder answers InvalidArgument exactly for
    the requests the HTTP handler does not bind, and then no call is made:
    past its checks the service never reports invalid order data.  It
    answers Aborted exactly when a stock commit of the run has failed. *)
Theorem X8_grpc_codes env sched userID reqItems w :
  ((grpc_CreateOrder env sched userID reqItems w).1 = Err CodeInvalidArgument
   ↔ Bind userID (domain_items reqItems) ≠ None)
  ∧ (Bind userID (domain_items reqItems) ≠ None →
     (grpc_CreateOrder env sched userID reqItems w).2 = w)
  ∧ ((grpc_CreateOrder env sched userID reqItems w).1 = Err CodeAborted
     ↔ ∃ p d, (p, d, false)
              ∈ commit_calls (issued w (grpc_CreateOrder env sched userID reqItems w).2)).
Proof.
  rewrite grpc_CreateOrder_Bind. generalize (domain_items reqItems). intros items.
  destruct (Bind userID items) as [msg |] eqn:Hbind; simpl.
  { rewrite issued_refl. split; [done |]. split; [done |]. split; [done |].
    intros (p & d & Hin). by apply elem_of_nil in Hin. }
  destruct (Bind_None _ _ Hbind) as (Hu & Hi & Hall).
  assert (Hpos : Forall (λ it, 0 < Quantity it) items).
  { eapply Forall_impl; [exact Hall | by intros it []]. }
  split; [| split; [done |]].
  - split; [| done]. intros H. exfalso.
    destruct (CreateOrder_path_spec env sched userID items w)
      as [ Hin | err w1 Hu' Hi' Huser | u w1 e Hu' Hi' Huser Hlaunch
         | u w1 e Hu' Hi' Huser Hlaunch Herr
         | u w1 e w2 Hu' Hi' Huser Hlaunch Herr Hloop
         | u w1 w2 r w3 Hu' Hi' Huser Hlaunch Herr Hloop Hrepo ]; simpl in H.
    + by destruct Hin.
    + by rewrite sentinel_user_validation in H.
    + by rewrite launch_loop_positive in Hlaunch.
    + destruct (fan_out_error _ _ _ _ _ Herr) as (it & _ & Hfail).
      by destruct (failure_of_sentinel _ _ _ Hfail) as [Hs | Hs]; rewrite Hs in H.
    + apply commit_loop_spec in Hloop
        as (_ & _ & _ & applied & _ & _ & p & d & rest & err & _ & -> & _).
      done.
    + by destruct r.
  - destruct (CreateOrder_trace env sched userID items w)
      as [(Hnone & Hno & _)
         | (_ & gets & applied & tail & Hissued & Hgets & _ & _ & _ & _ & Htail)].
    + destruct (CreateOrder env sched userID items w) as [[o | e] w'] eqn:Hrun;
        simpl in *; rewrite Hnone.
      * split; [done |]. intros (p & d & Hin). by apply elem_of_nil in Hin.
      * split.
        -- intros [= Hs]. destruct e; try done. by destruct (Hno productID cause).
        -- intros (p & d & Hin). by apply elem_of_nil in Hin.
    + assert (∀ p d, (p, d, false)
                ∉ (λ e : string * Z, (e.1, e.2, true)) <$> applied) as Hok.
      { intros p d Hin. by apply list_elem_of_fmap in Hin as (? & [= _ _ ?] & _). }
      destruct (CreateOrder env sched userID items w) as [r w'] eqn:Hrun.
      simpl in Hissued, Htail.
      assert (issued w (match r with
                        | Ok createdOrder => (Ok createdOrder, w')
                        | Err e =>
                            (Err match sentinel e with
                                 | Some ErrInvalidOrderData => CodeInvalidArgument
                                 | Some ErrUserValidationFailed
                                 | Some ErrProductFetchFailed
                                 | Some ErrInsufficientStockForOrder =>
                                     CodeFailedPrecondition
                                 | Some ErrProductStockUpdateFailed => CodeAborted
                                 | None => CodeInternal
                                 end, w')
                        end).2 = issued w w') as -> by (by destruct r).
      rewrite Hissued, (commit_calls_trace _ _ _ _ Hgets).
      destruct Htail as [(p & d & err & -> & -> & _) | (ok & -> & _ & Hno)].
      * simpl. split; [| done]. intros _. exists p, d.
        apply elem_of_app. right. apply list_elem_of_here.
      * split.
        -- destruct r as [o | e]; [done |]. simpl. intros [= Hs].
           destruct e; try done. by destruct (Hno productID cause).
        -- intros (p & d & Hin). apply elem_of_app in Hin as [Hin | Hin].
           ++ by apply Hok in Hin.
           ++ by apply elem_of_nil in Hin.
Qed.

(** ** Listing through the gRPC handler *)

(** X9: the gRPC handler of ListUserOrders always asks the store for the
    first page: one query, with offset 0 and a limit between 1 and 100 that
    is the page size of the request or 10.  No page size of a request makes
    the offset wrap. *)
Theorem X9_grpc_list_first_page env userID reqPageSize w :
  userID ≠ "" →
  ∃ ok limit,
    1 <= limit <= 100 ∧ (limit = reqPageSize ∨ limit = 10)
    ∧ issued w (grpc_ListUserOrders env userID reqPageSize w).2
      = [(CallListOrders userID limit 0, ok)].
Proof.
  intros Hu. unfold grpc_ListUserOrders. rewrite decide_False by done. cbv zeta.
  destruct (ListUserOrders_query env userID 1
              (if reqPageSize <=? 0 then 10 else reqPageSize) w Hu)
    as (ok & limit & Hlimit & Hrange & Hissued).
  exists ok, limit. split; [done |]. split.
  - rewrite Hlimit. destruct (reqPageSize <=? 0) eqn:H0; simpl; [by right |].
    rewrite H0. simpl. destruct (100 <? reqPageSize); [by right | by left].
  - destruct (ListUserOrders env userID 1 _ w) as [[l | e] w'];
      simpl in *; rewrite Hissued; do 3 f_equal.
Qed.

Lemma X9_grpc_list_first_page_witness :
  ∃ ok limit,
    1 <= limit <= 100 ∧ (limit = 2147483647 ∨ limit = 10)
    ∧ issued shop (grpc_ListUserOrders quiet "u1" 2147483647 shop).2
      = [(CallListOrders "u1" limit 0, ok)].
Proof. by apply (X9_grpc_list_first_page quiet "u1" 2147483647 shop). Defined.

(** ** A run without faults *)

(** Without faults, a commit loop whose entries each meet a row that can
    take them runs to its end. *)
Lemma commit_loop_quiet_ok env entries w :
  (∀ n, fault env n = NoFault) →
  NoDup entries.*1 →
  Forall (λ e, e.1 ≠ ""
               ∧ ∃ r, products w !! e.1 = Some r ∧ 0 <= int32 (row_stock r + e.2))
    entries →
  (commit_loop env entries w).1 = None.
Proof.
  intros Hquiet. revert w.
  induction entries as [| [p d] entries IH]; intros w Hnd Hfit; [done |].
  simpl in Hnd. apply NoDup_cons in Hnd as [Hp Hnd].
  apply Forall_cons in Hfit as [(Hne & r & Hr & Hnn) Hfit]. simpl in Hne, Hr, Hnn.
  pose proof (rpc_UpdateStock_quiet env p d w r (Hquiet _) Hne Hr) as Hq.
  simpl. destruct (rpc_UpdateStock env p d w) as [res w1] eqn:Hrpc. simpl in Hq.
  destruct (int32 (row_stock r + d) <? 0) eqn:Hneg; [apply Z.ltb_lt in Hneg; lia |].
  subst res.
  apply rpc_UpdateStock_world in Hrpc as (_ & _ & _ & _ & Hprod & _).
  apply IH; [done |].
  rewrite Forall_forall in Hfit. apply Forall_forall. intros [k dk] Hin.
  destruct (Hfit _ Hin) as (Hk & rk & Hrk & Hnnk). split; [done |].
  exists rk. split; [| done]. simpl in *.
  rewrite Hprod, lookup_adjust, decide_False; [done |].
  intros ->. apply Hp. apply list_elem_of_fmap. by exists (k, dk).
Qed.

(** A line asks no more of its product than all lines together. *)
Lemma demand_line it items :
  Forall (λ it, 0 < Quantity it) items → it ∈ items →
  Quantity it <= demand (ProductID it) (key <$> items).
Proof.
  induction 1 as [| it' rest Hq Hpos IH]; intros Hit; [by inversion Hit |].
  rewrite fmap_cons. simpl.
  assert (0 <= demand (ProductID it) (key <$> rest)) as Hnn.
  { apply demand_nonneg, Forall_fmap. eapply Forall_impl; [exact Hpos | done]. }
  apply elem_of_cons in Hit as [-> | Hit].
  - rewrite decide_True by done. lia.
  - specialize (IH Hit). case_decide; lia.
Qed.

Lemma repo_CreateOrder_quiet env order w :
  next_fault env w = NoFault →
  is_ok (OrderRepository.CreateOrder env order w).1 = true.
Proof.
  intros Hq. unfold OrderRepository.CreateOrder. simpl. rewrite Hq.
  rewrite decide_False by (by intros [? | ?]). by rewrite !decide_False.
Qed.

(** X10: without faults, for a known user, CreateOrder succeeds for every
    schedule as soon as every line names a product of the catalog with a
    positive quantity and, for each product, the quantities of its lines
    together do not exceed its stock (a stock being an [int32]): the
    summed demand, not the single line, decides a run without faults. *)
Theorem X10_quiet_run_succeeds env sched userID requestedItems w :
  (∀ n, fault env n = NoFault) →
  userID ≠ "" → userID ∈ users w → requestedItems ≠ [] →
  Forall (λ it, ProductID it ≠ "" ∧ 0 < Quantity it
                ∧ is_Some (products w !! ProductID it)) requestedItems →
  (∀ p r, products w !! p = Some r →
          demand p (key <$> requestedItems) <= row_stock r < 2 ^ 31) →
  is_ok (CreateOrder env sched userID requestedItems w).1 = true.
Proof.
  intros Hquiet Hu Hin Hi Hlines Hstock.
  assert (Forall (λ it, 0 < Quantity it) requestedItems) as Hpos.
  { eapply Forall_impl; [exact Hlines |]. by intros it (_ & ? & _). }
  assert (Forall (λ kq : string * Z, 0 < kq.2) (key <$> requestedItems)) as Hkpos.
  { apply Forall_fmap. eapply Forall_impl; [exact Hpos | done]. }
  assert (Forall (line_fits (products w)) requestedItems) as Hfit.
  { rewrite Forall_forall in Hlines. apply Forall_forall. intros it Hit.
    destruct (Hlines it Hit) as (Hne & Hq & r & Hr).
    split; [done |]. split; [done |]. exists r. split; [done |].
    destruct (Hstock _ _ Hr) as [Hd _].
    pose proof (demand_line _ _ Hpos Hit). lia. }
  destruct (rpc_GetUser env userID w) as [ru w1] eqn:Huser.
  pose proof (rpc_GetUser_quiet env userID w (Hquiet _) Hu Hin) as Hok.
  rewrite Huser in Hok. simpl in Hok. subst ru.
  destruct (rpc_GetUser_world _ _ _ _ _ Huser) as [(_ & Hprod1 & _) _].
  pose proof (launch_loop_positive _ Hpos) as Hlaunch.
  assert (firstError (shared (fan_out env sched requestedItems w1)) = None) as Herr.
  { apply quiet_fan_out; [done |]. by rewrite Hprod1. }
  destruct (fan_out_issued env sched requestedItems w1) as (_ & _ & _ & (_ & Hprod & _) & _).
  set (entries := range (range_order sched)
                    (productStockUpdates (shared (fan_out env sched requestedItems w1)))).
  assert ((commit_loop env entries (world (fan_out env sched requestedItems w1))).1
          = None) as Hloop.
  { apply commit_loop_quiet_ok; [done | apply range_NoDup |].
    apply Forall_forall. intros [k dk] Hk.
    apply commit_entries in Hk as [Hk ->]; [| by rewrite Hlaunch | done]. simpl.
    pose proof Hk as Hk'.
    apply list_elem_of_fmap in Hk as (it & -> & Hit).
    rewrite Forall_forall in Hlines. destruct (Hlines it Hit) as (Hne & _ & r & Hr).
    split; [done |]. exists r. rewrite Hprod, Hprod1. split; [done |].
    destruct (Hstock _ _ Hr) as [Hd Hs].
    assert (0 < demand (ProductID it) (key <$> requestedItems)) as Hdpos.
    { apply demand_present; [done |]. by rewrite <- list_fmap_compose. }
    rewrite (int32_id (- _)) by (unfold in_int32; lia).
    rewrite int32_id by (unfold in_int32; lia). lia. }
  destruct (CreateOrder_path_spec env sched userID requestedItems w)
    as [ [? | ?] | err w1' _ _ Huser' | u w1' e _ _ Huser' Hlaunch'
       | u w1' e _ _ Huser' _ Herr'
       | u w1' e w2 _ _ Huser' _ _ Hloop'
       | u w1' w2 r w3 _ _ Huser' _ _ _ Hrepo ]; try done.
  all: rewrite Huser in Huser'; try done; injection Huser' as <- <-.
  - by rewrite Hlaunch in Hlaunch'.
  - by rewrite Herr in Herr'.
  - fold entries in Hloop'. by rewrite Hloop' in Hloop.
  - pose proof (repo_CreateOrder_quiet env
                  (new_order userID (shared (fan_out env sched requestedItems w1))) w2
                  (Hquiet _)) as Hok.
    rewrite Hrepo in Hok. simpl in *. by destruct r.
Qed.

Lemma X10_quiet_run_succeeds_witness :
  is_ok (CreateOrder quiet alternating "u1"
           [request_item "P1" 2; request_item "P2" 7; request_item "P1" 3] shop).1
  = true.
Proof.
  apply X10_quiet_run_succeeds.
  - done.
  - done.
  - by vm_compute.
  - done.
  - repeat (constructor; [split; [done | split; [simpl; lia | by vm_compute; eexists]] |]).
    constructor.
  - intros p r Hr. unfold shop in Hr. simpl in Hr.
    apply lookup_insert_Some in Hr as [[<- <-] | [_ Hr]]; [by vm_compute |].
    apply lookup_insert_Some in Hr as [[<- <-] | [_ Hr]]; [by vm_compute | done].
Defined.

(** ** Reading the stored orders *)

Lemma ListUserOrders_result env userID page pageSize w :
  userID ≠ "" →
  (ListUserOrders env userID page pageSize w).1
  = let limit := normal_size pageSize in
    let offset := int (int (normal_page page - 1) * limit) in
    if decide (next_fault env w = DbQueryFails ∨ next_fault env w = Unreachable) then
      Err (Repository (OrderRepository.ErrDb "query failed"))
    else if offset <? 0 then
      Err (Repository (OrderRepository.ErrDb "must not be negative"))
    else
      Ok (OrderRepository.list_view
            <$> take (Z.to_nat limit)
                  (drop (Z.to_nat offset) (user_orders userID (orders w)))).
Proof.
  intros Hu. unfold ListUserOrders. rewrite decide_False by done.
  fold (normal_page page) (normal_size pageSize). cbv zeta.
  unfold OrderRepository.ListOrdersByUserID. simpl.
  assert ((normal_size pageSize <? 0) = false) as ->.
  { apply Z.ltb_ge. unfold normal_size.
    destruct (pageSize <=? 0) eqn:H0; simpl; [lia |].
    destruct (100 <? pageSize); [lia |]. apply Z.leb_gt in H0. lia. }
  simpl. case_decide; [done |].
  by destruct (int (int (normal_page page - 1) * normal_size pageSize) <? 0).
Qed.

Lemma normal_size_range pageSize : 1 <= normal_size pageSize <= 100.
Proof.
  unfold normal_size. destruct (pageSize <=? 0) eqn:H0; simpl; [lia |].
  destruct (100 <? pageSize) eqn:H1; [lia |].
  apply Z.leb_gt in H0. apply Z.ltb_ge in H1. lia.
Qed.

(** X11: ListUserOrders changes no data, makes no call for an empty user
    id, and what it returns is a run of consecutive orders of the user's
    orders, newest first, of at most the normalized page size (so at most
    100), each without its items. *)
Theorem X11_listing_is_a_window env userID page pageSize w :
  same_data w (ListUserOrders env userID page pageSize w).2
  ∧ (userID = "" → ListUserOrders env userID page pageSize w = (Err InvalidOrderData, w))
  ∧ ∀ l, (ListUserOrders env userID page pageSize w).1 = Ok l →
         (Z.of_nat (length l) <= normal_size pageSize <= 100)
         ∧ Forall (λ o, UserID o = userID ∧ Items o = []) l
         ∧ ∃ newer older,
             OrderRepository.list_view <$> user_orders userID (orders w)
             = newer ++ l ++ older.
Proof.
  split; [| split].
  - unfold ListUserOrders. case_decide; [apply same_data_refl |].
    unfold OrderRepository.ListOrdersByUserID. simpl.
    by destruct (if decide _ then _ else _).
  - intros ->. unfold ListUserOrders. by rewrite decide_True.
  - intros l Hl. destruct (decide (userID = "")) as [-> | Hu].
    { unfold ListUserOrders in Hl. by rewrite decide_True in Hl. }
    rewrite (ListUserOrders_result _ _ _ _ _ Hu) in Hl. cbv zeta in Hl.
    case_decide; [done |]. destruct (_ <? 0); [done |]. injection Hl as <-.
    pose proof (normal_size_range pageSize) as Hsize.
    set (offset := Z.to_nat (int (int (normal_page page - 1) * normal_size pageSize))).
    split; [| split].
    + rewrite length_fmap, length_take. lia.
    + apply Forall_fmap, Forall_forall. intros o Ho. simpl. split; [| done].
      apply (subseteq_take _ _ o), (subseteq_drop _ _ o) in Ho.
      unfold user_orders in Ho. by apply list_elem_of_filter in Ho as [? _].
    + exists (OrderRepository.list_view <$> take offset (user_orders userID (orders w))),
        (OrderRepository.list_view
           <$> drop (Z.to_nat (normal_size pageSize))
                 (drop offset (user_orders userID (orders w)))).
      rewrite <- !fmap_app. by rewrite !take_drop.
Qed.

(** X12: without a fault of the store and for a page below 2^56,
    ListUserOrders returns the orders of the user at the positions
    (page - 1) * size up to page * size of the list of the user's orders,
    newest first, for the normalized page and size; so two consecutive pages
    of an unchanged store, one after the other, are the double page that
    starts where the first does: no order is skipped or repeated. *)
Theorem X12_pages_tile env userID page pageSize w w2 :
  userID ≠ "" → 1 <= page < 2 ^ 56 - 1 →
  next_fault env w = NoFault → next_fault env w2 = NoFault →
  orders w2 = orders w →
  let size := Z.to_nat (normal_size pageSize) in
  let start := Z.to_nat ((page - 1) * normal_size pageSize) in
  (ListUserOrders env userID page pageSize w).1
  = Ok (OrderRepository.list_view
          <$> take size (drop start (user_orders userID (orders w))))
  ∧ ∃ l1 l2,
      (ListUserOrders env userID page pageSize w).1 = Ok l1
      ∧ (ListUserOrders env userID (page + 1) pageSize w2).1 = Ok l2
      ∧ l1 ++ l2
        = OrderRepository.list_view
            <$> take (size + size) (drop start (user_orders userID (orders w))).
Proof.
  intros Hu Hpage Hq Hq2 Hord size start.
  pose proof (normal_size_range pageSize) as Hsize.
  assert (∀ p w0, 1 <= p < 2 ^ 56 → next_fault env w0 = NoFault →
            (ListUserOrders env userID p pageSize w0).1
            = Ok (OrderRepository.list_view
                    <$> take size
                          (drop (Z.to_nat ((p - 1) * normal_size pageSize))
                             (user_orders userID (orders w0))))) as Hpage_of.
  { intros p w0 Hp Hq0. rewrite (ListUserOrders_result _ _ _ _ _ Hu). cbv zeta.
    rewrite Hq0. rewrite decide_False by (by intros [? | ?]).
    destruct (ListUserOrders_offset p (normal_size pageSize) Hsize) as [Hoff Hnn];
      [lia |].
    fold (normal_page p) in Hoff, Hnn. rewrite Hoff.
    assert (normal_page p = p) as -> by (unfold normal_page;
      destruct (p <=? 0) eqn:H0; [apply Z.leb_le in H0; lia | done]).
    assert (((p - 1) * normal_size pageSize <? 0) = false) as ->
      by (apply Z.ltb_ge; nia).
    done. }
  split; [apply Hpage_of; [lia | done] |].
  eexists _, _. split; [apply Hpage_of; [lia | done] |].
  split; [apply Hpage_of; [lia | done] |].
  rewrite Hord, <- fmap_app. f_equal.
  replace (Z.to_nat ((page + 1 - 1) * normal_size pageSize)) with (start + size)%nat
    by (subst start size; nia).
  rewrite <- drop_drop. apply take_take_drop.
Qed.

Lemma X12_pages_tile_witness :
  ∃ l1 l2,
    (ListUserOrders quiet "u1" 1 1
       (CreateOrder quiet in_turn "u1" [request_item "P2" 1]
          (CreateOrder quiet in_turn "u1" [request_item "P1" 1] shop).2).2).1 = Ok l1
    ∧ (ListUserOrders quiet "u1" 2 1
         (CreateOrder quiet in_turn "u1" [request_item "P2" 1]
            (CreateOrder quiet in_turn "u1" [request_item "P1" 1] shop).2).2).1 = Ok l2
    ∧ length (l1 ++ l2) = 2%nat.
Proof.
  destruct (X12_pages_tile quiet "u1" 1 1
              (CreateOrder quiet in_turn "u1" [request_item "P2" 1]
                 (CreateOrder quiet in_turn "u1" [request_item "P1" 1] shop).2).2
              (CreateOrder quiet in_turn "u1" [request_item "P2" 1]
                 (CreateOrder quiet in_turn "u1" [request_item "P1" 1] shop).2).2)
    as (_ & l1 & l2 & H1 & H2 & H12); [done | lia | done | done | done |].
  exists l1, l2. split; [done |]. split; [done |]. rewrite H12. by vm_compute.
Defined.

Lemma repo_GetOrderByID_found id tbl o :
  OrderRepository.GetOrderByID NoFault NoFault id tbl = Ok o →
  OrderId o = id ∧ Forall (λ it, OrderID it = id) (Items o)
  ∧ ∃ o', o' ∈ tbl ∧ OrderId o' = id ∧ UserID o = UserID o'
          ∧ TotalAmount o = TotalAmount o' ∧ OStatus o = OStatus o'
          ∧ Forall2 same_line (Items o) (Items o')
          ∧ ItemID <$> Items o = ItemID <$> Items o'.
Proof.
  unfold OrderRepository.GetOrderByID. rewrite decide_False by (by intros [? | ?]).
  destruct (list_find _ tbl) as [[i o'] |] eqn:Hfind; [| done].
  rewrite decide_False by (by intros [? | ?]).
  apply list_find_Some in Hfind as (Hi & Hid & _). intros [= <-]. simpl.
  split; [done |]. split.
  - apply Forall_fmap, Forall_forall. by intros it _.
  - exists o'. split; [by eapply list_elem_of_lookup_2 |]. repeat split; try done.
    + apply Forall2_fmap_l, Forall_Forall2_diag, Forall_forall. by intros it _.
    + by rewrite <- list_fmap_compose.
Qed.

Lemma repo_GetOrderByID_answers f1 f2 id tbl :
  ¬ query_fails f1 → ¬ query_fails f2 →
  OrderRepository.GetOrderByID f1 f2 id tbl
  = OrderRepository.GetOrderByID NoFault NoFault id tbl.
Proof.
  intros Hf1 Hf2. unfold OrderRepository.GetOrderByID.
  rewrite (decide_False (P := f1 = DbQueryFails ∨ f1 = Unreachable)) by done.
  rewrite (decide_False (P := NoFault = DbQueryFails ∨ NoFault = Unreachable))
    by (by intros [? | ?]).
  destruct (list_find _ tbl) as [[i o] |]; [| done].
  by rewrite (decide_False (P := f2 = DbQueryFails ∨ f2 = Unreachable)).
Qed.

Lemma repo_GetOrderByID_NotFound f2 id tbl :
  OrderRepository.GetOrderByID NoFault f2 id tbl = Err OrderRepository.ErrOrderNotFound
  ↔ Forall (λ o, OrderId o ≠ id) tbl.
Proof.
  unfold OrderRepository.GetOrderByID. rewrite decide_False by (by intros [? | ?]).
  destruct (list_find _ tbl) as [[i o'] |] eqn:Hfind.
  - apply list_find_Some in Hfind as (Hi & Hid & _). split; [by case_decide |].
    intros Hall. rewrite Forall_forall in Hall.
    destruct (Hall o'); [by eapply list_elem_of_lookup_2 | done].
  - split; [| done]. intros _. by apply list_find_None in Hfind.
Qed.

(** X13: what GetOrderByID and the HTTP handler above it answer.  An empty
    id is refused as invalid order data (400) whatever the store.  For
    another id, a failure of the order query gives 500; when that query is
    answered, the order is reported not found (404) exactly when no stored
    order has this id, and otherwise a failure of the items query gives 500
    and an answer (200) is the first stored order with this id: its user,
    total and status, and its lines and item ids, each line put under the
    id. *)
Theorem X13_GetOrderByID f1 f2 id tbl :
  (id = "" → GetOrderByID f1 f2 id tbl = Err InvalidOrderData
             ∧ http_getOrder_status f1 f2 id tbl = 400)
  ∧ (id ≠ "" → query_fails f1 → http_getOrder_status f1 f2 id tbl = 500)
  ∧ (id ≠ "" → ¬ query_fails f1 →
     (Forall (λ o, OrderId o ≠ id) tbl →
      GetOrderByID f1 f2 id tbl = Err (Repository OrderRepository.ErrOrderNotFound)
      ∧ http_getOrder_status f1 f2 id tbl = 404)
     ∧ (Exists (λ o, OrderId o = id) tbl → query_fails f2 →
        http_getOrder_status f1 f2 id tbl = 500)
     ∧ (Exists (λ o, OrderId o = id) tbl → ¬ query_fails f2 →
        http_getOrder_status f1 f2 id tbl = 200
        ∧ ∃ o o', GetOrderByID f1 f2 id tbl = Ok o ∧ o' ∈ tbl
                  ∧ OrderId o = id ∧ OrderId o' = id
                  ∧ UserID o = UserID o' ∧ TotalAmount o = TotalAmount o'
                  ∧ OStatus o = OStatus o'
                  ∧ key <$> Items o ≡ₚ key <$> Items o'
                  ∧ ItemID <$> Items o ≡ₚ ItemID <$> Items o'
                  ∧ Forall (λ it, OrderID it = id) (Items o))).
Proof.
  split; [| split].
  - intros ->. unfold http_getOrder_status, GetOrderByID. by rewrite !decide_True.
  - intros Hid Hf. unfold http_getOrder_status, GetOrderByID.
    rewrite !decide_False by done. unfold OrderRepository.GetOrderByID.
    by rewrite decide_True.
  - intros Hid Hf1.
    assert (∀ o, o ∈ tbl → OrderId o = id →
              ∃ i o', list_find (λ o, OrderId o = id) tbl = Some (i, o')) as Hfound.
    { intros o Hin Ho.
      destruct (list_find_elem_of (λ o, OrderId o = id) tbl o Hin Ho) as [[i o'] ?].
      by exists i, o'. }
    unfold http_getOrder_status, GetOrderByID. rewrite !decide_False by done.
    split; [| split].
    + intros Hall. unfold OrderRepository.GetOrderByID.
      rewrite decide_False by done.
      pose proof (proj2 (list_find_None (λ o, OrderId o = id) tbl) Hall) as Hnone.
      by rewrite Hnone.
    + intros Hex Hf2. apply Exists_exists in Hex as (o & Hin & Ho).
      destruct (Hfound o Hin Ho) as (i & o' & Hfind).
      unfold OrderRepository.GetOrderByID. rewrite decide_False by done.
      rewrite Hfind. by rewrite decide_True.
    + intros Hex Hf2. rewrite (repo_GetOrderByID_answers _ _ _ _ Hf1 Hf2).
      apply Exists_exists in Hex as (o0 & Hin0 & Ho0).
      destruct (OrderRepository.GetOrderByID NoFault NoFault id tbl) as [o | e] eqn:Hget.
      * split; [done |].
        destruct (repo_GetOrderByID_found _ _ _ Hget)
          as (Ho & Hitems & o' & Hin & Ho' & Hu & Ht & Hs & Hl & Hids).
        exists o, o'. rewrite (same_line_key _ _ Hl), Hids. by repeat split.
      * exfalso. destruct (Hfound o0 Hin0 Ho0) as (i & o' & Hfind).
        unfold OrderRepository.GetOrderByID in Hget.
        rewrite decide_False in Hget by (by intros [? | ?]).
        rewrite Hfind in Hget. by rewrite decide_False in Hget by (by intros [? | ?]).
Qed.

(** X14: an order that CreateOrder has returned can be read back: when
    both queries are answered, GetOrderByID for its identifier returns an
    order with this identifier, the same user and status, and the same
    lines and item ids, each under the order's identifier. *)
Theorem X14_created_order_reads_back env sched userID requestedItems w o w' f1 f2 :
  CreateOrder env sched userID requestedItems w = (Ok o, w') →
  OrderId o ≠ "" → ¬ query_fails f1 → ¬ query_fails f2 →
  ∃ o', GetOrderByID f1 f2 (OrderId o) (orders w') = Ok o'
        ∧ OrderId o' = OrderId o ∧ UserID o' = UserID o ∧ OStatus o' = OStatus o
        ∧ key <$> Items o' ≡ₚ key <$> Items o
        ∧ ItemID <$> Items o' ≡ₚ ItemID <$> Items o
        ∧ Forall (λ it, OrderID it = OrderId o) (Items o').
Proof.
  intros H Hid Hf1 Hf2.
  apply CreateOrder_success in H
    as (u & w1 & w2 & _ & _ & _ & _ & _ & _ & Hrepo).
  apply repo_CreateOrder_stored in Hrepo as (-> & _ & Hitems & _).
  exists o. split; [| by repeat split].
  unfold GetOrderByID. rewrite decide_False by done.
  rewrite (repo_GetOrderByID_answers _ _ _ _ Hf1 Hf2).
  unfold OrderRepository.GetOrderByID. rewrite decide_False by (by intros [? | ?]).
  simpl. rewrite decide_True by done. simpl. f_equal.
  destruct o as [oid uid items total st]. simpl in *. f_equal.
  induction Hitems as [| it items Hit _ IH]; [done |]. csimpl. f_equal; [| done].
  destruct it. simpl in *. by subst.
Qed.

Lemma X14_created_order_reads_back_witness :
  ∃ o w' o',
    CreateOrder quiet alternating "u1"
      [request_item "P1" 2; request_item "P2" 1] shop = (Ok o, w')
    ∧ GetOrderByID NoFault NoFault (OrderId o) (orders w') = Ok o'
    ∧ OrderId o' = OrderId o.
Proof.
  eexists _, _.
  destruct (X14_created_order_reads_back quiet alternating "u1"
              [request_item "P1" 2; request_item "P2" 1] shop _ _ NoFault NoFault
              eq_refl)
    as (o' & Hget & Hid & _); [by vm_compute | by intros [? | ?] | by intros [? | ?] |].
  exists o'. split; [reflexivity |]. by split.
Defined.

(** X15: UpdateOrderStatus changes the status of the orders with the given
    id and nothing else.  A failed update leaves every order as it was; a
    successful one returns the order with the new status and without items,
    and afterwards every order reads back as before, the updated one with
    its new status and with its user, total and items untouched. *)
Theorem X15_status_update_changes_only_the_status f orderID status tbl :
  (∀ e, (OrderRepository.UpdateOrderStatus f orderID status tbl).1 = Err e →
        (OrderRepository.UpdateOrderStatus f orderID status tbl).2 = tbl
        ∧ (e = OrderRepository.ErrOrderNotFound →
           Forall (λ o, OrderId o ≠ orderID) tbl))
  ∧ (∀ o, (OrderRepository.UpdateOrderStatus f orderID status tbl).1 = Ok o →
          OrderId o = orderID ∧ OStatus o = status ∧ Items o = []
          ∧ (OrderRepository.UpdateOrderStatus f orderID status tbl).2
            = status_set orderID status <$> tbl
          ∧ ∀ id,
              OrderRepository.GetOrderByID NoFault NoFault id
                (OrderRepository.UpdateOrderStatus f orderID status tbl).2
              = match OrderRepository.GetOrderByID NoFault NoFault id tbl with
                | Ok o' => Ok (status_set orderID status o')
                | Err e => Err e
                end).
Proof.
  unfold OrderRepository.UpdateOrderStatus. case_decide as Hf; simpl.
  { split; [| done]. intros e [= <-]. split; done. }
  destruct (list_find _ tbl) as [[i o0] |] eqn:Hfind; simpl.
  - split; [done |]. intros o [= <-]. simpl.
    split; [done |]. split; [done |]. split; [done |]. split; [done |].
    intros id. unfold OrderRepository.GetOrderByID.
    destruct (decide (NoFault = DbQueryFails ∨ NoFault = Unreachable)) as [[? | ?] | _];
      [done | done |].
    fold (status_set orderID status).
    rewrite list_find_fmap.
    rewrite (list_find_ext _ (λ o, OrderId o = id)).
    2: { intros o'. unfold compose, status_set. by case_decide. }
    destruct (list_find (λ o, OrderId o = id) tbl) as [[j o'] |]; [| done].
    simpl. f_equal. unfold status_set. simpl. by case_decide.
  - split; [| done]. intros e [= <-]. split; [done |]. intros _.
    by apply list_find_None in Hfind.
Qed.

(** ** The product service *)

Lemma invalid_product_false name price stockQuantity :
  ProductService.invalid_product name price stockQuantity = false →
  name ≠ "" ∧ PrimFloat.ltb price 0 = false ∧ 0 <= stockQuantity.
Proof.
  unfold ProductService.invalid_product.
  intros [[Hn Hp]%orb_false_iff Hs]%orb_false_iff.
  apply bool_decide_eq_false in Hn. apply Z.ltb_ge in Hs. done.
Qed.

Lemma CreateProduct_table f id name description price stockQuantity tbl :
  (ProductService.CreateProduct f id name description price stockQuantity tbl).2 = tbl
  ∨ (0 <= stockQuantity
     ∧ (ProductService.CreateProduct f id name description price stockQuantity tbl).2
       = <[id := {| row_name := name; row_description := description;
                    row_price := price; row_stock := stockQuantity |}]> tbl).
Proof.
  unfold ProductService.CreateProduct.
  destruct (ProductService.invalid_product _ _ _) eqn:Hv; [by left |].
  apply invalid_product_false in Hv as (_ & _ & Hs).
  unfold ProductService.repo_CreateProduct. case_decide; [by left | by right].
Qed.

Lemma UpdateProduct_table f1 f2 id name description price stockQuantity tbl :
  (ProductService.UpdateProduct f1 f2 id name description price stockQuantity tbl).2 = tbl
  ∨ (0 <= stockQuantity ∧ id ≠ "" ∧ is_Some (tbl !! id)
     ∧ (ProductService.UpdateProduct f1 f2 id name description price stockQuantity tbl).2
       = <[id := {| row_name := name; row_description := description;
                    row_price := price; row_stock := stockQuantity |}]> tbl
     ∧ (ProductService.UpdateProduct f1 f2 id name description price stockQuantity tbl).1
       = Ok {| ID := id; Name := name; Description := description; Price := price;
               StockQuantity := stockQuantity |}).
Proof.
  unfold ProductService.UpdateProduct.
  destruct (bool_decide (id = "")) eqn:Hid; [by left |].
  apply bool_decide_eq_false in Hid. simpl.
  destruct (ProductService.invalid_product _ _ _) eqn:Hv; [by left |].
  apply invalid_product_false in Hv as (_ & _ & Hs).
  unfold ProductService.repo_GetProductByID. case_decide; [by left |].
  destruct (tbl !! id) as [r |] eqn:Hr; [| by left].
  unfold ProductService.repo_UpdateProduct. simpl. case_decide; [by left |].
  rewrite Hr. right. simpl. by repeat split.
Qed.

Lemma UpdateStock_table f productID quantityChange tbl :
  (ProductService.UpdateStock f productID quantityChange tbl).2 = tbl
  ∨ ∃ r, productID ≠ "" ∧ tbl !! productID = Some r
         ∧ 0 <= int32 (row_stock r + quantityChange)
         ∧ ProductService.UpdateStock f productID quantityChange tbl
           = (Ok (scan_product productID (adjusted r quantityChange)),
              <[productID := adjusted r quantityChange]> tbl).
Proof.
  unfold ProductService.UpdateStock. case_decide as Hid; [by left |].
  destruct (ProductService.repo_UpdateStock f productID quantityChange tbl)
    as [[p | e] tbl'] eqn:Hrepo.
  - right. pose proof Hrepo as Hrepo'.
    apply repo_UpdateStock_success in Hrepo' as (r & Hr & Hnn & _ & ->).
    exists r. split; [done |]. split; [done |]. split; [done |].
    unfold ProductService.repo_UpdateStock in Hrepo. rewrite Hr in Hrepo.
    repeat (case_decide || case_match); by simplify_eq.
  - left. by apply repo_UpdateStock_failure in Hrepo.
Qed.

(** X16: the product service keeps every stock at or above zero: starting
    from a table without a negative stock, no sequence of CreateProduct,
    UpdateProduct, DeleteProduct and UpdateStock requests, whatever their
    arguments and whatever faults they meet, leads to a table with one. *)
Theorem X16_product_service_keeps_stock_nonnegative reqs tbl :
  stocks_nonneg tbl → stocks_nonneg (foldl serve tbl reqs).
Proof.
  revert tbl. induction reqs as [| req reqs IH]; intros tbl Htbl; [done |].
  simpl. apply IH. clear IH.
  destruct req as [f id name description price stockQuantity
                  | f1 f2 id name description price stockQuantity
                  | f id | f productID quantityChange]; simpl.
  - destruct (CreateProduct_table f id name description price stockQuantity tbl)
      as [-> | [Hs ->]]; [done |].
    by apply map_Forall_insert_2.
  - destruct (UpdateProduct_table f1 f2 id name description price stockQuantity tbl)
      as [-> | (Hs & _ & _ & -> & _)]; [done |].
    by apply map_Forall_insert_2.
  - unfold ProductService.DeleteProduct, ProductService.repo_DeleteProduct.
    repeat (case_decide || case_match); simpl; try done.
    by apply map_Forall_delete.
  - destruct (UpdateStock_table f productID quantityChange tbl)
      as [-> | (r & _ & Hr & Hnn & ->)]; [done |].
    by apply map_Forall_insert_2.
Qed.

Lemma X16_product_service_keeps_stock_nonnegative_witness :
  stocks_nonneg
    (foldl serve (products shop)
       [ReqUpdateStock NoFault "P1" (-5); ReqUpdateStock NoFault "P1" (-1);
        ReqCreate NoFault "P3" "tea" "" 3 4; ReqDelete NoFault "P2";
        ReqUpdate NoFault NoFault "P3" "tea" "green" 3 (-1)]).
Proof.
  apply X16_product_service_keeps_stock_nonnegative.
  intros k r. unfold shop. simpl. intros Hk.
  apply lookup_insert_Some in Hk as [[_ <-] | [_ Hk]]; [simpl; lia |].
  apply lookup_insert_Some in Hk as [[_ <-] | [_ Hk]]; [simpl; lia | done].
Defined.

(** X17: a stock adjustment is undone by the opposite adjustment.  When
    UpdateStock has changed the stock of a product by a delta (the stock
    being an [int32] that is not negative), a second UpdateStock by the
    negated delta that meets no fault succeeds and leaves the product table
    exactly as it was before the first. *)
Theorem X17_opposite_adjustment_restores f productID quantityChange tbl r p tbl' :
  tbl !! productID = Some r → 0 <= row_stock r < 2 ^ 31 → in_int32 quantityChange →
  ProductService.UpdateStock f productID quantityChange tbl = (Ok p, tbl') →
  ProductService.UpdateStock NoFault productID (int32 (- quantityChange)) tbl'
  = (Ok (scan_product productID r), tbl).
Proof.
  intros Hr Hstock Hd H.
  unfold ProductService.UpdateStock in H |- *. case_decide as Hid; [done |].
  destruct (repo_UpdateStock_success _ _ _ _ _ _ H) as (r' & Hr' & Hnn & _ & ->).
  rewrite Hr in Hr'. injection Hr' as <-.
  unfold in_int32 in Hd.
  assert (0 <= row_stock r + quantityChange < 2 ^ 31) as Hsum.
  { destruct (decide (row_stock r + quantityChange < 2 ^ 31)) as [Hlt | Hge].
    - rewrite int32_id in Hnn by (unfold in_int32; lia). lia.
    - exfalso. unfold int32, wrap in Hnn.
      replace (row_stock r + quantityChange + 2 ^ (32 - 1))
        with (row_stock r + quantityChange - 2 ^ 31 + 1 * 2 ^ 32) in Hnn by lia.
      rewrite Z_mod_plus_full, Z.mod_small in Hnn by lia. lia. }
  rewrite int32_id in Hnn by (unfold in_int32; lia).
  unfold ProductService.repo_UpdateStock. rewrite !decide_False by done.
  rewrite lookup_insert_eq. cbv zeta. simpl.
  rewrite (int32_id (row_stock r + quantityChange)) by (unfold in_int32; lia).
  rewrite (int32_id (- quantityChange)) by (unfold in_int32; lia).
  replace (row_stock r + quantityChange + - quantityChange) with (row_stock r) by lia.
  rewrite int32_id by (unfold in_int32; lia).
  assert ((row_stock r <? 0) = false) as -> by (apply Z.ltb_ge; lia).
  assert ({| row_name := row_name r; row_description := row_description r;
             row_price := row_price r; row_stock := row_stock r |} = r) as ->
    by (by destruct r).
  by rewrite insert_insert_eq, insert_id.
Qed.

Lemma X17_opposite_adjustment_restores_witness :
  ∃ p tbl',
    ProductService.UpdateStock NoFault "P1" (-3) (products shop) = (Ok p, tbl')
    ∧ ProductService.UpdateStock NoFault "P1" (int32 (- -3)) tbl'
      = (Ok (scan_product "P1" (row 10 5)), products shop).
Proof.
  eexists _, _. split; [by vm_compute |].
  eapply (X17_opposite_adjustment_restores NoFault "P1" (-3) (products shop));
    [by vm_compute | simpl; lia | unfold in_int32; lia | by vm_compute].
Defined.

(** X18: a successful UpdateStock returns the product as the table then
    holds it: reading the product afterwards gives the same product.  Only
    the stock of that one row has changed: its name, description and price,
    every other row, and the set of product ids are as before, and the new
    stock is not negative. *)
Theorem X18_adjusted_product_reads_back f productID quantityChange tbl p tbl' :
  ProductService.UpdateStock f productID quantityChange tbl = (Ok p, tbl') →
  ProductService.GetProductByID NoFault productID tbl' = Ok p
  ∧ (∀ k, k ≠ productID → tbl' !! k = tbl !! k)
  ∧ dom tbl' = dom tbl
  ∧ ∃ r, tbl !! productID = Some r
         ∧ ID p = productID ∧ Name p = row_name r
         ∧ Description p = row_description r ∧ Price p = row_price r
         ∧ StockQuantity p = int32 (row_stock r + quantityChange)
         ∧ 0 <= StockQuantity p.
Proof.
  intros H.
  destruct (UpdateStock_table f productID quantityChange tbl)
    as [Hsame | (r & Hid & Hr & Hnn & Heq)].
  - rewrite H in Hsame. simpl in Hsame. subst tbl'.
    unfold ProductService.UpdateStock in H. case_decide as Hid; [done |].
    pose proof H as H'.
    apply repo_UpdateStock_success in H' as (r & Hr & Hnn & Hstock & Heq).
    assert (tbl !! productID = Some (adjusted r quantityChange)) as Hr'.
    { rewrite Heq at 1. by rewrite lookup_insert_eq. }
    unfold ProductService.repo_UpdateStock in H. rewrite Hr in H.
    assert (p = scan_product productID (adjusted r quantityChange)) as ->
      by (repeat (case_decide || case_match); by simplify_eq).
    split; [| split; [done | split; [done |]]].
    + unfold ProductService.GetProductByID, ProductService.repo_GetProductByID.
      rewrite !decide_False by done. by rewrite Hr'.
    + exists r. by repeat split.
  - rewrite H in Heq. injection Heq as -> ->.
    split; [| split; [| split]].
    + unfold ProductService.GetProductByID, ProductService.repo_GetProductByID.
      rewrite !decide_False by done. by rewrite lookup_insert_eq.
    + intros k Hk. by rewrite lookup_insert_ne.
    + apply dom_insert_lookup_L. by rewrite Hr.
    + exists r. by repeat split.
Qed.

Lemma X18_adjusted_product_reads_back_witness :
  ∃ p tbl',
    ProductService.UpdateStock NoFault "P2" (-7) (products shop) = (Ok p, tbl')
    ∧ ProductService.GetProductByID NoFault "P2" tbl' = Ok p.
Proof.
  eexists _, _. split; [by vm_compute |].
  eapply proj1, (X18_adjusted_product_reads_back NoFault "P2" (-7) (products shop)).
  by vm_compute.
Defined.

(** X19: CreateProduct stores only valid products.  A product is stored
    exactly when the call succeeds, and then its name is not empty, its
    price is not below zero and its stock is not negative; it is stored
    under the identifier it was given with the name, description and stock
    of the request, no other row changes, and it reads back with these.  A
    failed call leaves the table as it was, and it fails for invalid data
    exactly when the name is empty, the price below zero or the stock
    negative. *)
Theorem X19_created_product_is_valid f id name description price stockQuantity tbl :
  match (ProductService.CreateProduct f id name description price stockQuantity tbl).1 with
  | Ok p =>
      name ≠ "" ∧ PrimFloat.ltb price 0 = false ∧ 0 <= stockQuantity
      ∧ ID p = id ∧ Name p = name ∧ Description p = description
      ∧ StockQuantity p = stockQuantity
      ∧ (∀ k, k ≠ id →
           (ProductService.CreateProduct f id name description price stockQuantity tbl).2
             !! k = tbl !! k)
      ∧ (id ≠ "" →
         ∃ q, ProductService.GetProductByID NoFault id
                (ProductService.CreateProduct f id name description price stockQuantity
                   tbl).2 = Ok q
              ∧ ID q = id ∧ Name q = name ∧ Description q = description
              ∧ StockQuantity q = stockQuantity)
  | Err e =>
      (ProductService.CreateProduct f id name description price stockQuantity tbl).2 = tbl
      ∧ (e = ProductService.ErrInvalidProductData
         ↔ name = "" ∨ PrimFloat.ltb price 0 = true ∨ stockQuantity < 0)
  end.
Proof.
  unfold ProductService.CreateProduct.
  destruct (ProductService.invalid_product _ _ _) eqn:Hv; simpl.
  - split; [done |]. split; [| done]. intros _.
    unfold ProductService.invalid_product in Hv.
    apply orb_true_iff in Hv as [[Hn | Hp]%orb_true_iff | Hs].
    + left. by apply bool_decide_eq_true in Hn.
    + right. by left.
    + right. right. by apply Z.ltb_lt in Hs.
  - apply invalid_product_false in Hv as (Hn & Hp & Hs).
    unfold ProductService.repo_CreateProduct. case_decide as Hf; simpl.
    + split; [done |]. split; [done |]. intros [? | [Hp' | ?]]; [done | | lia].
      by rewrite Hp in Hp'.
    + repeat split; try done.
      * intros k Hk. by rewrite lookup_insert_ne.
      * intros Hid. eexists.
        unfold ProductService.GetProductByID, ProductService.repo_GetProductByID.
        rewrite !decide_False by done. rewrite lookup_insert_eq. by repeat split.
Qed.

(** X20: DeleteProduct removes the product and nothing else.  After a
    successful call the product is gone (reading it, or adjusting its stock,
    reports ErrProductNotFound) and every other row is as before; the call
    succeeds only for a product that was there.  A failed call leaves the
    table as it was, and with a store that answers it reports
    ErrProductNotFound exactly for a non-empty id without a row. *)
Theorem X20_deleted_product_is_gone f id tbl :
  match (ProductService.DeleteProduct f id tbl).1 with
  | None =>
      id ≠ "" ∧ is_Some (tbl !! id)
      ∧ (ProductService.DeleteProduct f id tbl).2 = delete id tbl
      ∧ ProductService.GetProductByID NoFault id (ProductService.DeleteProduct f id tbl).2
        = Err ProductService.ErrProductNotFound
      ∧ (∀ d, ProductService.UpdateStock NoFault id d
                (ProductService.DeleteProduct f id tbl).2
              = (Err ProductService.ErrProductNotFound,
                 (ProductService.DeleteProduct f id tbl).2))
      ∧ ∀ k, k ≠ id → (ProductService.DeleteProduct f id tbl).2 !! k = tbl !! k
  | Some e =>
      (ProductService.DeleteProduct f id tbl).2 = tbl
      ∧ (e = ProductService.ErrProductNotFound
         ↔ id ≠ "" ∧ f ≠ DbExecFails ∧ tbl !! id = None)
  end.
Proof.
  unfold ProductService.DeleteProduct, ProductService.repo_DeleteProduct.
  case_decide as Hid; simpl.
  { split; [done |]. split; [done |]. by intros (? & _). }
  case_decide as Hf; simpl.
  { split; [done |]. split; [done |]. by intros (_ & ? & _). }
  destruct (tbl !! id) as [r |] eqn:Hr; simpl.
  - split; [done |]. split; [by eexists |]. split; [done |].
    split; [| split].
    + unfold ProductService.GetProductByID, ProductService.repo_GetProductByID.
      rewrite !decide_False by done. by rewrite lookup_delete_eq.
    + intros d. unfold ProductService.UpdateStock, ProductService.repo_UpdateStock.
      rewrite !decide_False by done. by rewrite lookup_delete_eq.
    + intros k Hk. by rewrite lookup_delete_ne.
  - split; [done |]. by split.
Qed.

(** X21: UpdateProduct never creates a product.  A successful call
    gives the row of an existing product the name, description and stock of
    the request, keeps its identifier, and leaves the set of product ids
    and every other row as they were; a failed call, whichever of its two statements fails,
    leaves the table as it was, and ErrProductNotFound is reported only for
    an id without a row. *)
Theorem X21_update_never_creates f1 f2 id name description price stockQuantity tbl :
  match (ProductService.UpdateProduct f1 f2 id name description price stockQuantity tbl).1
  with
  | Ok p =>
      id ≠ "" ∧ is_Some (tbl !! id)
      ∧ p = {| ID := id; Name := name; Description := description; Price := price;
               StockQuantity := stockQuantity |}
      ∧ name ≠ "" ∧ PrimFloat.ltb price 0 = false ∧ 0 <= stockQuantity
      ∧ dom (ProductService.UpdateProduct f1 f2 id name description price stockQuantity
               tbl).2 = dom tbl
      ∧ (∃ r, (ProductService.UpdateProduct f1 f2 id name description price
                 stockQuantity tbl).2 !! id = Some r
              ∧ row_name r = name ∧ row_description r = description
              ∧ row_stock r = stockQuantity)
      ∧ ∀ k, k ≠ id →
             (ProductService.UpdateProduct f1 f2 id name description price stockQuantity
                tbl).2 !! k = tbl !! k
  | Err e =>
      (ProductService.UpdateProduct f1 f2 id name description price stockQuantity tbl).2
      = tbl
      ∧ (e = ProductService.ErrProductNotFound → tbl !! id = None)
  end.
Proof.
  unfold ProductService.UpdateProduct.
  destruct (bool_decide (id = "")) eqn:Hid; simpl; [done |].
  apply bool_decide_eq_false in Hid.
  destruct (ProductService.invalid_product _ _ _) eqn:Hv; simpl; [done |].
  apply invalid_product_false in Hv as (Hn & Hp & Hs).
  unfold ProductService.repo_GetProductByID. case_decide; simpl; [done |].
  destruct (tbl !! id) as [r |] eqn:Hr; simpl; [| done].
  unfold ProductService.repo_UpdateProduct. simpl. case_decide; simpl; [done |].
  rewrite Hr. simpl. repeat split; try done.
  - apply dom_insert_lookup_L. by rewrite Hr.
  - eexists. by rewrite lookup_insert_eq.
  - intros k Hk. by rewrite lookup_insert_ne.
Qed.

(** ** User accounts *)

Section Accounts.

Variable HashPassword : string → string → option string.
Variable CheckPasswordHash : string → string → bool.

Lemma repo_GetUserByEmail_cases f email tbl :
  match UserAccounts.repo_GetUserByEmail f email tbl with
  | Ok u =>
      f ≠ DbQueryFails ∧ u ∈ tbl ∧ UserAccounts.Email u = email
      ∧ ∃ i, list_find (λ u, UserAccounts.Email u = email) tbl = Some (i, u)
  | Err e =>
      (f = DbQueryFails ∧ e = UserAccounts.ErrDb "query failed")
      ∨ (f ≠ DbQueryFails ∧ e = UserAccounts.ErrUserNotFound
         ∧ Forall (λ u, UserAccounts.Email u ≠ email) tbl)
  end.
Proof.
  unfold UserAccounts.repo_GetUserByEmail. case_decide as Hf; [by left |].
  destruct (list_find _ tbl) as [[i u] |] eqn:Hfind.
  - pose proof Hfind as Hfind'. apply list_find_Some in Hfind' as (Hi & He & _).
    split; [done |]. split; [by eapply list_elem_of_lookup_2 |]. split; [done |].
    by exists i.
  - right. split; [done |]. split; [done |]. by apply list_find_None in Hfind.
Qed.

(** What a successful registration has done. *)
Lemma CreateUser_success f1 f2 salt id username email password tbl u tbl' :
  UserAccounts.CreateUser HashPassword f1 f2 salt id username email password tbl
  = (Ok u, tbl') →
  tbl' = tbl ++ [u]
  ∧ u = {| UserAccounts.UID := id; UserAccounts.Username := username;
           UserAccounts.Email := email;
           UserAccounts.PasswordHash := UserAccounts.PasswordHash u |}
  ∧ HashPassword salt password = Some (UserAccounts.PasswordHash u)
  ∧ Forall (λ v, UserAccounts.Email v ≠ email) tbl.
Proof.
  unfold UserAccounts.CreateUser.
  pose proof (repo_GetUserByEmail_cases f1 email tbl) as Hget.
  destruct (UserAccounts.repo_GetUserByEmail f1 email tbl) as [v | e]; [done |].
  destruct Hget as [[_ ->] | (_ & -> & Hnone)]; [done |].
  destruct (HashPassword salt password) as [h |]; [| done].
  unfold UserAccounts.repo_CreateUser. simpl.
  case_decide; [done |].
  intros [= <- <-]. by simpl.
Qed.

Lemma CreateUser_failure f1 f2 salt id username email password tbl e tbl' :
  UserAccounts.CreateUser HashPassword f1 f2 salt id username email password tbl
  = (Err e, tbl') →
  tbl' = tbl.
Proof.
  unfold UserAccounts.CreateUser, UserAccounts.repo_CreateUser.
  intros H. repeat (case_decide || case_match); by simplify_eq.
Qed.

(** X22: the check CreateUser makes before it inserts keeps the emails
    of the users table apart.  If no two rows have the same email, none have
    after CreateUser, whatever its arguments, the faults it meets and what
    bcrypt and the id generator hand out, and although the insert itself
    checks nothing; and a call that fails leaves the table as it was. *)
Theorem X22_registration_keeps_emails_unique
    f1 f2 salt id username email password tbl :
  emails_unique tbl →
  emails_unique
    (UserAccounts.CreateUser HashPassword f1 f2 salt id username email password tbl).2
  ∧ (is_ok (UserAccounts.CreateUser HashPassword f1 f2 salt id username email password
              tbl).1 = false →
     (UserAccounts.CreateUser HashPassword f1 f2 salt id username email password tbl).2
     = tbl).
Proof.
  intros He.
  destruct (UserAccounts.CreateUser HashPassword f1 f2 salt id username email password tbl)
    as [[u | e] tbl'] eqn:Hrun; simpl.
  - split; [| done].
    apply CreateUser_success in Hrun as (-> & Hu & _ & Hfresh).
    assert (UserAccounts.Email u = email) as Hemail by (by rewrite Hu).
    unfold emails_unique. rewrite fmap_app. simpl.
    apply NoDup_app. split; [done |]. split; [| apply NoDup_singleton].
    intros x Hx ->%list_elem_of_singleton.
    apply list_elem_of_fmap in Hx as (v & Hv & Hin).
    rewrite Forall_forall in Hfresh. apply (Hfresh v Hin). congruence.
  - apply CreateUser_failure in Hrun as ->. by split.
Qed.

(** X23: a second registration under an email that is taken is refused:
    as long as the store answers, CreateUser returns ErrUserAlreadyExists
    and inserts nothing, and the HTTP handler, which answers 400 without
    calling the service when user name, email or password is empty, answers
    409 otherwise. *)
Theorem X23_taken_email_is_refused f1 f2 salt id username email password tbl :
  f1 ≠ DbQueryFails →
  Exists (λ u, UserAccounts.Email u = email) tbl →
  UserAccounts.CreateUser HashPassword f1 f2 salt id username email password tbl
  = (Err UserAccounts.ErrUserAlreadyExists, tbl)
  ∧ UserAccounts.http_createUser_status HashPassword f1 f2 salt id
      username email password tbl
    = (if bool_decide (username = "") || bool_decide (email = "")
          || bool_decide (password = "")
       then 400 else 409, tbl).
Proof.
  intros Hf Hex.
  assert (UserAccounts.CreateUser HashPassword f1 f2 salt id username email password tbl
          = (Err UserAccounts.ErrUserAlreadyExists, tbl)) as Hrun.
  { unfold UserAccounts.CreateUser.
    pose proof (repo_GetUserByEmail_cases f1 email tbl) as Hget.
    destruct (UserAccounts.repo_GetUserByEmail f1 email tbl) as [v | e]; [done |].
    destruct Hget as [[? _] | (_ & _ & Hnone)]; [done |].
    apply Exists_exists in Hex as (u & Hin & Hu).
    rewrite Forall_forall in Hnone. by destruct (Hnone u Hin). }
  split; [done |]. unfold UserAccounts.http_createUser_status. rewrite Hrun.
  by destruct (_ || _).
Qed.

(** X24: who has registered can log in.  After a successful CreateUser,
    and provided bcrypt accepts the password against the hash it has made
    of it, LoginUser with the same email and password returns the created
    user and the token made of "mock-jwt-token-for-" and the user's id; and
    for every other email LoginUser answers as it did before the
    registration. *)
Theorem X24_registered_user_logs_in
    f1 f2 salt id username email password tbl u tbl' f :
  UserAccounts.CreateUser HashPassword f1 f2 salt id username email password tbl
  = (Ok u, tbl') →
  CheckPasswordHash password (UserAccounts.PasswordHash u) = true →
  f ≠ DbQueryFails →
  UserAccounts.LoginUser CheckPasswordHash f email password tbl'
  = Ok (u, String.append "mock-jwt-token-for-" id)
  ∧ ∀ email' password',
      email' ≠ email →
      UserAccounts.LoginUser CheckPasswordHash f email' password' tbl'
      = UserAccounts.LoginUser CheckPasswordHash f email' password' tbl.
Proof.
  intros Hrun Hcheck Hf.
  apply CreateUser_success in Hrun as (-> & Hu & _ & Hfresh).
  assert (UserAccounts.Email u = email ∧ UserAccounts.UID u = id) as [He Hi]
    by (by rewrite Hu).
  unfold UserAccounts.LoginUser, UserAccounts.repo_GetUserByEmail.
  rewrite !decide_False by done. split.
  - rewrite list_find_app_r.
    2: { by apply list_find_None. }
    simpl. rewrite decide_True by done. simpl. by rewrite Hcheck, Hi.
  - intros email' password' Hne. rewrite !decide_False by done.
    destruct (list_find (λ u, UserAccounts.Email u = email') tbl) as [[i v] |] eqn:Hfind.
    + by rewrite (list_find_app_l _ _ _ _ _ Hfind).
    + rewrite (list_find_app_r _ _ _ Hfind). simpl.
      rewrite decide_False; [done |]. by rewrite He.
Qed.

(** X25: LoginUser does not tell an unknown email from a wrong password.
    It never reports that the user was not found: as long as the store
    answers, every failed login is ErrInvalidCredentials, for an email
    without an account as for a password bcrypt does not accept.  A
    successful login returns the account with this email, whose hash bcrypt
    accepts, and the token made of its id. *)
Theorem X25_login_tells_nothing_of_accounts f email password tbl :
  match UserAccounts.LoginUser CheckPasswordHash f email password tbl with
  | Ok (u, token) =>
      f ≠ DbQueryFails ∧ u ∈ tbl ∧ UserAccounts.Email u = email
      ∧ CheckPasswordHash password (UserAccounts.PasswordHash u) = true
      ∧ token = String.append "mock-jwt-token-for-" (UserAccounts.UID u)
  | Err e =>
      (f = DbQueryFails ∧ e = UserAccounts.ErrDb "query failed")
      ∨ (f ≠ DbQueryFails ∧ e = UserAccounts.ErrInvalidCredentials
         ∧ (Forall (λ u, UserAccounts.Email u ≠ email) tbl
            ∨ ∃ u, u ∈ tbl ∧ UserAccounts.Email u = email
                   ∧ CheckPasswordHash password (UserAccounts.PasswordHash u) = false))
  end.
Proof.
  unfold UserAccounts.LoginUser.
  pose proof (repo_GetUserByEmail_cases f email tbl) as Hget.
  destruct (UserAccounts.repo_GetUserByEmail f email tbl) as [u | e].
  - destruct Hget as (Hf & Hin & He & _).
    destruct (CheckPasswordHash password (UserAccounts.PasswordHash u)) eqn:Hcheck.
    + done.
    + right. split; [done |]. split; [done |]. right. by exists u.
  - destruct Hget as [[-> ->] | (Hf & -> & Hnone)]; [by left |].
    right. split; [done |]. split; [done |]. by left.
Qed.

End Accounts.

Lemma X22_registration_keeps_emails_unique_witness :
  emails_unique
    (UserAccounts.CreateUser toy_hash NoFault NoFault "s1" "id-1"
       "ann" "ann@example.org" "secret" []).2
  ∧ emails_unique
      (UserAccounts.CreateUser toy_hash NoFault NoFault "s1" "id-2"
         "ann" "bob@example.org" "hunter2"
         (UserAccounts.CreateUser toy_hash NoFault NoFault "s1" "id-1"
            "ann" "ann@example.org" "secret" []).2).2
  ∧ emails_unique
      (UserAccounts.CreateUser toy_hash NoFault NoFault "s1" "id-3"
         "eve" "ann@example.org" "hunter2"
         (UserAccounts.CreateUser toy_hash NoFault NoFault "s1" "id-1"
            "ann" "ann@example.org" "secret" []).2).2.
Proof.
  assert (emails_unique
            (UserAccounts.CreateUser toy_hash NoFault NoFault "s1" "id-1"
               "ann" "ann@example.org" "secret" []).2) as H
    by (vm_compute; apply NoDup_singleton).
  split; [exact H |]. split.
  - exact (proj1 (X22_registration_keeps_emails_unique toy_hash NoFault NoFault
                    "s1" "id-2" "ann" "bob@example.org" "hunter2" _ H)).
  - exact (proj1 (X22_registration_keeps_emails_unique toy_hash NoFault NoFault
                    "s1" "id-3" "eve" "ann@example.org" "hunter2" _ H)).
Defined.

Lemma X23_taken_email_is_refused_witness :
  UserAccounts.CreateUser toy_hash NoFault NoFault "s1" "id-2"
    "bob" "ann@example.org" "hunter2"
    (UserAccounts.CreateUser toy_hash NoFault NoFault "s1" "id-1"
       "ann" "ann@example.org" "secret" []).2
  = (Err UserAccounts.ErrUserAlreadyExists,
     (UserAccounts.CreateUser toy_hash NoFault NoFault "s1" "id-1"
        "ann" "ann@example.org" "secret" []).2).
Proof.
  eapply proj1, X23_taken_email_is_refused; [done |].
  apply Exists_exists. eexists. split; [apply list_elem_of_here | by vm_compute].
Defined.

Lemma X24_registered_user_logs_in_witness :
  ∃ u tbl',
    UserAccounts.CreateUser toy_hash NoFault NoFault "s1" "id-1"
      "ann" "ann@example.org" "secret" [] = (Ok u, tbl')
    ∧ UserAccounts.LoginUser toy_check NoFault "ann@example.org" "secret" tbl'
      = Ok (u, "mock-jwt-token-for-id-1").
Proof.
  eexists _, _. split; [by vm_compute |].
  eapply proj1,
    (X24_registered_user_logs_in toy_hash toy_check NoFault NoFault "s1" "id-1"
       "ann" "ann@example.org" "secret" []); by vm_compute.
Defined.

(** ** Orders and the tables they refer to *)

Lemma rpc_GetUser_Ok env userID w u w1 :
  rpc_GetUser env userID w = (Ok u, w1) → userID ∈ users w ∧ u = userID.
Proof.
  unfold rpc_GetUser, UserService.GetUser, UserService.GetUserByID,
    UserService.repo_GetUserByID.
  intros H. repeat (case_decide || case_match); by simplify_eq.
Qed.

(** X26: for a user the users table does not hold, CreateOrder does
    nothing but ask the validator.  Whatever the schedule, the faults and
    the items, it fails with an error that wraps ErrInvalidOrderData or
    ErrUserValidationFailed, issues no call but at most the one failed
    GetUser call, and changes no data. *)
Theorem X26_unknown_user_changes_nothing env sched userID requestedItems w :
  userID ∉ users w →
  ∃ e, (CreateOrder env sched userID requestedItems w).1 = Err e
       ∧ (sentinel e = Some ErrInvalidOrderData
          ∨ sentinel e = Some ErrUserValidationFailed)
       ∧ (issued w (CreateOrder env sched userID requestedItems w).2 = []
          ∨ issued w (CreateOrder env sched userID requestedItems w).2
            = [(CallGetUser userID, false)])
       ∧ same_data w (CreateOrder env sched userID requestedItems w).2.
Proof.
  intros Hnot.
  destruct (CreateOrder_path_spec env sched userID requestedItems w)
    as [ Hin | err w1 Hu Hi Huser | u w1 e Hu Hi Huser Hlaunch
       | u w1 e Hu Hi Huser Hlaunch Herr
       | u w1 e w2 Hu Hi Huser Hlaunch Herr Hloop
       | u w1 w2 r w3 Hu Hi Huser Hlaunch Herr Hloop Hrepo ]; simpl.
  3-6: by destruct (rpc_GetUser_Ok _ _ _ _ _ Huser).
  - exists InvalidOrderData. rewrite issued_refl.
    split; [done |]. split; [by left |]. split; [by left | apply same_data_refl].
  - destruct (rpc_GetUser_world _ _ _ _ _ Huser) as [Hdata Hcalls].
    eexists. split; [done |]. rewrite sentinel_user_validation.
    split; [by right |]. split; [| done]. right. by apply issued_app.
Qed.

Lemma X26_unknown_user_changes_nothing_witness :
  ∃ e, (CreateOrder quiet in_turn "u2" [request_item "P1" 1] shop).1 = Err e
       ∧ (sentinel e = Some ErrInvalidOrderData
          ∨ sentinel e = Some ErrUserValidationFailed)
       ∧ (issued shop (CreateOrder quiet in_turn "u2" [request_item "P1" 1] shop).2 = []
          ∨ issued shop (CreateOrder quiet in_turn "u2" [request_item "P1" 1] shop).2
            = [(CallGetUser "u2", false)])
       ∧ same_data shop (CreateOrder quiet in_turn "u2" [request_item "P1" 1] shop).2.
Proof. apply X26_unknown_user_changes_nothing. by vm_compute. Defined.

Lemma is_Some_adjust p d (tbl : gmap string ProductRow) k :
  is_Some (adjust p d tbl !! k) ↔ is_Some (tbl !! k).
Proof.
  rewrite lookup_adjust. case_decide; [| done]. by rewrite fmap_is_Some.
Qed.

Lemma is_Some_foldl_adjust (applied : list (string * Z)) (tbl : gmap string ProductRow) k :
  is_Some (foldl (λ tbl e, adjust e.1 e.2 tbl) tbl applied !! k) ↔ is_Some (tbl !! k).
Proof.
  revert tbl. induction applied as [| [p d] applied IH]; intros tbl; [done |].
  simpl. by rewrite IH, is_Some_adjust.
Qed.

(** CreateOrder adds no product to the catalog and takes none away, and
    leaves the users as they are. *)
Lemma CreateOrder_keeps_tables env sched userID requestedItems w :
  users (CreateOrder env sched userID requestedItems w).2 = users w
  ∧ ∀ k, is_Some (products (CreateOrder env sched userID requestedItems w).2 !! k)
         ↔ is_Some (products w !! k).
Proof.
  destruct (CreateOrder_path_spec env sched userID requestedItems w)
    as [ Hin | err w1 Hu Hi Huser | u w1 e Hu Hi Huser Hlaunch
       | u w1 e Hu Hi Huser Hlaunch Herr
       | u w1 e w2 Hu Hi Huser Hlaunch Herr Hloop
       | u w1 w2 r w3 Hu Hi Huser Hlaunch Herr Hloop Hrepo ]; simpl; [done | ..].
  all: destruct (rpc_GetUser_world _ _ _ _ _ Huser) as [(Hus1 & Hprod1 & _) _].
  all: try (destruct (fan_out_issued env sched requestedItems w1)
              as (gets & _ & _ & (Hus & Hprod & _) & _)).
  all: try (apply commit_loop_spec in Hloop
              as (Hus2 & _ & _ & applied & Hprod2 & _)).
  all: try (apply repo_CreateOrder_spec in Hrepo as (Hus3 & Hprod3 & _)).
  - by rewrite Hus1, Hprod1.
  - by rewrite Hus, Hus1, Hprod, Hprod1.
  - by rewrite Hus, Hus1, Hprod, Hprod1.
  - rewrite Hus2, Hus, Hus1, Hprod2, Hprod, Hprod1. split; [done |].
    intros k. apply is_Some_foldl_adjust.
  - rewrite Hus3, Hus2, Hus, Hus1, Hprod3, Hprod2, Hprod, Hprod1. split; [done |].
    intros k. apply is_Some_foldl_adjust.
Qed.

(** X27: CreateOrder keeps the stored orders in line with the other
    tables.  If every stored order belongs to a user of the users table and
    each of its items is under the order's id, has a positive quantity and
    names a product of the catalog, the same holds after the call, for
    every schedule, fault pattern and request: no order is stored for an
    unknown user or with a line for an unknown product. *)
Theorem X27_orders_stay_sound env sched userID requestedItems w :
  orders_sound w → orders_sound (CreateOrder env sched userID requestedItems w).2.
Proof.
  intros Hw. unfold orders_sound.
  destruct (CreateOrder_keeps_tables env sched userID requestedItems w) as [Hus Hdom].
  assert (Forall (λ o, UserID o ∈ users (CreateOrder env sched userID requestedItems w).2
                       ∧ Forall (λ it, OrderID it = OrderId o ∧ 0 < Quantity it
                                       ∧ is_Some
                                           (products
                                              (CreateOrder env sched userID
                                                 requestedItems w).2 !! ProductID it))
                            (Items o)) (orders w)) as Hold.
  { eapply Forall_impl; [exact Hw |]. intros o [Hu Hitems]. rewrite Hus.
    split; [done |]. eapply Forall_impl; [exact Hitems |].
    intros it (? & ? & ?). by rewrite Hdom. }
  destruct (CreateOrder env sched userID requestedItems w) as [[o | e] w'] eqn:Hrun.
  2: { destruct (CreateOrder_path_spec env sched userID requestedItems w)
         as [ Hin | err w1 Hu Hi Huser | u w1 e' Hu Hi Huser Hlaunch
            | u w1 e' Hu Hi Huser Hlaunch Herr
            | u w1 e' w2 Hu Hi Huser Hlaunch Herr Hloop
            | u w1 w2 r w3 Hu Hi Huser Hlaunch Herr Hloop Hrepo ];
         injection Hrun as Hres <-; simpl in *; try done.
       all: destruct (rpc_GetUser_world _ _ _ _ _ Huser) as [(_ & _ & Hord1 & _) _].
       all: try (destruct (fan_out_issued env sched requestedItems w1)
                   as (gets & _ & _ & (_ & _ & Hord & _) & _)).
       all: try (apply commit_loop_spec in Hloop as (_ & Hord2 & _)).
       - by rewrite Hord1.
       - by rewrite Hord, Hord1.
       - by rewrite Hord, Hord1.
       - by rewrite Hord2, Hord, Hord1.
       - apply repo_CreateOrder_stored in Hrepo. destruct r as [o | e0]; [done |].
         destruct Hrepo as [-> _]. by rewrite Hord2, Hord, Hord1. }
  simpl in *.
  apply CreateOrder_success in Hrun
    as (u & w1 & w2 & Hu & Hi & Huser & Hlaunch & Herr & Hloop & Hrepo).
  destruct (rpc_GetUser_Ok _ _ _ _ _ Huser) as [Hknown _].
  destruct (rpc_GetUser_world _ _ _ _ _ Huser) as [(_ & Hprod1 & Hord1 & _) _].
  destruct (fan_out_issued env sched requestedItems w1)
    as (gets & _ & _ & (_ & _ & Hord & _) & _).
  destruct (fan_out_processed _ _ _ _ Herr) as [Hperm Hpriced].
  destruct (launch_loop_all _ Hlaunch) as [Hall Hpos]. rewrite Hall in Hperm.
  apply commit_loop_spec in Hloop as (_ & Hord2 & _).
  pose proof (repo_CreateOrder_spec _ _ _ _ _ Hrepo) as (_ & _ & _ & Hfields).
  destruct (Hfields o eq_refl) as (_ & Huid & Hlines). simpl in Huid, Hlines.
  apply repo_CreateOrder_stored in Hrepo as (Hord3 & _ & Hids & _).
  rewrite Hord3, Hord2, Hord, Hord1. constructor; [| done].
  split; [by rewrite Huid, Hus |].
  pose proof (same_line_priced _ _ _ Hlines Hpriced) as Hpriced'.
  pose proof (same_line_key _ _ Hlines) as Hkeys.
  assert (Forall (λ kq : string * Z, 0 < kq.2) (key <$> Items o)) as Hq.
  { rewrite Hkeys, Hperm. apply Forall_fmap. eapply Forall_impl; [exact Hpos | done]. }
  rewrite Forall_fmap in Hq.
  rewrite Forall_forall in Hids, Hpriced', Hq. apply Forall_forall. intros it Hit.
  split; [by apply Hids |]. split; [by apply (Hq it Hit) |].
  destruct (Hpriced' it Hit) as (row & Hrow & _).
  apply Hdom. rewrite Hprod1 in Hrow. by rewrite Hrow.
Qed.

Lemma X27_orders_stay_sound_witness :
  orders_sound shop
  ∧ orders_sound
      (CreateOrder quiet alternating "u1"
         [request_item "P1" 2; request_item "P2" 1] shop).2.
Proof.
  assert (orders_sound shop) as H by constructor.
  split; [exact H | exact (X27_orders_stay_sound _ _ _ _ _ H)].
Defined.

(** ** The identifiers of a stored order *)

Lemma stamp_items_ids env orderID first items :
  ItemID <$> OrderRepository.stamp_items env orderID first items
  = uuid env <$> seq first (length items).
Proof.
  unfold OrderRepository.stamp_items. rewrite fmap_imap.
  rewrite <- (imap_seq items (uuid env) first). by apply imap_ext.
Qed.

(** X28: the identifiers of a stored order are fresh.  As long as the id
    generator does not repeat itself, the order returned by CreateOrder and
    its items carry identifiers that differ from one another, each drawn
    after those drawn before the call: one for the order and one for each
    requested item.  Identifiers are drawn by the store call only; a call
    that fails there has stored nothing, and has drawn no more than a
    successful one. *)
Theorem X28_fresh_identifiers env sched userID requestedItems w :
  (∀ m n, uuid env m = uuid env n → m = n) →
  match (CreateOrder env sched userID requestedItems w).1 with
  | Ok o =>
      NoDup (OrderId o :: (ItemID <$> Items o))
      ∧ length (Items o) = length requestedItems
      ∧ uuids (CreateOrder env sched userID requestedItems w).2
        = (uuids w + 1 + length requestedItems)%nat
      ∧ OrderId o :: (ItemID <$> Items o)
        = uuid env <$> seq (uuids w) (1 + length requestedItems)
  | Err e =>
      (uuids w <= uuids (CreateOrder env sched userID requestedItems w).2
       <= uuids w + 1 + length requestedItems)%nat
      ∧ ((∀ e', e ≠ Repository e') →
         uuids (CreateOrder env sched userID requestedItems w).2 = uuids w)
  end.
Proof.
  intros Hinj.
  destruct (CreateOrder_path_spec env sched userID requestedItems w)
    as [ Hin | err w1 Hu Hi Huser | u w1 e Hu Hi Huser Hlaunch
       | u w1 e Hu Hi Huser Hlaunch Herr
       | u w1 e w2 Hu Hi Huser Hlaunch Herr Hloop
       | u w1 w2 r w3 Hu Hi Huser Hlaunch Herr Hloop Hrepo ]; simpl;
    [split; [lia | done] | ..].
  all: destruct (rpc_GetUser_world _ _ _ _ _ Huser) as [(_ & _ & _ & Hid1) _].
  all: try (destruct (fan_out_issued env sched requestedItems w1)
              as (gets & _ & _ & (_ & _ & _ & Hid) & _)).
  all: try (apply commit_loop_spec in Hloop as (_ & _ & Hid2 & _)).
  - rewrite Hid1. split; [lia | done].
  - rewrite Hid, Hid1. split; [lia | done].
  - rewrite Hid, Hid1. split; [lia | done].
  - rewrite Hid2, Hid, Hid1. split; [lia | done].
  - assert (length (processedItems (shared (fan_out env sched requestedItems w1)))
            = length requestedItems) as Hlen.
    { rewrite (fan_out_processed_length _ _ _ _ Herr).
      by destruct (launch_loop_all _ Hlaunch) as [-> _]. }
    apply repo_CreateOrder_stored in Hrepo. unfold new_order in Hrepo. simpl in Hrepo.
    rewrite Hlen, Hid2, Hid, Hid1 in Hrepo.
    destruct r as [o | e]; simpl.
    + destruct Hrepo as (_ & Hoid & _ & _ & Hdrawn & Hitems).
      rewrite Hoid, Hitems, stamp_items_ids, Hlen, Hdrawn.
      assert (Inj (=) (=) (uuid env)) as Hinj' by (intros m n; apply Hinj).
      split; [| split; [| split]].
      * change (NoDup (uuid env <$> seq (uuids w) (S (length requestedItems)))).
        apply NoDup_fmap_2; [done | apply NoDup_seq].
      * unfold OrderRepository.stamp_items. by rewrite length_imap.
      * done.
      * done.
    + destruct Hrepo as [_ Hb]. split; [done |]. intros Hne. by destruct (Hne e).
Qed.

Lemma X28_fresh_identifiers_witness :
  match (CreateOrder quiet alternating "u1"
           [request_item "P1" 2; request_item "P2" 1] shop).1 with
  | Ok o =>
      NoDup (OrderId o :: (ItemID <$> Items o))
      ∧ length (Items o) = 2%nat
      ∧ uuids (CreateOrder quiet alternating "u1"
                 [request_item "P1" 2; request_item "P2" 1] shop).2 = 3%nat
      ∧ OrderId o :: (ItemID <$> Items o) = uuid quiet <$> seq 0 3
  | Err e =>
      (0 <= uuids (CreateOrder quiet alternating "u1"
                     [request_item "P1" 2; request_item "P2" 1] shop).2 <= 3)%nat
      ∧ ((∀ e', e ≠ Repository e') →
         uuids (CreateOrder quiet alternating "u1"
                  [request_item "P1" 2; request_item "P2" 1] shop).2 = 0%nat)
  end.
Proof.
  apply (X28_fresh_identifiers quiet alternating "u1"
           [request_item "P1" 2; request_item "P2" 1] shop).
  intros m n H. simpl in H. by apply (inj (String.append "id-")), (inj pretty) in H.
Defined.

(** A store call whose second item insert fails has stored nothing, and has
    spent the identifiers of the order and of both items. *)
Example spent_identifiers_scenario :
  (CreateOrder second_item_fails in_turn "u1"
     [request_item "P1" 2; request_item "P2" 1] shop).1
  = Err (Repository (OrderRepository.ErrDb "insert failed"))
  ∧ orders (CreateOrder second_item_fails in_turn "u1"
              [request_item "P1" 2; request_item "P2" 1] shop).2 = []
  ∧ uuids (CreateOrder second_item_fails in_turn "u1"
             [request_item "P1" 2; request_item "P2" 1] shop).2 = 3%nat.
Proof. by vm_compute. Qed.

(** ** The answers of the stock adjustment *)

(** X29: what the gRPC UpdateStock handler answers when the store meets no
    fault.  An empty product id is InvalidArgument, an id without a row is
    NotFound, an adjustment whose 32-bit result is negative is
    FailedPrecondition, each leaving the table as it was; every other
    adjustment succeeds and returns the row with its new stock. *)
Theorem X29_UpdateStock_answers productID quantityChange tbl :
  match ProductService.handler_UpdateStock NoFault productID quantityChange tbl with
  | (Ok p, tbl') =>
      productID ≠ ""
      ∧ ∃ r, tbl !! productID = Some r ∧ 0 <= int32 (row_stock r + quantityChange)
             ∧ p = scan_product productID (adjusted r quantityChange)
             ∧ tbl' = <[productID := adjusted r quantityChange]> tbl
  | (Err err, tbl') =>
      tbl' = tbl
      ∧ ∃ st, err = StatusError st
              ∧ ((code st = InvalidArgument ∧ productID = "")
                 ∨ (code st = NotFound ∧ productID ≠ "" ∧ tbl !! productID = None)
                 ∨ (code st = FailedPrecondition ∧ productID ≠ ""
                    ∧ ∃ r, tbl !! productID = Some r
                           ∧ int32 (row_stock r + quantityChange) < 0))
  end.
Proof.
  unfold ProductService.handler_UpdateStock, ProductService.UpdateStock.
  case_decide as Hid.
  { split; [done |]. eexists. split; [done |]. by left. }
  unfold ProductService.repo_UpdateStock. rewrite !decide_False by done.
  destruct (tbl !! productID) as [r |] eqn:Hr.
  - cbv zeta. destruct (int32 (row_stock r + quantityChange) <? 0) eqn:Hneg.
    + apply Z.ltb_lt in Hneg. split; [done |]. eexists. split; [done |].
      right. right. split; [done |]. split; [done |]. by exists r.
    + apply Z.ltb_ge in Hneg. rewrite !decide_False by done.
      split; [done |]. by exists r.
  - split; [done |]. eexists. split; [done |]. right. left. by repeat split.
Qed.

(** ** The outcome does not depend on the schedule *)

(** The catalog after a successful call, row by row. *)
Lemma CreateOrder_success_products env sched userID requestedItems w o w' p :
  CreateOrder env sched userID requestedItems w = (Ok o, w') →
  products w' !! p
  = if decide (p ∈ ProductID <$> requestedItems)
    then (λ r, adjusted r (int32 (- demand p (key <$> requestedItems))))
           <$> products w !! p
    else products w !! p.
Proof.
  intros H.
  destruct (CreateOrder_trace env sched userID requestedItems w)
    as [(_ & _ & Hnot)
       | (_ & gets & applied & tail & _ & _ & Hprod & Hrows & Hnd & Hmem & Htail)].
  { exfalso. apply Hnot.
    apply CreateOrder_success in H
      as (u & w1 & w2 & Hu & Hi & Huser & Hlaunch & Herr & _).
    unfold reaches_commit. by rewrite Huser. }
  rewrite H in Hprod, Htail. simpl in Hprod, Htail.
  destruct Htail as [(p0 & d0 & err & _ & Hres & _) | (ok & _ & Hall & _)]; [done |].
  rewrite Hprod. case_decide as Hp.
  - apply Hall, list_elem_of_fmap in Hp as ([p' d] & -> & Hin).
    destruct (Hmem _ _ Hin) as [_ Hd]. simpl in *.
    rewrite Forall_forall in Hrows. destruct (Hrows _ Hin) as [r Hr]. simpl in Hr.
    rewrite (lookup_adjust_applied _ _ _ _ _ Hnd Hin Hr), Hr. simpl. by rewrite Hd.
  - apply lookup_adjust_other. intros Hin.
    apply list_elem_of_fmap in Hin as ([p' d] & -> & Hin).
    by destruct (Hmem _ _ Hin) as [? _].
Qed.

(** X30: the stock a successful CreateOrder leaves behind does not depend
    on how the goroutines were scheduled or in which order the stock map was
    ranged over.  Two successful runs of the same request on the same data,
    under any two schedules and fault patterns, end with the same users and
    the same catalog, and each with one new order on top of the orders there
    were, for the same user, with the same status and the same lines up to
    their order.  (The order of the items and the total, a floating-point
    sum taken in that order, do depend on the schedule.) *)
Theorem X30_stock_is_schedule_independent
    env1 env2 sched1 sched2 userID requestedItems w o1 w1 o2 w2 :
  CreateOrder env1 sched1 userID requestedItems w = (Ok o1, w1) →
  CreateOrder env2 sched2 userID requestedItems w = (Ok o2, w2) →
  users w1 = users w2 ∧ products w1 = products w2
  ∧ orders w1 = o1 :: orders w ∧ orders w2 = o2 :: orders w
  ∧ key <$> Items o1 ≡ₚ key <$> Items o2
  ∧ UserID o1 = UserID o2 ∧ OStatus o1 = OStatus o2.
Proof.
  intros H1 H2.
  pose proof (CreateOrder_keeps_tables env1 sched1 userID requestedItems w) as [Hu1 _].
  pose proof (CreateOrder_keeps_tables env2 sched2 userID requestedItems w) as [Hu2 _].
  rewrite H1 in Hu1. rewrite H2 in Hu2. simpl in Hu1, Hu2.
  split; [by rewrite Hu1, Hu2 |]. split.
  { apply map_eq. intros p.
    by rewrite (CreateOrder_success_products _ _ _ _ _ _ _ p H1),
      (CreateOrder_success_products _ _ _ _ _ _ _ p H2). }
  assert (∀ env sched o w',
            CreateOrder env sched userID requestedItems w = (Ok o, w') →
            orders w' = o :: orders w
            ∧ key <$> Items o ≡ₚ key <$> requestedItems
            ∧ UserID o = userID ∧ OStatus o = StatusPending) as Hlines.
  { intros env sched o w' H.
    apply CreateOrder_success in H
      as (u & w1' & w2' & _ & _ & Huser & Hlaunch & Herr & Hloop & Hrepo).
    destruct (rpc_GetUser_world _ _ _ _ _ Huser) as [(_ & _ & Hord1 & _) _].
    destruct (fan_out_issued env sched requestedItems w1')
      as (gets & _ & _ & (_ & _ & Hord & _) & _).
    apply commit_loop_spec in Hloop as (_ & Hord2 & _).
    destruct (fan_out_processed _ _ _ _ Herr) as [Hperm _].
    destruct (launch_loop_all _ Hlaunch) as [Hall _]. rewrite Hall in Hperm.
    pose proof (repo_CreateOrder_spec _ _ _ _ _ Hrepo) as (_ & _ & _ & Hfields).
    destruct (Hfields o eq_refl) as (_ & Huid & Hl).
    apply repo_CreateOrder_stored in Hrepo as (Hord3 & _ & _ & Hst & _).
    rewrite Hord3, Hord2, Hord, Hord1. by rewrite (same_line_key _ _ Hl). }
  destruct (Hlines _ _ _ _ H1) as (Ho1 & Hk1 & Hid1 & Hs1).
  destruct (Hlines _ _ _ _ H2) as (Ho2 & Hk2 & Hid2 & Hs2).
  by rewrite Hk1, Hk2, Hid1, Hid2, Hs1, Hs2.
Qed.

Lemma X30_stock_is_schedule_independent_witness :
  ∃ o1 w1 o2 w2,
    CreateOrder quiet in_turn "u1"
      [request_item "A" 1; request_item "B" 1; request_item "C" 1] tenths = (Ok o1, w1)
    ∧ CreateOrder quiet last_first "u1"
        [request_item "A" 1; request_item "B" 1; request_item "C" 1] tenths = (Ok o2, w2)
    ∧ products w1 = products w2.
Proof.
  eexists _, _, _, _. split; [by vm_compute |]. split; [by vm_compute |].
  eapply proj1, proj2,
    (X30_stock_is_schedule_independent quiet quiet in_turn last_first "u1"
       [request_item "A" 1; request_item "B" 1; request_item "C" 1] tenths);
    by vm_compute.
Defined.

(** The same two runs store different totals, and the items in a different
    order: the goroutines add the lines up in the order they get to it. *)
Example total_depends_on_the_schedule :
  match (CreateOrder quiet in_turn "u1"
           [request_item "A" 1; request_item "B" 1; request_item "C" 1] tenths).1,
        (CreateOrder quiet last_first "u1"
           [request_item "A" 1; request_item "B" 1; request_item "C" 1] tenths).1
  with
  | Ok o1, Ok o2 =>
      ProductID <$> Items o1 = ["A"; "B"; "C"]
      ∧ ProductID <$> Items o2 = ["C"; "B"; "A"]
      ∧ TotalAmount o1 = 0x1.3333333333334p-1%float
      ∧ TotalAmount o2 = 0x1.3333333333333p-1%float
      ∧ PrimFloat.ltb (TotalAmount o2) (TotalAmount o1) = true
  | _, _ => False
  end.
Proof. vm_compute. by repeat split. Qed.
